(** * Transition resampling of the HDP-HMM family (internals/transitions.py)

    A shallow embedding of the classes of [internals/transitions.py]:
    [HDPHMMTransitions], its left-to-right, semi-Markov and sticky
    subclasses and the concentration-resampling mix-in.

    Conventions of the embedding.
    - numpy [float64] values are exact rationals ([Q]); equalities between
      floats are stated with [==].  Rounding, NaN and infinities are outside
      the model; the one place where they matter to control flow, the trap
      set by [np.seterr(invalid='raise')], is modelled: dividing 0 by 0
      raises [FloatingPointError].
    - cells of [dtype=np.int32] arrays are integers ([Z]) and every store
      into such an array goes through [wrap32].
    - [np.random] and [scipy.stats] draws are requests to an oracle.  Each
      request is appended to the list [drawn] of the world, so that a
      statement such as "beta is drawn from a Dirichlet with parameter v"
      is a statement about that list.
    - an object is a record of attributes; the attributes that only the
      sampler assigns are optional and reading an unassigned one raises
      [AttributeError].  Mutations made before an exception stay visible.
    - a method that several classes define is one function recursing over
      the method resolution order of the object's class; [super(K, self)]
      is the recursive call on the rest of that order. *)

From Stdlib Require Import ZArith QArith Lqa Lia.
From stdpp Require Import base list.

Open Scope Q_scope.

(** ** Arrays *)

Abbreviation vec := (list Q).
Abbreviation matrix := (list (list Q)).
Abbreviation ivec := (list Z).
Abbreviation imatrix := (list (list Z)).

(** Stores into an [int32] array keep the low 32 bits, two's complement. *)
Definition wrap32 (z : Z) : Z := ((z + 2 ^ 31) mod 2 ^ 32 - 2 ^ 31)%Z.

Definition int32 (z : Z) : Prop := (- 2 ^ 31 <= z < 2 ^ 31)%Z.

Definition qsum (v : vec) : Q := foldr Qplus 0 v.
Definition zsum (v : ivec) : Z := foldr Z.add 0%Z v.

(** [np.zeros((r, c), dtype=np.int32)] *)
Definition zeros (r c : nat) : imatrix := replicate r (replicate c 0%Z).

(** [a.sum(1)]: one sum per row. *)
Definition sum_axis1 (a : matrix) : vec := qsum <$> a.
Definition isum_axis1 (a : imatrix) : ivec := zsum <$> a.

(** [a.sum(0)]: the rows added up, column by column. *)
Definition isum_axis0 (a : imatrix) : ivec :=
  foldr (zip_with Z.add) (replicate (length (default [] (head a))) 0%Z) a.

(** [a.sum()] *)
Definition isum_all (a : imatrix) : Z := zsum (isum_axis1 a).

(** [(0 == a).all()] *)
Definition all_zero (a : imatrix) : bool :=
  forallb (forallb (Z.eqb 0)) a.

(** [np.tril(a, -1)] and [np.triu(a)]. *)
Definition tril_strict {T} (z : T) (a : list (list T)) : list (list T) :=
  imap (fun i row => imap (fun j x => if (j <? i)%nat then x else z) row) a.
Definition triu {T} (z : T) (a : list (list T)) : list (list T) :=
  imap (fun i row => imap (fun j x => if (i <=? j)%nat then x else z) row) a.

(** [a.diagonal()] of a square array. *)
Definition diagonal {T} (a : list (list T)) : list T :=
  omap id (imap (fun i row => row !! i) a).

(** [a.flat[::step]]: every [step]-th cell of the row-major flattening. *)
Fixpoint every_nth {T} (skip step : nat) (l : list T) : list T :=
  match l with
  | [] => []
  | x :: l' =>
      match skip with
      | O => x :: every_nth (pred step) step l'
      | S k => every_nth k step l'
      end
  end.
Definition flat_stride {T} (step : nat) (a : list (list T)) : list T :=
  every_nth 0 step (concat a).

(** [a.flat[::a.shape[0]+1] = 0]: cell [(i, j)] sits at position
    [i * ncols + j] of the flattening. *)
Definition zero_flat_stride (a : matrix) : matrix :=
  imap (fun i row =>
    imap (fun j x =>
      if ((i * length row + j) mod S (length a) =? 0)%nat then 0 else x) row) a.

(** [np.nonzero(v)]: the positions of the nonzero entries. *)
Definition nonzero (v : ivec) : list nat :=
  omap id (imap (fun i x => if (x =? 0)%Z then None else Some i) v).

(** [np.ndenumerate(a)]: the cells in row-major order with their index. *)
Definition ndenumerate {T} (a : list (list T)) : list (nat * nat * T) :=
  concat (imap (fun i row => imap (fun j x => (i, j, x)) row) a).

(** An index into an axis of length [n]; negative indices count from the
    end, anything else is out of bounds. *)
Definition norm_index (n : nat) (i : Z) : option nat :=
  if ((0 <=? i) && (i <? Z.of_nat n))%Z then Some (Z.to_nat i)
  else if ((- Z.of_nat n <=? i) && (i <? 0))%Z then Some (Z.to_nat (i + Z.of_nat n))
  else None.

Definition Q_of_nat (n : nat) : Q := inject_Z (Z.of_nat n).
Definition to_float (a : imatrix) : matrix :=
  (fun row : ivec => inject_Z <$> row) <$> a.

(** ** Exceptions, draws and the sampler monad *)

Inductive exn : Set :=
| AttributeError
| AssertionError
| IndexError
| ValueError
| ZeroDivisionError
| FloatingPointError
| InfiniteValue.
(** [InfiniteValue] is not a Python exception: numpy divides a nonzero
    float by zero into an infinity and goes on; the rational model stops
    there. *)

(** Modelled from the spec: [DirGamma] of [basic/distributions.py], the
    concentration-parameter auxiliary sampler, is not part of the sources.
    Section 1 gives its contract: an opaque service
    [resample(counts, weights?, iterations)] that updates an internal
    concentration value, exposed as the scalar [concentration]. *)
Record DirGamma : Type := mkDirGamma {
  K : nat;
  a_0 : Q;
  b_0 : Q;
  concentration : Q
}.

(** The requests made to the random source, with their parameters. *)
Inductive draw : Type :=
| dirichlet (alpha : vec)
| gamma_rvs (a : matrix)
| rand (d0 : Z)
| geometric (p : Q) (size : Z)
| multinomial (n : Z) (pvals : vec)
| binomial (n : ivec) (p : vec)
| beta_rv (a b : Q)
| DirGamma_resample (obj : DirGamma) (counts : imatrix)
                    (weighted_cols : option vec) (niter : Z).

(** What a draw returns: as many floats or integers as the request's shape
    asks for are read off. *)
Record variate : Type := mkVariate {
  floats : nat -> nat -> Q;
  ints : nat -> Z
}.

Inductive reply : Type :=
| Value (v : variate)
| Fault (e : exn).

(** The [k]-th draw of a run, asked with request [d]. *)
Definition oracle : Type := nat -> draw -> reply.

Definition float_of (v : variate) : Q := floats v 0%nat 0%nat.
Definition floats_of (v : variate) (n : nat) : vec :=
  (fun j => floats v 0%nat j) <$> seq 0 n.
Definition matrix_of (v : variate) (shape : matrix) : matrix :=
  imap (fun i row => imap (fun j _ => floats v i j) row) shape.
Definition ints_of (v : variate) (n : nat) : ivec := ints v <$> seq 0 n.

(** ** Objects

    One record for the instances of every class of the module.  The
    constructors assign [state_dim], [alpha], [gamma] (and, in the classes
    that have them, [kappa], [rho], the prior of [rho] and the two [DirGamma]
    objects) before any method runs; the remaining attributes are assigned by
    the sampler and are [None] until then. *)
Record object : Type := mkObject {
  state_dim : nat;
  alpha : Q;
  gamma : Q;
  kappa : Q;
  rho : Q;
  rho_a_0 : Q;
  rho_b_0 : Q;
  alpha_obj : DirGamma;
  gamma_obj : DirGamma;
  beta : option vec;
  A : option matrix;
  fullA : option matrix;
  trans_counts : option imatrix;
  m : option imatrix;
  newm : option imatrix
}.

Definition set_state_dim (x : nat) (o : object) : object :=
  mkObject x (alpha o) (gamma o) (kappa o) (rho o) (rho_a_0 o) (rho_b_0 o) (alpha_obj o)
    (gamma_obj o) (beta o) (A o) (fullA o) (trans_counts o) (m o) (newm o).

Definition set_alpha (x : Q) (o : object) : object :=
  mkObject (state_dim o) x (gamma o) (kappa o) (rho o) (rho_a_0 o) (rho_b_0 o) (alpha_obj o)
    (gamma_obj o) (beta o) (A o) (fullA o) (trans_counts o) (m o) (newm o).

Definition set_gamma (x : Q) (o : object) : object :=
  mkObject (state_dim o) (alpha o) x (kappa o) (rho o) (rho_a_0 o) (rho_b_0 o) (alpha_obj o)
    (gamma_obj o) (beta o) (A o) (fullA o) (trans_counts o) (m o) (newm o).

Definition set_kappa (x : Q) (o : object) : object :=
  mkObject (state_dim o) (alpha o) (gamma o) x (rho o) (rho_a_0 o) (rho_b_0 o) (alpha_obj o)
    (gamma_obj o) (beta o) (A o) (fullA o) (trans_counts o) (m o) (newm o).

Definition set_rho (x : Q) (o : object) : object :=
  mkObject (state_dim o) (alpha o) (gamma o) (kappa o) x (rho_a_0 o) (rho_b_0 o) (alpha_obj o)
    (gamma_obj o) (beta o) (A o) (fullA o) (trans_counts o) (m o) (newm o).

Definition set_rho_a_0 (x : Q) (o : object) : object :=
  mkObject (state_dim o) (alpha o) (gamma o) (kappa o) (rho o) x (rho_b_0 o) (alpha_obj o)
    (gamma_obj o) (beta o) (A o) (fullA o) (trans_counts o) (m o) (newm o).

Definition set_rho_b_0 (x : Q) (o : object) : object :=
  mkObject (state_dim o) (alpha o) (gamma o) (kappa o) (rho o) (rho_a_0 o) x (alpha_obj o)
    (gamma_obj o) (beta o) (A o) (fullA o) (trans_counts o) (m o) (newm o).

Definition set_alpha_obj (x : DirGamma) (o : object) : object :=
  mkObject (state_dim o) (alpha o) (gamma o) (kappa o) (rho o) (rho_a_0 o) (rho_b_0 o) x
    (gamma_obj o) (beta o) (A o) (fullA o) (trans_counts o) (m o) (newm o).

Definition set_gamma_obj (x : DirGamma) (o : object) : object :=
  mkObject (state_dim o) (alpha o) (gamma o) (kappa o) (rho o) (rho_a_0 o) (rho_b_0 o) (alpha_obj o)
    x (beta o) (A o) (fullA o) (trans_counts o) (m o) (newm o).

Definition set_beta (x : vec) (o : object) : object :=
  mkObject (state_dim o) (alpha o) (gamma o) (kappa o) (rho o) (rho_a_0 o) (rho_b_0 o) (alpha_obj o)
    (gamma_obj o) (Some x) (A o) (fullA o) (trans_counts o) (m o) (newm o).

Definition set_A (x : matrix) (o : object) : object :=
  mkObject (state_dim o) (alpha o) (gamma o) (kappa o) (rho o) (rho_a_0 o) (rho_b_0 o) (alpha_obj o)
    (gamma_obj o) (beta o) (Some x) (fullA o) (trans_counts o) (m o) (newm o).

Definition set_fullA (x : matrix) (o : object) : object :=
  mkObject (state_dim o) (alpha o) (gamma o) (kappa o) (rho o) (rho_a_0 o) (rho_b_0 o) (alpha_obj o)
    (gamma_obj o) (beta o) (A o) (Some x) (trans_counts o) (m o) (newm o).

Definition set_trans_counts (x : imatrix) (o : object) : object :=
  mkObject (state_dim o) (alpha o) (gamma o) (kappa o) (rho o) (rho_a_0 o) (rho_b_0 o) (alpha_obj o)
    (gamma_obj o) (beta o) (A o) (fullA o) (Some x) (m o) (newm o).

Definition set_m (x : imatrix) (o : object) : object :=
  mkObject (state_dim o) (alpha o) (gamma o) (kappa o) (rho o) (rho_a_0 o) (rho_b_0 o) (alpha_obj o)
    (gamma_obj o) (beta o) (A o) (fullA o) (trans_counts o) (Some x) (newm o).

Definition set_newm (x : imatrix) (o : object) : object :=
  mkObject (state_dim o) (alpha o) (gamma o) (kappa o) (rho o) (rho_a_0 o) (rho_b_0 o) (alpha_obj o)
    (gamma_obj o) (beta o) (A o) (fullA o) (trans_counts o) (m o) (Some x).

(** ** The sampler monad

    A computation reads the oracle and threads the world: the object being
    resampled and the draws requested so far.  An exception carries the world
    it was raised in. *)
Record world : Type := mkWorld {
  self : object;
  drawn : list draw
}.

Inductive outcome (T : Type) : Type :=
| Ok (x : T) (w : world)
| Raise (e : exn) (w : world).
Arguments Ok {T} x w.
Arguments Raise {T} e w.

Definition M (T : Type) : Type := oracle -> world -> outcome T.

#[global] Instance M_ret : MRet M := fun T x _ w => Ok x w.
#[global] Instance M_bind : MBind M := fun T U f c om w =>
  match c om w with
  | Ok x w' => f x om w'
  | Raise e w' => Raise e w'
  end.

Definition raise {T} (e : exn) : M T := fun _ w => Raise e w.

(** [self.f] for an attribute the constructor assigned. *)
Definition attr {T} (f : object -> T) : M T := fun _ w => Ok (f (self w)) w.

(** [self.f] for an attribute of the sampler. *)
Definition attr_opt {T} (f : object -> option T) : M T := fun _ w =>
  match f (self w) with
  | Some x => Ok x w
  | None => Raise AttributeError w
  end.

(** [self.f = x] *)
Definition assign (upd : object -> object) : M unit := fun _ w =>
  Ok tt (mkWorld (upd (self w)) (drawn w)).

(** A draw: the request is recorded, the oracle answers it. *)
Definition sample (d : draw) : M variate := fun om w =>
  let w' := mkWorld (self w) (drawn w ++ [d]) in
  match om (length (drawn w)) d with
  | Value v => Ok v w'
  | Fault e => Raise e w'
  end.

(** A subscript that numpy bounds-checks. *)
Definition subscript {T} (x : option T) : M T :=
  match x with
  | Some y => mret y
  | None => raise IndexError
  end.

(** Operands whose shapes numpy cannot combine.  Only equal shapes are
    combined here; the stretching of an axis of length one is left out. *)
Definition same_shape (ok : bool) : M unit :=
  if ok then mret tt else raise ValueError.

Fixpoint foldM {T U} (f : U -> T -> M U) (l : list T) (acc : U) : M U :=
  match l with
  | [] => mret acc
  | x :: l' => acc' ← f acc x; foldM f l' acc'
  end.

(** Float division under [np.seterr(invalid='raise')]: one array operation
    raises if any of its cells divides 0 by 0. *)
Definition invalid_cell (xd : Q * Q) : bool :=
  Qeq_bool (snd xd) 0 && Qeq_bool (fst xd) 0.
Definition infinite_cell (xd : Q * Q) : bool :=
  Qeq_bool (snd xd) 0 && negb (Qeq_bool (fst xd) 0).
Definition fp_check (cells : list (Q * Q)) : M unit :=
  if existsb invalid_cell cells then raise FloatingPointError
  else if existsb infinite_cell cells then raise InfiniteValue
  else mret tt.

(** [x / d] for a vector [x] and a scalar [d]. *)
Definition divide (x : vec) (d : Q) : M vec :=
  fp_check ((fun y => (y, d)) <$> x);;
  mret ((fun y => y / d) <$> x).

(** [x / d] cell by cell. *)
Definition divide_cells (x d : vec) : M vec :=
  fp_check (zip x d);;
  mret (zip_with Qdiv x d).

(** [a / d[:,na]]: every row of [a] divided by its entry of [d]. *)
Definition divide_rows (a : matrix) (d : vec) : M matrix :=
  fp_check (concat (zip_with (fun row s => (fun y => (y, s)) <$> row) a d));;
  mret (zip_with (fun row s => (fun y => y / s) <$> row) a d).

(** ** Collaborators outside the module *)

(** Modelled from the spec: [rle] of [util/general.py] is not part of the
    sources.  Section 1 describes it as the transform that collapses
    consecutive repeated states into a sequence of distinct no-repeat states,
    each with its run length.  It returns the pair (states, run lengths);
    [resample] keeps component 0. *)
Fixpoint rle (stateseq : list Z) : list Z * list nat :=
  match stateseq with
  | [] => ([], [])
  | x :: rest =>
      match rle rest with
      | (y :: ids, n :: lens) =>
          if (x =? y)%Z then (y :: ids, S n :: lens)
          else (x :: y :: ids, 1%nat :: n :: lens)
      | _ => ([x], [1%nat])
      end
  end.

(** Modelled from the spec: [DirGamma.resample] is the opaque service of
    section 1; the concentration it arrives at is read from the random
    source and stored in the object. *)
Definition DirGamma_resample_method (obj : DirGamma) (counts : imatrix)
    (weighted_cols : option vec) (niter : Z) : M DirGamma :=
  v ← sample (DirGamma_resample obj counts weighted_cols niter);
  mret (mkDirGamma (K obj) (a_0 obj) (b_0 obj) (float_of v)).

(** ** Classes and their method resolution order *)

Inductive class : Set :=
| ConcentrationResampling
| HDPHMMTransitions
| HDPHMMTransitionsConcResampling
| LTRHDPHMMTransitions
| HDPHSMMTransitions
| HDPHSMMTransitionsConcResampling
| StickyHDPHMMTransitions
| StickyHDPHMMTransitionsConcResampling
| StickyLTRHDPHMMTransitions.

#[global] Instance class_eq_dec : EqDecision class.
Proof. solve_decision. Defined.

(** The linearisation Python computes from the class statements. *)
Definition mro (c : class) : list class :=
  match c with
  | ConcentrationResampling => [ConcentrationResampling]
  | HDPHMMTransitions => [HDPHMMTransitions]
  | HDPHMMTransitionsConcResampling =>
      [HDPHMMTransitionsConcResampling; HDPHMMTransitions;
       ConcentrationResampling]
  | LTRHDPHMMTransitions => [LTRHDPHMMTransitions; HDPHMMTransitions]
  | HDPHSMMTransitions => [HDPHSMMTransitions; HDPHMMTransitions]
  | HDPHSMMTransitionsConcResampling =>
      [HDPHSMMTransitionsConcResampling; HDPHSMMTransitions;
       HDPHMMTransitions; ConcentrationResampling]
  | StickyHDPHMMTransitions => [StickyHDPHMMTransitions; HDPHMMTransitions]
  | StickyHDPHMMTransitionsConcResampling =>
      [StickyHDPHMMTransitionsConcResampling; StickyHDPHMMTransitions;
       HDPHMMTransitions; ConcentrationResampling]
  | StickyLTRHDPHMMTransitions =>
      [StickyLTRHDPHMMTransitions; LTRHDPHMMTransitions;
       StickyHDPHMMTransitions; HDPHMMTransitions]
  end.

(** ** [_count_transitions] *)

(** [trans_counts[i, j] += 1] *)
Definition count_pair (trans_counts : imatrix) (ij : Z * Z) : M imatrix :=
  r ← subscript (norm_index (length trans_counts) (fst ij));
  row ← subscript (trans_counts !! r);
  c ← subscript (norm_index (length row) (snd ij));
  x ← subscript (row !! c);
  mret (<[r := <[c := wrap32 (x + 1)]> row]> trans_counts).

(** [(states[idx], states[idx+1]) for idx in xrange(len(states)-1)] *)
Definition adjacent (states : list Z) : list (Z * Z) :=
  zip states (drop 1 states).

Definition count_states (trans_counts : imatrix) (states : list Z) : M imatrix :=
  if (2 <=? length states)%nat
  then foldM count_pair (adjacent states) trans_counts
  else mret trans_counts.

(** [trans_counts[i, :i] = x] *)
Definition store_prefix (i : nat) (x : ivec) (trans_counts : imatrix) : M imatrix :=
  row ← subscript (trans_counts !! i);
  same_shape (length x =? length (take i row))%nat;;
  mret (<[i := (wrap32 <$> x) ++ drop i row]> trans_counts).

(** One turn of the loop of [LTRHDPHMMTransitions._count_transitions]. *)
Definition ltr_augment_row (full : matrix) (totalfrom : ivec) (totalweight : vec)
    (trans_counts : imatrix) (i : nat) : M imatrix :=
  w_i ← subscript (totalweight !! i);
  f_i ← subscript (totalfrom !! i);
  g ← sample (geometric w_i f_i);
  let tot := zsum (ints_of g (Z.to_nat f_i)) in
  row ← subscript (full !! i);
  pvals ← divide (take i row) (qsum (take i row));
  x ← sample (multinomial tot pvals);
  trans_counts' ← store_prefix i (ints_of x (length pvals)) trans_counts;
  (* the array is the one [self.trans_counts] refers to *)
  assign (set_trans_counts trans_counts');;
  mret trans_counts'.

Fixpoint _count_transitions (chain : list class) (states_list : list (list Z))
    : M imatrix :=
  match chain with
  | [] => raise AttributeError
  | HDPHMMTransitions :: _ =>
      L ← attr state_dim;
      trans_counts ← foldM count_states states_list (zeros L L);
      assign (set_trans_counts trans_counts);;
      mret trans_counts
  | LTRHDPHMMTransitions :: super =>
      trans_counts ← _count_transitions super states_list;
      (if all_zero (tril_strict 0%Z trans_counts) then mret tt
       else raise AssertionError);;
      let totalfrom := isum_axis1 trans_counts in
      full ← attr_opt fullA;
      let totalweight := sum_axis1 (triu 0 full) in
      foldM (ltr_augment_row full totalfrom totalweight)
            (seq 0 (length trans_counts)) trans_counts
  | _ :: super => _count_transitions super states_list
  end.

(** ** [HDPHSMMTransitions._augment_data] *)

(** [np.random.geometric(1-pi_ii,size=n).sum() if n > 0 else 0] *)
Definition self_transition (pi_n : Q * Z) : M Z :=
  let '(pi_ii, n) := pi_n in
  if (0 <? n)%Z
  then g ← sample (geometric (1 - pi_ii) n);
       mret (zsum (ints_of g (Z.to_nat n)))
  else mret 0%Z.

Fixpoint comprehension {T U} (f : T -> M U) (l : list T) : M (list U) :=
  match l with
  | [] => mret []
  | x :: l' => y ← f x; ys ← comprehension f l'; mret (y :: ys)
  end.

(** [trans_counts += np.diag(d)] on an [int32] array. *)
Definition add_diag_int32 (d : ivec) (trans_counts : imatrix) : imatrix :=
  imap (fun i row =>
    imap (fun j x => wrap32 (x + (if (i =? j)%nat then default 0%Z (d !! i) else 0)))
         row) trans_counts.

Definition square {T} (n : nat) (a : list (list T)) : bool :=
  (length a =? n)%nat && forallb (fun row => (length row =? n)%nat) a.

Definition _augment_data (trans_counts : imatrix) : M imatrix :=
  trans_counts' ←
    (if (0 <? isum_all trans_counts)%Z
     then
       let froms := isum_axis1 trans_counts in
       full ← attr_opt fullA;
       self_transitions ← comprehension self_transition (zip (diagonal full) froms);
       same_shape (square (length self_transitions) trans_counts);;
       mret (add_diag_int32 self_transitions trans_counts)
     else mret trans_counts);
  assign (set_trans_counts trans_counts');;
  mret trans_counts'.

(** ** [HDPHMMTransitions._get_m] *)

Definition Qltb (x y : Q) : bool := negb (Qle_bool y x).

(** [(u < p).sum()] *)
Definition successes (u p : vec) : Z :=
  zsum ((fun xt : Q * Q => if Qltb (fst xt) (snd xt) then 1%Z else 0%Z) <$> zip u p).

(** [np.arange(val)] as floats. *)
Definition arange (n : nat) : vec := Q_of_nat <$> seq 0 n.

(** The body of the loop over [np.ndenumerate(trans_counts)]. *)
Definition get_m_cell (mm : imatrix) (cell : nat * nat * Z) : M imatrix :=
  let '(rowidx, colidx, val) := cell in
  u ← sample (rand val);
  a ← attr alpha;
  b ← attr_opt beta;
  b_j ← subscript (b !! colidx);
  let n := Z.to_nat val in
  p ← divide_cells (replicate n (a * b_j)) ((fun k => k + a * b_j) <$> arange n);
  row ← subscript (mm !! rowidx);
  _ ← subscript (row !! colidx);
  mret (<[rowidx := <[colidx := wrap32 (successes (floats_of u n) p)]> row]> mm).

Definition _get_m (trans_counts : imatrix) : M imatrix :=
  L ← attr state_dim;
  mm ← (if negb (all_zero trans_counts)
        then foldM get_m_cell (ndenumerate trans_counts) (zeros L L)
        else mret (zeros L L));
  assign (set_m mm);;
  mret mm.

(** ** [_resample_beta] *)

(** [self.beta[indices]] *)
Definition take_indices {T} (v : list T) (indices : list nat) : option (list T) :=
  mapM (fun i => v !! i) indices.

Fixpoint _resample_beta (chain : list class) (mm : imatrix) : M unit :=
  match chain with
  | [] => raise AttributeError
  | HDPHMMTransitions :: _ =>
      g ← attr gamma;
      L ← attr state_dim;
      q ← (if (L =? 0)%nat then raise ZeroDivisionError
           else mret (g / Q_of_nat L));
      let param := (fun s => q + inject_Z s + (1 # 100)) <$> isum_axis0 mm in
      v ← sample (dirichlet param);
      assign (set_beta (floats_of v (length param)))
  | StickyHDPHMMTransitions :: super =>
      (* the counts in newm are the ones we keep for the transition matrix;
         (m - newm) are the counts for kappa, i.e. the 'override' counts *)
      let newm := mm in
      (if (0 <? isum_all mm)%Z
       then
         let indices := nonzero (flat_stride (S (length mm)) newm) in
         n ← subscript (take_indices (flat_stride (S (length mm)) mm) indices);
         b ← attr_opt beta;
         b_i ← subscript (take_indices b indices);
         a ← attr alpha;
         k ← attr kappa;
         p ← divide_cells ((fun x => x * a) <$> b_i) ((fun x => x * a + k) <$> b_i);
         v ← sample (binomial n p);
         (* [newm.flat[::L+1]] on the left of the assignment is a subscript
            of the flat iterator, which numpy answers with a new array:
            the drawn counts [wrap32 <$> ints_of v (length n)] are stored in
            that temporary and [newm] keeps the cells copied from [m] *)
         mret tt
       else mret tt);;
      assign (set_newm newm);;
      _resample_beta super newm
  | _ :: super => _resample_beta super mm
  end.

(** ** [_resample_A] *)

(** [data + np.diag(kappa * np.ones(data.shape[0]))] *)
Definition add_diag (k : Q) (data : matrix) : matrix :=
  imap (fun i row => imap (fun j x => x + (if (i =? j)%nat then k * 1 else 0)) row) data.

(** [self.A /= self.A.sum(1)[:,na]] and its out-of-place siblings.  When the
    in-place form raises, numpy has already written NaN into the cells that
    divided 0 by 0; the model, which has no NaN, leaves the array as it was
    before the division. *)
Definition normalize_rows (a : matrix) : M matrix := divide_rows a (sum_axis1 a).

Fixpoint _resample_A (chain : list class) (data : matrix) : M unit :=
  match chain with
  | [] => raise AttributeError
  | HDPHMMTransitions :: _ =>
      a ← attr alpha;
      b ← attr_opt beta;
      let ab := (fun x => a * x) <$> b in
      same_shape (forallb (fun row : vec => (length row =? length ab)%nat) data);;
      let shape := (fun row => zip_with (fun p x => p + x + (1 # 100)) ab row) <$> data in
      v ← sample (gamma_rvs shape);
      assign (set_A (matrix_of v shape));;
      a0 ← attr_opt A;
      a1 ← normalize_rows a0;
      assign (set_A a1)
  | LTRHDPHMMTransitions :: super =>
      _resample_A super data;;
      a0 ← attr_opt A;
      assign (set_fullA a0);;
      a1 ← normalize_rows (triu 0 a0);
      assign (set_A a1)
  | HDPHSMMTransitions :: super =>
      _resample_A super data;;
      a0 ← attr_opt A;
      assign (set_fullA a0);;
      assign (set_A (zero_flat_stride a0));;
      a1 ← attr_opt A;
      a2 ← normalize_rows a1;
      assign (set_A a2)
  | StickyHDPHMMTransitions :: super =>
      (* equivalent to adding kappa to the appropriate part of beta for each row *)
      k ← attr kappa;
      same_shape (square (length data) data);;
      _resample_A super (add_diag k data)
  | StickyLTRHDPHMMTransitions :: super =>
      k ← attr kappa;
      same_shape (square (length data) data);;
      _resample_A super (add_diag k data)
  | _ :: super => _resample_A super data
  end.

(** ** [resample] *)

(** [a - b] on [int32] arrays. *)
Definition sub_int32 (a b : imatrix) : imatrix :=
  zip_with (zip_with (fun x y => wrap32 (x - y))) a b.

Definition same_shape2 {T U} (a : list (list T)) (b : list (list U)) : bool :=
  (length a =? length b)%nat &&
  forallb (fun rs : list T * list U => (length (fst rs) =? length (snd rs))%nat) (zip a b).

Definition ConcentrationResampling_resample : M unit :=
  (* multiply by state_dim because the trans objects divide by it (since
     their parameters correspond to the DP parameters, and so they convert
     into weak limit scaling) *)
  ao ← attr alpha_obj;
  tc ← attr_opt trans_counts;
  b ← attr_opt beta;
  ao' ← DirGamma_resample_method ao tc (Some b) 10;
  assign (set_alpha_obj ao');;
  ao ← attr alpha_obj;
  L ← attr state_dim;
  assign (set_alpha (concentration ao * Q_of_nat L));;
  go ← attr gamma_obj;
  mm ← attr_opt m;
  go' ← DirGamma_resample_method go mm None 10;
  assign (set_gamma_obj go');;
  go ← attr gamma_obj;
  L ← attr state_dim;
  assign (set_gamma (concentration go * Q_of_nat L)).

(** [map(operator.itemgetter(0), map(rle, stateseqs))] *)
Definition states_noreps (stateseqs : list (list Z)) : list (list Z) :=
  (fun s => fst (rle s)) <$> stateseqs.

(** The bodies of [HDPHMMTransitions.resample] and
    [HDPHSMMTransitions.resample].  [c] is the class of [self]: the methods a
    body calls on [self] start at the head of [mro c]. *)
Definition HDPHMMTransitions_resample (c : class) (states_list : list (list Z))
    : M unit :=
  trans_counts ← _count_transitions (mro c) states_list;
  mm ← _get_m trans_counts;
  _resample_beta (mro c) mm;;
  _resample_A (mro c) (to_float trans_counts).

Definition HDPHSMMTransitions_resample (c : class) (stateseqs : list (list Z))
    : M unit :=
  trans_counts ← _count_transitions (mro c) (states_noreps stateseqs);
  augmented_data ← _augment_data trans_counts;
  mm ← _get_m augmented_data;
  _resample_beta (mro c) mm;;
  _resample_A (mro c) (to_float augmented_data).

Fixpoint resample (c : class) (chain : list class) (states_list : list (list Z))
    : M unit :=
  match chain with
  | [] => raise AttributeError
  | ConcentrationResampling :: _ =>
      (* not reached from the classes of the module: [HDPHMMTransitions]
         comes first in every order and does not call [super] *)
      ConcentrationResampling_resample
  | HDPHMMTransitions :: _ => HDPHMMTransitions_resample c states_list
  | HDPHSMMTransitions :: _ => HDPHSMMTransitions_resample c states_list
  | HDPHMMTransitionsConcResampling :: super
  | HDPHSMMTransitionsConcResampling :: super =>
      resample c super states_list;;
      ConcentrationResampling_resample
  | StickyHDPHMMTransitionsConcResampling :: super =>
      resample c super states_list;;
      ConcentrationResampling_resample;;
      ra ← attr rho_a_0;
      mm ← attr_opt m;
      nm ← attr_opt newm;
      same_shape (same_shape2 mm nm);;
      rb ← attr rho_b_0;
      nm' ← attr_opt newm;
      v ← sample (beta_rv (ra + inject_Z (isum_all (sub_int32 mm nm)))
                          (rb + inject_Z (isum_all nm')));
      assign (set_rho (float_of v));;
      r ← attr rho;
      ao ← attr alpha_obj;
      L ← attr state_dim;
      assign (set_kappa (r * concentration ao * Q_of_nat L))
  | _ :: super => resample c super states_list
  end.

(** ** Constructors

    [HDPHMMTransitions.__init__] is also the constructor of the left-to-right
    class; [StickyHDPHMMTransitions.__init__] is the one of the sticky and the
    sticky left-to-right classes.  [c] is the class being instantiated. *)
Definition HDPHMMTransitions_init (c : class) (state_dim0 : nat) (alpha0 gamma0 : Q)
    (beta0 : option vec) (A0 : option matrix) : M unit :=
  assign (set_state_dim state_dim0);;
  assign (set_alpha alpha0);;
  assign (set_gamma gamma0);;
  match A0, beta0 with
  | Some a, Some b => assign (set_A a);; assign (set_beta b)
  | _, _ => resample c (mro c) []
  end.

Definition StickyHDPHMMTransitions_init (c : class) (kappa0 : Q) (state_dim0 : nat)
    (alpha0 gamma0 : Q) (beta0 : option vec) (A0 : option matrix) : M unit :=
  assign (set_kappa kappa0);;
  HDPHMMTransitions_init c state_dim0 alpha0 gamma0 beta0 A0.

Definition HDPHSMMTransitions_init (c : class) (state_dim0 : nat) (alpha0 gamma0 : Q)
    (beta0 : option vec) (A0 fullA0 : option matrix) : M unit :=
  assign (set_alpha alpha0);;
  assign (set_gamma gamma0);;
  assign (set_state_dim state_dim0);;
  match A0, fullA0, beta0 with
  | Some a, Some f, Some b =>
      assign (set_A a);; assign (set_beta b);; assign (set_fullA f)
  | _, _, _ => resample c (mro c) []
  end.

(** An object before its constructor has run. *)
Definition blank : object :=
  mkObject 0 0 0 0 0 0 0 (mkDirGamma 0 0 0 0) (mkDirGamma 0 0 0 0)
           None None None None None None.

(** Running a method on an object, from an empty list of draws. *)
Definition run {T} (c : M T) (om : oracle) (o : object) : outcome T :=
  c om (mkWorld o []).

(** ** Reading the arrays cell by cell *)

(** The sum of column [j], read cell by cell. *)
Definition column_sum (a : imatrix) (j : nat) : Z :=
  zsum ((fun row : ivec => default 0%Z (row !! j)) <$> a).

(** Cell [(i, j)] of an integer array, 0 outside of it. *)
Definition icell (a : imatrix) (i j : nat) : Z :=
  default 0%Z (a !! i ≫= fun row : ivec => row !! j).

(** Cell [(i, j)] of a float array, 0 outside of it. *)
Definition qcell (a : matrix) (i j : nat) : Q :=
  default 0 (a !! i ≫= fun row : vec => row !! j).

(** An [n] by [n] array. *)
Definition is_square {T} (n : nat) (a : list (list T)) : Prop :=
  length a = n /\ Forall (fun row => length row = n) a.

(** The adjacent pairs of all the sequences, in the order they are counted. *)
Definition all_pairs (states_list : list (list Z)) : list (Z * Z) :=
  concat (adjacent <$> states_list).

(** How many of the pairs go from state [i] to state [j]. *)
Definition occurrences (i j : nat) (pairs : list (Z * Z)) : Z :=
  Z.of_nat (length (filter (fun p => p = (Z.of_nat i, Z.of_nat j)) pairs)).

(** State labels of a model with [L] states. *)
Definition label (L : nat) (s : Z) : Prop := (0 <= s < Z.of_nat L)%Z.

(** A transition to a lower state. *)
Definition backward (p : Z * Z) : Prop := (snd p < fst p)%Z.

(** The two left-to-right classes. *)
Definition ltr_class (c : class) : Prop :=
  c = LTRHDPHMMTransitions \/ c = StickyLTRHDPHMMTransitions.

(** The world an outcome ends in. *)
Definition world_of {T} (r : outcome T) : world :=
  match r with
  | Ok _ w => w
  | Raise _ w => w
  end.

(** ** Sample objects and a sample random source *)

(** A random source with one fixed answer per kind of request: the uniform
    point of the simplex for a Dirichlet, 1 for a Gamma or geometric variate,
    1/2 for a uniform or Beta variate, the whole total in the first cell of a
    multinomial split, no success in a binomial, concentration 1. *)
Definition steady : oracle := fun _ d =>
  match d with
  | dirichlet a =>
      Value (mkVariate (fun _ _ => 1 / Q_of_nat (length a)) (fun _ => 0%Z))
  | gamma_rvs _ => Value (mkVariate (fun _ _ => 1) (fun _ => 0%Z))
  | rand _ => Value (mkVariate (fun _ _ => 1 # 2) (fun _ => 0%Z))
  | geometric _ _ => Value (mkVariate (fun _ _ => 0) (fun _ => 1%Z))
  | multinomial n _ =>
      Value (mkVariate (fun _ _ => 0) (fun k => if (k =? 0)%nat then n else 0%Z))
  | binomial _ _ => Value (mkVariate (fun _ _ => 0) (fun _ => 0%Z))
  | beta_rv _ _ => Value (mkVariate (fun _ _ => 1 # 2) (fun _ => 0%Z))
  | DirGamma_resample _ _ _ _ => Value (mkVariate (fun _ _ => 1) (fun _ => 0%Z))
  end.

(** An object of [L] states as a constructor leaves it when it is given
    alpha = gamma = kappa = 1 (rho = 1/2 with prior (1, 1), concentrations 1)
    and no arrays. *)
Definition bare (L : nat) : object :=
  mkObject L 1 1 1 (1 # 2) 1 1 (mkDirGamma L 1 1 1) (mkDirGamma L 1 1 1)
           None None None None None None.

(** No two consecutive equal labels. *)
Definition no_repeats (states : list Z) : Prop :=
  Forall (fun p : Z * Z => fst p <> snd p) (adjacent states).

(** The two semi-Markov classes. *)
Definition hsmm_class (c : class) : Prop :=
  c = HDPHSMMTransitions \/ c = HDPHSMMTransitionsConcResampling.

(** [HDPHSMMTransitions.resample] as it would read if it counted the
    transitions of the caller's sequences exactly as given, without a
    run-length collapse of its own; for comparison with [resample]. *)
Definition HSMM_resample_as_given (c : class) (stateseqs : list (list Z)) : M unit :=
  trans_counts ← _count_transitions (mro c) stateseqs;
  augmented_data ← _augment_data trans_counts;
  mm ← _get_m augmented_data;
  _resample_beta (mro c) mm;;
  _resample_A (mro c) (to_float augmented_data).

(** A semi-Markov object of two states as its constructor leaves it. *)
Definition hsmm2 : object := Eval vm_compute in
  self (world_of (run (HDPHSMMTransitions_init HDPHSMMTransitions 2 1 1 None None None)
                      steady blank)).

(** The sum of row [i]. *)
Definition row_sum (a : imatrix) (i : nat) : Z := zsum (default [] (a !! i)).

(** An [L] by [L] array of counts. *)
Definition counts_array (L : nat) (a : imatrix) : Prop :=
  is_square L a /\ Forall (Forall (fun x => 0 <= x < 2 ^ 31)%Z) a.



(** The forward part of row [i] of [fullA], diagonal included, summed. *)
Definition upper_sum (full : matrix) (i : nat) : Q :=
  qsum (drop i (default [] (full !! i))).

(** The backward part of row [i] of [fullA], summed. *)
Definition lower_sum (full : matrix) (i : nat) : Q :=
  qsum (take i (default [] (full !! i))).

(** The backward part of row [i] of [fullA] divided by its sum. *)
Definition lower_share (full : matrix) (i : nat) : vec :=
  (fun y => y / lower_sum full i) <$> take i (default [] (full !! i)).

(** What the counting step of the left-to-right classes does for row [i],
    [tc0] being the plain counts, [tc] the counts it returns, [dr] the draws
    requested and [start] the number of draws made before the step: draw
    [start + 2i] is geometric, with as success probability the forward mass
    of row [i] of [fullA] and as size the row sum of the plain counts; draw
    [start + 2i + 1] is a multinomial split of the summed variates over the
    backward part of the row of [fullA], normalised; the split is stored in
    the columns before [i] and the other columns keep their plain counts. *)
Definition ltr_row_augmented (om : oracle) (full : matrix) (tc0 tc : imatrix)
    (dr : list draw) (start i : nat) : Prop :=
  exists p g x row0,
    tc0 !! i = Some row0 /\
    p == upper_sum full i /\
    dr !! (start + 2 * i)%nat = Some (geometric p (row_sum tc0 i)) /\
    om (start + 2 * i)%nat (geometric p (row_sum tc0 i)) = Value g /\
    dr !! (start + 2 * i + 1)%nat =
      Some (multinomial (zsum (ints_of g (Z.to_nat (row_sum tc0 i))))
                        (lower_share full i)) /\
    om (start + 2 * i + 1)%nat
       (multinomial (zsum (ints_of g (Z.to_nat (row_sum tc0 i))))
                    (lower_share full i)) = Value x /\
    tc !! i = Some ((wrap32 <$> ints_of x i) ++ drop i row0).

(** A random source that answers every request. *)
Definition answers_all (om : oracle) : Prop :=
  forall k d, exists v, om k d = Value v.

(** A left-to-right object of three states between two sweeps. *)
Definition ltr3 : object :=
  set_fullA [[1 # 3; 1 # 3; 1 # 3]; [1 # 4; 1 # 4; 1 # 2]; [1 # 3; 1 # 3; 1 # 3]]
    (set_A [[1 # 3; 1 # 3; 1 # 3]; [0; 1 # 3; 2 # 3]; [0; 0; 1]]
       (set_beta [1 # 3; 1 # 3; 1 # 3] (bare 3))).

(** Entry [j] of a float vector, 0 outside of it. *)
Definition vcell (v : vec) (j : nat) : Q := default 0 (v !! j).

(** A computation that asks nothing of the random source. *)
Definition quiet {T} (c : M T) : Prop :=
  forall om w, drawn (world_of (c om w)) = drawn w.

(** A sticky left-to-right object of two states between two sweeps. *)
Definition sticky_ltr2 : object :=
  set_fullA [[1 # 2; 1 # 2]; [1 # 2; 1 # 2]]
    (set_A [[1 # 2; 1 # 2]; [0; 1]] (set_beta [1 # 2; 1 # 2] (bare 2))).

(** The number of successes among [n] Bernoulli trials, trial [k] having
    success probability [p k] and being decided by the uniform variate [u k]:
    it succeeds when [u k < p k]. *)
Definition bernoulli_successes (u p : nat -> Q) (n : nat) : Z :=
  Z.of_nat (length (filter (fun k => Qltb (u k) (p k) = true) (seq 0 n))).

(** The sticky object with concentration resampling, of two states, after a
    first resample on no data. *)
Definition sticky_conc2 : object := Eval vm_compute in
  self (world_of
    (run (resample StickyHDPHMMTransitionsConcResampling
                   (mro StickyHDPHMMTransitionsConcResampling) [])
         steady (bare 2))).

(** What [_get_m] does for cell [(i, j)] when some count is nonzero, [tc]
    being the counts, [mm] the table counts, [dr] the draws requested and
    [start] the number of draws made before: draw [start + i*L + j] asks for
    as many uniform variates as the cell counts, and the table count of the
    cell is the number of successes among the trials they decide, trial [k]
    having success probability [a*b_j / (k + a*b_j)]. *)
Definition table_count_cell (om : oracle) (a : Q) (b : vec) (tc mm : imatrix)
    (dr : list draw) (start L i j : nat) : Prop :=
  exists u,
    dr !! (start + i * L + j)%nat = Some (rand (icell tc i j)) /\
    om (start + i * L + j)%nat (rand (icell tc i j)) = Value u /\
    icell mm i j =
      bernoulli_successes (floats u 0%nat)
        (fun k => a * vcell b j / (Q_of_nat k + a * vcell b j))
        (Z.to_nat (icell tc i j)).

(** A computation that leaves attribute [g] of the object alone. *)
Definition preserves {T U} (g : object -> T) (c : M U) : Prop :=
  forall om w, g (self (world_of (c om w))) = g (self w).

(** A point of the probability simplex of dimension [L]. *)
Definition simplex (L : nat) (b : vec) : Prop :=
  length b = L /\ Forall (fun x => 0 <= x) b /\ qsum b == 1.

(** An [L] by [L] row-stochastic matrix. *)
Definition stochastic (L : nat) (a : matrix) : Prop :=
  is_square L a /\
  Forall (fun row => Forall (fun x => 0 <= x) row /\ qsum row == 1) a.

(** A random source whose Dirichlet variates lie on the simplex and whose
    Gamma variates are positive. *)
Definition fair (om : oracle) : Prop :=
  (forall k a v, om k (dirichlet a) = Value v ->
     (forall j, 0 <= floats v 0%nat j) /\
     (a <> [] -> qsum (floats_of v (length a)) == 1)) /\
  (forall k sh v, om k (gamma_rvs sh) = Value v -> forall i j, 0 < floats v i j).

(** The classes that can be instantiated. *)
Definition model_class (c : class) : Prop := c <> ConcentrationResampling.

(** The classes that keep a [fullA]. *)
Definition keeps_fullA (c : class) : Prop := hsmm_class c \/ ltr_class c.

(** The world after a second resample of [sticky_conc2], on one sequence. *)
Definition sticky_conc2_resampled : world := Eval vm_compute in
  world_of
    (run (resample StickyHDPHMMTransitionsConcResampling
                   (mro StickyHDPHMMTransitionsConcResampling) [[0; 1; 1; 0]%Z])
         steady sticky_conc2).

(** The world after a resample of [hsmm2] on one sequence. *)
Definition hsmm2_resampled : world := Eval vm_compute in
  world_of
    (run (resample HDPHSMMTransitions (mro HDPHSMMTransitions) [[0; 0; 1]%Z])
         steady hsmm2).

(** A pair of state labels of a model with [L] states. *)
Definition labels2 (L : nat) (p : Z * Z) : Prop := label L (fst p) /\ label L (snd p).

(** The properties of the object after a completed sweep. *)
Definition swept (c : class) (L : nat) (o : object) : Prop :=
  state_dim o = L /\
  (exists b, beta o = Some b /\ simplex L b) /\
  (exists a, A o = Some a /\ stochastic L a /\
     (hsmm_class c -> forall i, (i < L)%nat -> qcell a i i == 0) /\
     (ltr_class c -> forall i j, (j < i)%nat -> qcell a i j == 0)) /\
  (keeps_fullA c -> exists f, fullA o = Some f /\ stochastic L f).

(** An index numpy accepts for an axis of length [L]. *)
Definition index_ok (L : nat) (s : Z) : Prop := (- Z.of_nat L <= s < Z.of_nat L)%Z.

#[global] Instance index_ok_dec L s : Decision (index_ok L s).
Proof. unfold index_ok. apply _. Defined.

(** A pair of indices numpy accepts for an [L] by [L] array. *)
Definition indices_ok (L : nat) (p : Z * Z) : Prop :=
  index_ok L (fst p) /\ index_ok L (snd p).

#[global] Instance indices_ok_dec L p : Decision (indices_ok L p).
Proof. unfold indices_ok. apply _. Defined.

(** The position an accepted index stands for: itself from 0 on, counted
    from the end below 0. *)
Definition wrap_label (L : nat) (s : Z) : Z := (s mod Z.of_nat L)%Z.

(** A pair of two different labels. *)
Definition change_of_state (p : Z * Z) : Prop := fst p <> snd p.

#[global] Instance change_of_state_dec p : Decision (change_of_state p).
Proof. unfold change_of_state. apply _. Defined.

(** The three sticky classes. *)
Definition sticky_class (c : class) : Prop :=
  c = StickyHDPHMMTransitions \/ c = StickyHDPHMMTransitionsConcResampling \/
  c = StickyLTRHDPHMMTransitions.

(** [gamma / L + mm.sum(0) + 1e-2] *)
Definition beta_parameter (g : Q) (L : nat) (mm : imatrix) : vec :=
  (fun s => g / Q_of_nat L + inject_Z s + (1 # 100)) <$> isum_axis0 mm.

(** A random source that answers the requests whose parameters are in the
    domain of their distribution: a nonnegative number of uniform variates,
    a Dirichlet with positive parameters, Gamma variates of positive
    shapes. *)
Definition answers_valid (om : oracle) : Prop :=
  (forall k n, (0 <= n)%Z -> exists v, om k (rand n) = Value v) /\
  (forall k a, Forall (fun x => 0 < x) a -> exists v, om k (dirichlet a) = Value v) /\
  (forall k sh, Forall (Forall (fun x => 0 < x)) sh ->
     exists v, om k (gamma_rvs sh) = Value v).

(** [alpha * beta + data + 1e-2], the shapes of the Gamma variates. *)
Definition gamma_shape (a : Q) (b : vec) (data : matrix) : matrix :=
  (fun row => zip_with (fun p x => p + x + (1 # 100)) ((fun x => a * x) <$> b) row)
    <$> data.

(** Every row divided by its sum. *)
Definition rows_normalized (a : matrix) : matrix :=
  (fun row => (fun y => y / qsum row) <$> row) <$> a.

(** A base-class object of two states between two sweeps. *)
Definition hmm2 : object := set_beta [1 # 2; 1 # 2] (bare 2).

(** The world after an A step of [ltr3] on counts that are all 1. *)
Definition ltr3_A_resampled : world := Eval vm_compute in
  world_of (_resample_A (mro LTRHDPHMMTransitions)
              [[1; 1; 1]; [1; 1; 1]; [1; 1; 1]] steady (mkWorld ltr3 [])).


(** The sticky classes whose A step is the sticky one followed by the base
    one. *)
Definition sticky_hmm_class (c : class) : Prop :=
  c = StickyHDPHMMTransitions \/ c = StickyHDPHMMTransitionsConcResampling.

(** The classes without concentration resampling. *)
Definition plain_class (c : class) : Prop :=
  c = HDPHMMTransitions \/ c = LTRHDPHMMTransitions \/ c = HDPHSMMTransitions \/
  c = StickyHDPHMMTransitions \/ c = StickyLTRHDPHMMTransitions.

(** The two classes that add concentration resampling to a sweep and
    nothing else. *)
Definition conc_class (c : class) : Prop :=
  c = HDPHMMTransitionsConcResampling \/ c = HDPHSMMTransitionsConcResampling.

(** The world after a resample of [hmm2], as an object of the HMM class with
    concentration resampling, on one sequence. *)
Definition hmm_conc2_resampled : world := Eval vm_compute in
  world_of
    (run (resample HDPHMMTransitionsConcResampling
                   (mro HDPHMMTransitionsConcResampling) [[0; 1; 1; 0]%Z])
         steady hmm2).

(** A random source whose uniform variates are below 1. *)
Definition uniform_below_one (om : oracle) : Prop :=
  forall k n v t, om k (rand n) = Value v -> floats v 0%nat t < 1.

(** The adjacent pairs with every label replaced by the position it stands
    for as an index. *)
Definition wrapped_pairs (L : nat) (states_list : list (list Z)) : list (Z * Z) :=
  prod_map (wrap_label L) (wrap_label L) <$> all_pairs states_list.



(** * Properties *)

(** ** Running the monad *)

Lemma bind_run {T U} (c : M T) (f : T -> M U) om w :
  (c ≫= f) om w =
  match c om w with
  | Ok x w' => f x om w'
  | Raise e w' => Raise e w'
  end.
Proof. reflexivity. Qed.

Lemma bind_ok {T U} (c : M T) (f : T -> M U) om w x w' :
  c om w = Ok x w' -> (c ≫= f) om w = f x om w'.
Proof. intros H. rewrite bind_run, H. reflexivity. Qed.

Lemma bind_raise {T U} (c : M T) (f : T -> M U) om w e w' :
  c om w = Raise e w' -> (c ≫= f) om w = Raise e w'.
Proof. intros H. rewrite bind_run, H. reflexivity. Qed.

Lemma bind_inv {T U} (c : M T) (f : T -> M U) om w y w2 :
  (c ≫= f) om w = Ok y w2 ->
  exists x w1, c om w = Ok x w1 /\ f x om w1 = Ok y w2.
Proof.
  rewrite bind_run. destruct (c om w) as [x w1|e w1]; [eauto|discriminate].
Qed.

Lemma ret_run {T} (x : T) om w : (mret x : M T) om w = Ok x w.
Proof. reflexivity. Qed.

Lemma attr_run {T} (f : object -> T) om w : attr f om w = Ok (f (self w)) w.
Proof. reflexivity. Qed.

Lemma assign_run upd om w :
  assign upd om w = Ok tt (mkWorld (upd (self w)) (drawn w)).
Proof. reflexivity. Qed.

Lemma attr_opt_some {T} (f : object -> option T) om w x :
  f (self w) = Some x -> attr_opt f om w = Ok x w.
Proof. unfold attr_opt. intros ->. reflexivity. Qed.

Lemma attr_opt_none {T} (f : object -> option T) om w :
  f (self w) = None -> attr_opt f om w = Raise AttributeError w.
Proof. unfold attr_opt. intros ->. reflexivity. Qed.

Lemma subscript_some {T} (o : option T) x om w :
  o = Some x -> subscript o om w = Ok x w.
Proof. intros ->. reflexivity. Qed.

Lemma bind_ret {T U} (x : T) (f : T -> M U) om w : (mret x ≫= f) om w = f x om w.
Proof. reflexivity. Qed.

Lemma bind_attr {T U} (g : object -> T) (f : T -> M U) om w :
  (attr g ≫= f) om w = f (g (self w)) om w.
Proof. reflexivity. Qed.

Lemma bind_assign {U} upd (f : unit -> M U) om w :
  (assign upd ≫= f) om w = f tt om (mkWorld (upd (self w)) (drawn w)).
Proof. reflexivity. Qed.

Lemma bind_attr_opt {T U} (g : object -> option T) (f : T -> M U) om w x :
  g (self w) = Some x -> (attr_opt g ≫= f) om w = f x om w.
Proof. intros H. rewrite bind_run, (attr_opt_some _ _ _ x H). reflexivity. Qed.

Lemma bind_subscript {T U} (o : option T) (f : T -> M U) om w x :
  o = Some x -> (subscript o ≫= f) om w = f x om w.
Proof. intros ->. reflexivity. Qed.

Lemma bind_same_shape {U} (f : unit -> M U) om w b :
  b = true -> (same_shape b ≫= f) om w = f tt om w.
Proof. intros ->. reflexivity. Qed.

Lemma bind_assoc {T U V} (c : M T) (f : T -> M U) (g : U -> M V) om w :
  ((c ≫= f) ≫= g) om w = (c ≫= fun x => f x ≫= g) om w.
Proof. rewrite !bind_run. destruct (c om w); reflexivity. Qed.

Ltac mstep :=
  first [ rewrite bind_ret | rewrite bind_attr | rewrite bind_assign
        | rewrite ret_run | rewrite attr_run | rewrite assign_run ].
Ltac msteps := repeat mstep.

Lemma sample_value d om w v :
  om (length (drawn w)) d = Value v ->
  sample d om w = Ok v (mkWorld (self w) (drawn w ++ [d])).
Proof. unfold sample. intros ->. reflexivity. Qed.

Lemma sample_fault d om w e :
  om (length (drawn w)) d = Fault e ->
  sample d om w = Raise e (mkWorld (self w) (drawn w ++ [d])).
Proof. unfold sample. intros ->. reflexivity. Qed.

(** ** Sums along the axes *)

Lemma zip_with_add_lookup (r s : ivec) j :
  length r = length s ->
  default 0%Z (zip_with Z.add r s !! j) =
  (default 0%Z (r !! j) + default 0%Z (s !! j))%Z.
Proof.
  revert s j. induction r as [|x r IH]; intros [|y s] j Hlen; simplify_eq/=.
  - reflexivity.
  - destruct j; simpl; [reflexivity|]. apply IH. lia.
Qed.

Lemma foldr_zip_add_length (a : imatrix) (z : ivec) n :
  length z = n -> Forall (fun row => length row = n) a ->
  length (foldr (zip_with Z.add) z a) = n.
Proof.
  intros Hz Ha. induction Ha as [|row a Hrow Ha IH]; simpl; [done|].
  rewrite length_zip_with. lia.
Qed.

Lemma foldr_zip_add_lookup (a : imatrix) n j :
  Forall (fun row => length row = n) a ->
  default 0%Z (foldr (zip_with Z.add) (replicate n 0%Z) a !! j) = column_sum a j.
Proof.
  intros Ha. induction Ha as [|row a Hrow Ha IH]; simpl.
  - unfold column_sum. simpl. destruct (decide (j < n)%nat).
    + rewrite lookup_replicate_2 by done. reflexivity.
    + rewrite lookup_ge_None_2; [reflexivity|]. rewrite length_replicate. lia.
  - rewrite zip_with_add_lookup.
    + rewrite IH. reflexivity.
    + rewrite (foldr_zip_add_length a _ n); [done| |done].
      apply length_replicate.
Qed.

Lemma isum_axis0_length (a : imatrix) n :
  (0 < length a)%nat -> Forall (fun row => length row = n) a ->
  length (isum_axis0 a) = n.
Proof.
  intros Hpos Ha. unfold isum_axis0.
  destruct a as [|row a]; [simpl in Hpos; lia|].
  simpl head. simpl default.
  assert (Hrow : length row = n) by (by inversion Ha).
  rewrite Hrow. apply foldr_zip_add_length; [apply length_replicate|done].
Qed.

Lemma isum_axis0_lookup (a : imatrix) n j :
  (0 < length a)%nat -> Forall (fun row => length row = n) a -> (j < n)%nat ->
  isum_axis0 a !! j = Some (column_sum a j).
Proof.
  intros Hpos Ha Hj.
  assert (Hlen : length (isum_axis0 a) = n) by (by apply isum_axis0_length).
  destruct (isum_axis0 a !! j) as [s|] eqn:E.
  - f_equal. unfold isum_axis0 in E.
    destruct a as [|row a]; [simpl in Hpos; lia|].
    simpl head in E. simpl default in E.
    assert (Hrow : length row = n) by (by inversion Ha).
    rewrite Hrow in E.
    pose proof (foldr_zip_add_lookup (row :: a) n j Ha) as H.
    rewrite E in H. exact H.
  - apply lookup_ge_None_1 in E. lia.
Qed.

(** ** The base beta step *)

(** C8: the base beta step makes one draw, from a Dirichlet whose parameter
    vector has, at every position j < L, the value gamma/L plus the sum of
    column j of the table counts m plus the constant 1e-2; the vector it gets
    back becomes beta. *)
Theorem C8_base_beta_dirichlet_parameter
    (rest : list class) (mm : imatrix) (om : oracle) (w : world) (L : nat) :
  state_dim (self w) = L -> (0 < L)%nat ->
  length mm = L -> Forall (fun row => length row = L) mm ->
  exists param : vec,
    length param = L /\
    (forall j, (j < L)%nat ->
       param !! j =
       Some (gamma (self w) / Q_of_nat L + inject_Z (column_sum mm j) + (1 # 100))) /\
    _resample_beta (HDPHMMTransitions :: rest) mm om w =
      match om (length (drawn w)) (dirichlet param) with
      | Value v =>
          Ok tt (mkWorld (set_beta (floats_of v L) (self w))
                         (drawn w ++ [dirichlet param]))
      | Fault e => Raise e (mkWorld (self w) (drawn w ++ [dirichlet param]))
      end.
Proof.
  intros HL Hpos Hrows Hcols.
  set (q := gamma (self w) / Q_of_nat L).
  exists ((fun s => q + inject_Z s + (1 # 100)) <$> isum_axis0 mm).
  assert (Hlen : length (isum_axis0 mm) = L)
    by (apply isum_axis0_length; [lia|done]).
  split; [by rewrite length_fmap|]. split.
  - intros j Hj. rewrite list_lookup_fmap.
    rewrite (isum_axis0_lookup mm L j); [reflexivity|lia|done|done].
  - simpl. rewrite !bind_run, !attr_run. rewrite bind_run, attr_run, HL.
    destruct (Nat.eqb_spec L 0) as [->|_]; [lia|].
    rewrite bind_run, ret_run. rewrite bind_run. unfold sample.
    fold q. destruct (om _ _); [|reflexivity].
    rewrite assign_run. simpl. rewrite length_fmap, Hlen. reflexivity.
Qed.

(** ** Counting transitions *)

Lemma wrap32_small z : int32 z -> wrap32 z = z.
Proof.
  unfold int32, wrap32. intros H.
  rewrite Z.mod_small by lia. lia.
Qed.

Lemma wrap32_succ z : wrap32 (wrap32 z + 1) = wrap32 (z + 1).
Proof.
  unfold wrap32.
  replace ((z + 2 ^ 31) mod 2 ^ 32 - 2 ^ 31 + 1 + 2 ^ 31)%Z
    with ((z + 2 ^ 31) mod 2 ^ 32 + 1)%Z by lia.
  rewrite Zplus_mod_idemp_l. f_equal. f_equal. lia.
Qed.

Lemma wrap32_int32 z : int32 (wrap32 z).
Proof.
  unfold int32, wrap32.
  pose proof (Z.mod_pos_bound (z + 2 ^ 31) (2 ^ 32)). lia.
Qed.

Lemma is_square_lookup {T} n (a : list (list T)) i :
  is_square n a -> (i < n)%nat -> exists row, a !! i = Some row /\ length row = n.
Proof.
  intros [Hlen Hall] Hi.
  destruct (lookup_lt_is_Some_2 a i) as [row Hrow]; [lia|].
  exists row. split; [done|].
  rewrite Forall_forall in Hall. apply Hall.
  by eapply list_elem_of_lookup_2.
Qed.

Lemma is_square_insert {T} n (a : list (list T)) i row :
  is_square n a -> length row = n -> is_square n (<[i := row]> a).
Proof.
  intros [Hlen Hall] Hrow. split; [by rewrite length_insert|].
  apply Forall_insert; done.
Qed.

Lemma icell_insert n (a : imatrix) i j row v i' j' :
  is_square n a -> (i < n)%nat -> (j < n)%nat -> a !! i = Some row ->
  icell (<[i := <[j := v]> row]> a) i' j' =
  if decide (i' = i /\ j' = j) then v else icell a i' j'.
Proof.
  intros Hsq Hi Hj Hrow. unfold icell.
  destruct (is_square_lookup n a i Hsq Hi) as (row' & Hrow' & Hlen).
  assert (row' = row) by congruence. subst row'.
  destruct Hsq as [Hlena _].
  destruct (decide (i' = i)) as [->|Hne].
  - rewrite list_lookup_insert_eq by lia. simpl.
    destruct (decide (j' = j)) as [->|Hnej].
    + rewrite list_lookup_insert_eq by lia.
      rewrite decide_True by done. reflexivity.
    + rewrite list_lookup_insert_ne by done.
      rewrite decide_False by tauto. rewrite Hrow. reflexivity.
  - rewrite list_lookup_insert_ne by done.
    rewrite decide_False by tauto. reflexivity.
Qed.

Lemma norm_index_label L s : label L s -> norm_index L s = Some (Z.to_nat s).
Proof.
  unfold label, norm_index. intros H.
  destruct (Z.leb_spec 0 s); [|lia]. destruct (Z.ltb_spec s (Z.of_nat L)); [|lia].
  reflexivity.
Qed.

Lemma count_pair_run L (a : imatrix) (i j : Z) om w :
  is_square L a -> label L i -> label L j ->
  exists a', count_pair a (i, j) om w = Ok a' w /\ is_square L a' /\
    forall i' j', icell a' i' j' =
      if decide (i' = Z.to_nat i /\ j' = Z.to_nat j)
      then wrap32 (icell a (Z.to_nat i) (Z.to_nat j) + 1)
      else icell a i' j'.
Proof.
  intros Hsq Hi Hj.
  assert (Hi' : (Z.to_nat i < L)%nat) by (unfold label in Hi; lia).
  assert (Hj' : (Z.to_nat j < L)%nat) by (unfold label in Hj; lia).
  destruct (is_square_lookup L a _ Hsq Hi') as (row & Hrow & Hlen).
  destruct (lookup_lt_is_Some_2 row (Z.to_nat j)) as [x Hx]; [lia|].
  exists (<[Z.to_nat i := <[Z.to_nat j := wrap32 (x + 1)]> row]> a).
  split; [|split].
  - unfold count_pair. simpl fst. simpl snd.
    destruct Hsq as [Hlena _].
    rewrite (bind_subscript _ _ _ _ (Z.to_nat i))
      by (rewrite Hlena; by apply norm_index_label).
    rewrite (bind_subscript _ _ _ _ row) by done.
    rewrite (bind_subscript _ _ _ _ (Z.to_nat j))
      by (rewrite Hlen; by apply norm_index_label).
    rewrite (bind_subscript _ _ _ _ x) by done.
    reflexivity.
  - apply is_square_insert; [done|]. by rewrite length_insert.
  - intros i' j'. rewrite (icell_insert L) by done.
    unfold icell at 2. rewrite Hrow. simpl. rewrite Hx. reflexivity.
Qed.

Lemma foldM_app {T U} (f : U -> T -> M U) (l1 l2 : list T) acc om w :
  foldM f (l1 ++ l2) acc om w = (foldM f l1 acc ≫= foldM f l2) om w.
Proof.
  revert acc w. induction l1 as [|x l1 IH]; intros acc w; simpl.
  - reflexivity.
  - rewrite bind_assoc. rewrite !(bind_run (f acc x)).
    destruct (f acc x om w); [apply IH|reflexivity].
Qed.

Lemma occurrences_cons i j p ps :
  occurrences i j (p :: ps) =
  ((if decide (p = (Z.of_nat i, Z.of_nat j)) then 1 else 0) + occurrences i j ps)%Z.
Proof.
  unfold occurrences. rewrite filter_cons.
  destruct (decide (p = (Z.of_nat i, Z.of_nat j))); simpl length; lia.
Qed.

Lemma occurrences_nonneg i j ps : (0 <= occurrences i j ps)%Z.
Proof. unfold occurrences. lia. Qed.

Lemma occurrences_le i j ps : (occurrences i j ps <= Z.of_nat (length ps))%Z.
Proof. unfold occurrences. pose proof (length_filter (fun p => p = (Z.of_nat i, Z.of_nat j)) ps). lia. Qed.

Lemma count_pairs_run L ps : forall (a : imatrix) (c : nat -> nat -> Z) om w,
  is_square L a -> Forall (labels2 L) ps ->
  (forall i j, (i < L)%nat -> (j < L)%nat -> icell a i j = wrap32 (c i j)) ->
  exists a', foldM count_pair ps a om w = Ok a' w /\ is_square L a' /\
    forall i j, (i < L)%nat -> (j < L)%nat ->
      icell a' i j = wrap32 (c i j + occurrences i j ps).
Proof.
  induction ps as [|[s t] ps IH]; intros a c om w Hsq Hlab Hc.
  - exists a. split; [reflexivity|]. split; [done|].
    intros i j Hi Hj. unfold occurrences. simpl. rewrite Z.add_0_r. by apply Hc.
  - inversion Hlab as [|? ? [Hs Ht] Hlab']; subst. simpl in Hs, Ht.
    destruct (count_pair_run L a s t om w Hsq Hs Ht) as (a1 & Hrun & Hsq1 & Hcell).
    set (c1 := fun i j : nat =>
      (c i j + if decide ((s, t) = (Z.of_nat i, Z.of_nat j)) then 1 else 0)%Z).
    destruct (IH a1 c1 om w Hsq1 Hlab') as (a' & Hrun' & Hsq' & Hcell').
    + intros i j Hi Hj. rewrite Hcell. unfold c1.
      assert (Hs' : (Z.to_nat s < L)%nat) by (unfold label in Hs; lia).
      assert (Ht' : (Z.to_nat t < L)%nat) by (unfold label in Ht; lia).
      destruct (decide (i = Z.to_nat s /\ j = Z.to_nat t)) as [[-> ->]|Hne].
      * rewrite decide_True
          by (unfold label in Hs, Ht; f_equal; lia).
        rewrite (Hc _ _ Hs' Ht'). apply wrap32_succ.
      * rewrite decide_False.
        -- rewrite Z.add_0_r. by apply Hc.
        -- intros Heq. apply Hne. inversion Heq. lia.
    + exists a'. split; [|split; [done|]].
      * simpl. rewrite (bind_ok _ _ _ _ _ _ Hrun). exact Hrun'.
      * intros i j Hi Hj. rewrite (Hcell' i j Hi Hj). unfold c1.
        rewrite occurrences_cons. f_equal. lia.
Qed.

Lemma adjacent_short (states : list Z) :
  (length states < 2)%nat -> adjacent states = [].
Proof.
  destruct states as [|x [|y states]]; simpl; intros; [reflexivity|reflexivity|lia].
Qed.

Lemma count_states_run (a : imatrix) states om w :
  count_states a states om w = foldM count_pair (adjacent states) a om w.
Proof.
  unfold count_states. destruct (Nat.leb_spec 2 (length states)); [reflexivity|].
  rewrite adjacent_short by lia. reflexivity.
Qed.

Lemma count_all_run states_list : forall (a : imatrix) om w,
  foldM count_states states_list a om w =
  foldM count_pair (all_pairs states_list) a om w.
Proof.
  induction states_list as [|s sl IH]; intros a om w; simpl.
  - reflexivity.
  - unfold all_pairs. simpl. rewrite foldM_app, !bind_run, count_states_run.
    destruct (foldM count_pair (adjacent s) a om w); [apply IH|reflexivity].
Qed.

Lemma adjacent_labels L (states : list Z) :
  Forall (label L) states -> Forall (labels2 L) (adjacent states).
Proof.
  intros H. unfold adjacent. rewrite Forall_forall. intros [x y] Hin.
  rewrite Forall_forall in H. split; simpl; apply H.
  - by eapply elem_of_zip_l.
  - apply (subseteq_drop 1). by eapply elem_of_zip_r.
Qed.

Lemma all_pairs_labels L (states_list : list (list Z)) :
  Forall (Forall (label L)) states_list -> Forall (labels2 L) (all_pairs states_list).
Proof.
  intros H. unfold all_pairs. apply Forall_concat, Forall_fmap.
  eapply Forall_impl; [exact H|]. intros s Hs. by apply adjacent_labels.
Qed.

Lemma zeros_square L : is_square L (zeros L L).
Proof.
  unfold zeros. split; [apply length_replicate|].
  apply Forall_replicate. apply length_replicate.
Qed.

Lemma icell_zeros r c i j : icell (zeros r c) i j = 0%Z.
Proof.
  unfold icell, zeros. destruct (decide (i < r)%nat).
  - rewrite lookup_replicate_2 by done. simpl.
    destruct (decide (j < c)%nat).
    + by rewrite lookup_replicate_2.
    + rewrite lookup_ge_None_2; [done|]. rewrite length_replicate. lia.
  - rewrite lookup_ge_None_2; [done|]. rewrite length_replicate. lia.
Qed.

(** The base counting step on labels of the model: every cell holds the
    number of adjacent pairs from its row state to its column state. *)
Lemma base_count_run rest states_list om w :
  Forall (Forall (label (state_dim (self w)))) states_list ->
  exists tc,
    _count_transitions (HDPHMMTransitions :: rest) states_list om w =
      Ok tc (mkWorld (set_trans_counts tc (self w)) (drawn w)) /\
    is_square (state_dim (self w)) tc /\
    forall i j, (i < state_dim (self w))%nat -> (j < state_dim (self w))%nat ->
      icell tc i j = wrap32 (occurrences i j (all_pairs states_list)).
Proof.
  intros Hlab. set (L := state_dim (self w)) in *.
  destruct (count_pairs_run L (all_pairs states_list) (zeros L L)
              (fun _ _ => 0%Z) om w) as (tc & Hrun & Hsq & Hcell).
  - apply zeros_square.
  - by apply all_pairs_labels.
  - intros i j _ _. rewrite icell_zeros. reflexivity.
  - exists tc. split; [|split; [done|]].
    + simpl. rewrite bind_attr. fold L.
      rewrite (bind_ok _ _ _ _ tc w) by (rewrite count_all_run; exact Hrun).
      reflexivity.
    + intros i j Hi Hj. rewrite (Hcell i j Hi Hj). reflexivity.
Qed.

Lemma occurrences_pos i j ps :
  (Z.of_nat i, Z.of_nat j) ∈ ps -> (1 <= occurrences i j ps)%Z.
Proof.
  intros Hin. unfold occurrences.
  assert (H : (Z.of_nat i, Z.of_nat j) ∈
              filter (fun p => p = (Z.of_nat i, Z.of_nat j)) ps)
    by (apply list_elem_of_filter; done).
  destruct (filter _ ps); [by apply elem_of_nil in H|simpl; lia].
Qed.

Lemma occurrences_zero i j ps :
  (Z.of_nat i, Z.of_nat j) ∉ ps -> occurrences i j ps = 0%Z.
Proof.
  intros Hin. unfold occurrences.
  destruct (filter _ ps) as [|p l] eqn:E; [reflexivity|].
  exfalso. apply Hin.
  assert (H : p ∈ filter (fun p => p = (Z.of_nat i, Z.of_nat j)) ps)
    by (rewrite E; left).
  apply list_elem_of_filter in H as [-> H]. exact H.
Qed.

Lemma all_zero_icell (a : imatrix) :
  all_zero a = true <-> forall i j, icell a i j = 0%Z.
Proof.
  unfold all_zero. rewrite <- Is_true_true, forallb_True, Forall_lookup. split.
  - intros H i j. unfold icell. destruct (a !! i) as [row|] eqn:Hrow; [|done].
    simpl. destruct (row !! j) as [x|] eqn:Hx; [|done]. simpl.
    specialize (H i row Hrow). rewrite forallb_True, Forall_lookup in H.
    specialize (H j x Hx). apply Is_true_true in H. apply Z.eqb_eq in H. done.
  - intros H i row Hrow. rewrite forallb_True, Forall_lookup. intros j x Hx.
    apply Is_true_true, Z.eqb_eq. specialize (H i j). unfold icell in H.
    rewrite Hrow in H. simpl in H. rewrite Hx in H. done.
Qed.

Lemma icell_tril_strict (a : imatrix) i j :
  icell (tril_strict 0%Z a) i j = if (j <? i)%nat then icell a i j else 0%Z.
Proof.
  unfold icell, tril_strict. rewrite list_lookup_imap.
  destruct (a !! i) as [row|]; simpl; [|by destruct (j <? i)%nat].
  rewrite list_lookup_imap. destruct (row !! j); simpl; by destruct (j <? i)%nat.
Qed.

Lemma icell_outside n (a : imatrix) i j :
  is_square n a -> ¬ ((i < n)%nat /\ (j < n)%nat) -> icell a i j = 0%Z.
Proof.
  intros Hsq Hout. unfold icell.
  destruct (decide (i < n)%nat) as [Hi|Hi].
  - destruct (is_square_lookup n a i Hsq Hi) as (row & -> & Hlen). simpl.
    rewrite lookup_ge_None_2; [done|lia].
  - destruct Hsq as [Hlen _]. rewrite lookup_ge_None_2; [done|lia].
Qed.

(** Counting changes nothing but the local array. *)
Lemma count_pair_world (a : imatrix) p om w : world_of (count_pair a p om w) = w.
Proof.
  unfold count_pair.
  destruct (norm_index (length a) (fst p)) as [r|]; [|reflexivity].
  rewrite (bind_subscript _ _ _ _ r) by done.
  destruct (a !! r) as [row|]; [|reflexivity].
  rewrite (bind_subscript _ _ _ _ row) by done.
  destruct (norm_index (length row) (snd p)) as [c|]; [|reflexivity].
  rewrite (bind_subscript _ _ _ _ c) by done.
  destruct (row !! c) as [x|]; [|reflexivity].
  rewrite (bind_subscript _ _ _ _ x) by done. reflexivity.
Qed.

Lemma foldM_world {T U} (f : U -> T -> M U) om :
  (forall acc x w, world_of (f acc x om w) = w) ->
  forall l acc w, world_of (foldM f l acc om w) = w.
Proof.
  intros Hf. induction l as [|x l IH]; intros acc w; simpl; [reflexivity|].
  rewrite bind_run. specialize (Hf acc x w).
  destruct (f acc x om w); simpl in Hf; subst; [apply IH|reflexivity].
Qed.

Lemma base_count_world rest states_list om w :
  (exists tc, _count_transitions (HDPHMMTransitions :: rest) states_list om w =
     Ok tc (mkWorld (set_trans_counts tc (self w)) (drawn w))) \/
  (exists e, _count_transitions (HDPHMMTransitions :: rest) states_list om w =
     Raise e w).
Proof.
  simpl. rewrite bind_attr, bind_run.
  pose proof (foldM_world count_states om) as H.
  specialize (H (fun acc x w => ltac:(rewrite count_states_run;
    apply (foldM_world count_pair om (fun a p w => count_pair_world a p om w))))).
  specialize (H states_list (zeros (state_dim (self w)) (state_dim (self w))) w).
  destruct (foldM count_states _ _ om w) as [tc w'|e w']; simpl in H; subst.
  - left. exists tc. reflexivity.
  - right. exists e. reflexivity.
Qed.

Lemma all_zero_zeros r c : all_zero (zeros r c) = true.
Proof. apply all_zero_icell. intros i j. apply icell_zeros. Qed.

(** On an empty sequence list the counts are all 0. *)
Lemma empty_list_counts rest om w :
  _count_transitions (HDPHMMTransitions :: rest) [] om w =
  Ok (zeros (state_dim (self w)) (state_dim (self w)))
     (mkWorld (set_trans_counts (zeros (state_dim (self w)) (state_dim (self w)))
                                (self w)) (drawn w)).
Proof. reflexivity. Qed.

(** Three states and the sequence 0, 1, 2, 1, 0: the edges 0->1, 1->2, 2->1
    and 1->0 are counted once each. *)
Example count_transitions_0_1_2_1_0 :
  run (_count_transitions (mro HDPHMMTransitions) [[0; 1; 2; 1; 0]%Z]) steady (bare 3) =
  Ok [[0; 1; 0]; [1; 0; 1]; [0; 1; 0]]%Z
     (mkWorld (set_trans_counts [[0; 1; 0]; [1; 0; 1]; [0; 1; 0]]%Z (bare 3)) []).
Proof. reflexivity. Qed.

(** ** The counting step of the left-to-right classes *)

Lemma ltr_count_step super states_list om w :
  _count_transitions (LTRHDPHMMTransitions :: super) states_list om w =
  match _count_transitions super states_list om w with
  | Ok tc w1 =>
      if all_zero (tril_strict 0%Z tc)
      then (attr_opt fullA ≫= fun full =>
              foldM (ltr_augment_row full (isum_axis1 tc) (sum_axis1 (triu 0 full)))
                    (seq 0 (length tc)) tc) om w1
      else Raise AssertionError w1
  | Raise e w1 => Raise e w1
  end.
Proof.
  simpl. rewrite bind_run.
  destruct (_count_transitions super states_list om w) as [tc w1|e w1]; [|reflexivity].
  rewrite bind_run. destruct (all_zero (tril_strict 0%Z tc)); reflexivity.
Qed.

Lemma ltr_count_unfold c states_list om w :
  ltr_class c ->
  _count_transitions (mro c) states_list om w =
  match _count_transitions [HDPHMMTransitions] states_list om w with
  | Ok tc w1 =>
      if all_zero (tril_strict 0%Z tc)
      then (attr_opt fullA ≫= fun full =>
              foldM (ltr_augment_row full (isum_axis1 tc) (sum_axis1 (triu 0 full)))
                    (seq 0 (length tc)) tc) om w1
      else Raise AssertionError w1
  | Raise e w1 => Raise e w1
  end.
Proof.
  intros [-> | ->].
  - exact (ltr_count_step [HDPHMMTransitions] states_list om w).
  - exact (ltr_count_step [StickyHDPHMMTransitions; HDPHMMTransitions]
             states_list om w).
Qed.

Lemma ltr_resample_unfold c states_list om w :
  ltr_class c ->
  resample c (mro c) states_list om w =
  (_count_transitions (mro c) states_list ≫= fun tc =>
     _get_m tc ≫= fun mm =>
       _resample_beta (mro c) mm ≫= fun _ =>
         _resample_A (mro c) (to_float tc)) om w.
Proof. intros [-> | ->]; reflexivity. Qed.

(** C9: on labels of the model, with fewer than 2^31 transitions in all, a
    sequence list with a backward transition makes the resample of either
    left-to-right class raise the assertion error of the counting step; by
    then nothing was drawn and only [trans_counts], holding the plain counts,
    was assigned. *)
Theorem C9_backward_transition_fails_assertion
    (c : class) (states_list : list (list Z)) (om : oracle) (w : world) :
  ltr_class c ->
  Forall (Forall (label (state_dim (self w)))) states_list ->
  (Z.of_nat (length (all_pairs states_list)) < 2 ^ 31)%Z ->
  Exists backward (all_pairs states_list) ->
  exists tc,
    resample c (mro c) states_list om w =
      Raise AssertionError (mkWorld (set_trans_counts tc (self w)) (drawn w)) /\
    forall i j, (i < state_dim (self w))%nat -> (j < state_dim (self w))%nat ->
      icell tc i j = occurrences i j (all_pairs states_list).
Proof.
  intros Hc Hlab Hsmall Hback.
  destruct (base_count_run [] states_list om w Hlab) as (tc & Hrun & Hsq & Hcell).
  assert (Hexact : forall i j, (i < state_dim (self w))%nat ->
            (j < state_dim (self w))%nat ->
            icell tc i j = occurrences i j (all_pairs states_list)).
  { intros i j Hi Hj. rewrite (Hcell i j Hi Hj). apply wrap32_small.
    pose proof (occurrences_nonneg i j (all_pairs states_list)).
    pose proof (occurrences_le i j (all_pairs states_list)).
    unfold int32. lia. }
  exists tc. split; [|exact Hexact].
  rewrite (ltr_resample_unfold c _ _ _ Hc).
  apply bind_raise. rewrite (ltr_count_unfold c _ _ _ Hc), Hrun.
  destruct (all_zero (tril_strict 0%Z tc)) eqn:Hz; [exfalso|reflexivity].
  apply Exists_exists in Hback as ([s t] & Hin & Hlt). unfold backward in Hlt.
  simpl in Hlt.
  assert (Hst : labels2 (state_dim (self w)) (s, t)).
  { pose proof (all_pairs_labels _ _ Hlab) as H.
    rewrite Forall_forall in H. by apply H. }
  destruct Hst as [Hs Ht]. unfold label in Hs, Ht. simpl in Hs, Ht.
  rewrite all_zero_icell in Hz. specialize (Hz (Z.to_nat s) (Z.to_nat t)).
  rewrite icell_tril_strict in Hz.
  destruct (Nat.ltb_spec (Z.to_nat t) (Z.to_nat s)); [|lia].
  rewrite Hexact in Hz by lia.
  pose proof (occurrences_pos (Z.to_nat s) (Z.to_nat t) (all_pairs states_list)) as Hpos.
  rewrite !Z2Nat.id in Hpos by lia. specialize (Hpos Hin). lia.
Qed.


(** ** The run-length collapse of the semi-Markov classes *)

Lemma rle_head (s : list Z) :
  length (fst (rle s)) = length (snd (rle s)) /\ head (fst (rle s)) = head s.
Proof.
  induction s as [|x s [IHlen IHhead]]; simpl; [done|].
  destruct (rle s) as [[|y ids] [|n lens]]; simpl in *; try done.
  destruct (Z.eqb_spec x y) as [->|Hne]; simpl; split; try reflexivity; lia.
Qed.

Lemma rle_cons x (s : list Z) :
  fst (rle (x :: s)) =
  match fst (rle s) with
  | y :: ids => if (x =? y)%Z then y :: ids else x :: y :: ids
  | [] => [x]
  end.
Proof.
  simpl. destruct (rle_head s) as [Hlen _].
  destruct (rle s) as [[|y ids] [|n lens]]; simpl in *; try done.
  by destruct (x =? y)%Z.
Qed.

Lemma no_repeats_cons x y (s : list Z) :
  no_repeats (x :: y :: s) <-> x <> y /\ no_repeats (y :: s).
Proof. unfold no_repeats, adjacent. simpl. rewrite Forall_cons. done. Qed.

Lemma rle_no_repeats (s : list Z) : no_repeats (fst (rle s)).
Proof.
  induction s as [|x s IH]; [constructor|].
  rewrite rle_cons. destruct (fst (rle s)) as [|y ids]; [constructor|].
  destruct (Z.eqb_spec x y); [done|]. by apply no_repeats_cons.
Qed.

Lemma rle_fixed (s : list Z) : no_repeats s -> fst (rle s) = s.
Proof.
  induction s as [|x s IH]; intros H; [reflexivity|].
  rewrite rle_cons. destruct s as [|y s]; [reflexivity|].
  apply no_repeats_cons in H as [Hne H]. rewrite (IH H).
  destruct (Z.eqb_spec x y); done.
Qed.

Lemma states_noreps_no_repeats stateseqs : Forall no_repeats (states_noreps stateseqs).
Proof. unfold states_noreps. apply Forall_fmap, Forall_true. intros s. apply rle_no_repeats. Qed.

Lemma states_noreps_fixed stateseqs :
  Forall no_repeats stateseqs -> states_noreps stateseqs = stateseqs.
Proof.
  unfold states_noreps. induction 1 as [|s l Hs Hl IH]; [done|].
  rewrite fmap_cons, IH. by rewrite rle_fixed.
Qed.

Lemma hsmm_resample_unfold c stateseqs om w :
  hsmm_class c ->
  resample c (mro c) stateseqs om w =
  if decide (c = HDPHSMMTransitions)
  then HSMM_resample_as_given c (states_noreps stateseqs) om w
  else (HSMM_resample_as_given c (states_noreps stateseqs);;
        ConcentrationResampling_resample) om w.
Proof. intros [-> | ->]; reflexivity. Qed.

(** C2 (amended): the resample of the semi-Markov classes collapses the runs
    of every sequence it is given by itself and counts the transitions of the
    collapsed sequences, which have no two consecutive equal labels; on
    sequences that already have none the collapse changes nothing and the
    transitions are counted exactly as given. *)
Theorem C2_semi_markov_counts_collapsed_sequences
    (c : class) (stateseqs : list (list Z)) (om : oracle) (w : world) :
  hsmm_class c ->
  Forall no_repeats (states_noreps stateseqs) /\
  resample c (mro c) stateseqs om w =
    resample c (mro c) (states_noreps stateseqs) om w /\
  (Forall no_repeats stateseqs ->
     states_noreps stateseqs = stateseqs /\
     resample HDPHSMMTransitions (mro HDPHSMMTransitions) stateseqs om w =
       HSMM_resample_as_given HDPHSMMTransitions stateseqs om w).
Proof.
  intros Hc. split; [apply states_noreps_no_repeats|]. split.
  - rewrite !(hsmm_resample_unfold c _ _ _ Hc).
    by rewrite (states_noreps_fixed (states_noreps stateseqs))
      by apply states_noreps_no_repeats.
  - intros Hnr. split; [by apply states_noreps_fixed|].
    rewrite (hsmm_resample_unfold HDPHSMMTransitions) by (by left).
    simpl decide. cbv iota. by rewrite states_noreps_fixed.
Qed.

Lemma C2_counterexample :
  trans_counts (self (world_of
    (run (resample HDPHSMMTransitions (mro HDPHSMMTransitions) [[0; 0; 1]%Z])
         steady hsmm2))) = Some [[1; 1]; [0; 0]]%Z /\
  trans_counts (self (world_of
    (run (HSMM_resample_as_given HDPHSMMTransitions [[0; 0; 1]%Z])
         steady hsmm2))) = Some [[3; 1]; [0; 0]]%Z /\
  run (_count_transitions (mro HDPHSMMTransitions) (states_noreps [[0; 0; 1]%Z]))
      steady hsmm2 =
    Ok [[0; 1]; [0; 0]]%Z (mkWorld (set_trans_counts [[0; 1]; [0; 0]]%Z hsmm2) []) /\
  run (_count_transitions (mro HDPHSMMTransitions) [[0; 0; 1]%Z]) steady hsmm2 =
    Ok [[1; 1]; [0; 0]]%Z (mkWorld (set_trans_counts [[1; 1]; [0; 0]]%Z hsmm2) []).
Proof. repeat split; vm_compute; reflexivity. Qed.

(** ** The augmentation of the semi-Markov classes *)



Lemma isum_axis1_rows (a : imatrix) :
  isum_axis1 a = row_sum a <$> seq 0 (length a).
Proof.
  unfold isum_axis1. apply list_eq. intros i.
  rewrite !list_lookup_fmap. destruct (a !! i) as [row|] eqn:Hrow; simpl.
  - rewrite (proj2 (lookup_seq 0 (length a) i i)).
    + simpl. unfold row_sum. by rewrite Hrow.
    + split; [lia|]. by eapply lookup_lt_Some.
  - rewrite lookup_ge_None_2; [done|]. rewrite length_seq.
    by apply lookup_ge_None_1.
Qed.




Lemma zsum_nonneg (l : ivec) : Forall (fun x => 0 <= x)%Z l -> (0 <= zsum l)%Z.
Proof. induction 1; simpl; lia. Qed.




Lemma counts_array_icell L (a : imatrix) i j :
  counts_array L a -> (0 <= icell a i j < 2 ^ 31)%Z.
Proof.
  intros [_ Hcells]. unfold icell.
  destruct (a !! i) as [row|] eqn:Hrow; simpl; [|lia].
  destruct (row !! j) as [x|] eqn:Hx; simpl; [|lia].
  rewrite Forall_lookup in Hcells. specialize (Hcells i row Hrow).
  rewrite Forall_lookup in Hcells. apply (Hcells j x Hx).
Qed.

Lemma square_true {T} n (a : list (list T)) : is_square n a -> square n a = true.
Proof.
  intros [Hlen Hall]. unfold square. apply andb_true_intro. split.
  - by apply Nat.eqb_eq.
  - apply Is_true_true, forallb_True. eapply Forall_impl; [exact Hall|].
    intros row Hrow. apply Is_true_true. by apply Nat.eqb_eq.
Qed.


Lemma add_diag_int32_square L (d : ivec) (a : imatrix) :
  is_square L a -> is_square L (add_diag_int32 d a).
Proof.
  intros [Hlen Hall]. unfold add_diag_int32. split; [by rewrite length_imap|].
  rewrite Forall_lookup. intros i row. rewrite list_lookup_imap.
  destruct (a !! i) as [row'|] eqn:Hrow; simpl; [|done]. intros [= <-].
  rewrite length_imap. rewrite Forall_lookup in Hall. by eapply Hall.
Qed.





(** ** The augmentation of the left-to-right classes *)

Lemma qsum_triu_row (row : vec) : forall i,
  qsum (imap (fun j x => if (i <=? j)%nat then x else 0) row) == qsum (drop i row).
Proof.
  induction row as [|x row IH]; intros i.
  - by destruct i.
  - destruct i as [|i].
    + simpl. apply Qplus_comp; [reflexivity|].
      rewrite <- (IH 0%nat). reflexivity.
    + simpl. rewrite Qplus_0_l. apply (IH i).
Qed.

Lemma sum_axis1_triu_lookup L (full : matrix) i :
  is_square L full -> (i < L)%nat ->
  exists p, sum_axis1 (triu 0 full) !! i = Some p /\ p == upper_sum full i.
Proof.
  intros Hsq Hi. destruct (is_square_lookup L full i Hsq Hi) as (row & Hrow & Hlen).
  unfold sum_axis1, triu, upper_sum. rewrite list_lookup_fmap, list_lookup_imap, Hrow.
  simpl. eexists. split; [reflexivity|]. apply qsum_triu_row.
Qed.

Lemma fp_check_ok (cells : list (Q * Q)) om w :
  Forall (fun xd => ~ snd xd == 0) cells -> fp_check cells om w = Ok tt w.
Proof.
  intros H. unfold fp_check.
  assert (Hinv : existsb invalid_cell cells = false).
  { apply not_true_iff_false. intros Hex. apply existsb_exists in Hex as (xd & Hin & Hxd).
    rewrite Forall_forall in H. apply list_elem_of_In in Hin. specialize (H _ Hin).
    unfold invalid_cell in Hxd. apply andb_prop in Hxd as [Hd _].
    apply Qeq_bool_iff in Hd. contradiction. }
  assert (Hinf : existsb infinite_cell cells = false).
  { apply not_true_iff_false. intros Hex. apply existsb_exists in Hex as (xd & Hin & Hxd).
    rewrite Forall_forall in H. apply list_elem_of_In in Hin. specialize (H _ Hin).
    unfold infinite_cell in Hxd. apply andb_prop in Hxd as [Hd _].
    apply Qeq_bool_iff in Hd. contradiction. }
  rewrite Hinv, Hinf. reflexivity.
Qed.

Lemma divide_ok (x : vec) d om w :
  x = [] \/ ~ d == 0 -> divide x d om w = Ok ((fun y => y / d) <$> x) w.
Proof.
  intros H. unfold divide. rewrite (bind_ok _ _ _ _ tt w); [reflexivity|].
  apply fp_check_ok. destruct H as [-> | H]; [constructor|].
  apply Forall_fmap, Forall_true. intros y. exact H.
Qed.

Lemma qsum_pos (v : vec) : Forall (fun x => 0 < x) v -> v <> [] -> 0 < qsum v.
Proof.
  intros H. induction H as [|x v Hx Hv IH]; intros Hne; [done|].
  simpl. destruct v as [|y v].
  - simpl. lra.
  - assert (0 < qsum (y :: v)) by (by apply IH). lra.
Qed.

Lemma lower_sum_pos L (full : matrix) i :
  is_square L full -> Forall (Forall (fun x => 0 < x)) full ->
  (0 < i < L)%nat -> 0 < lower_sum full i.
Proof.
  intros Hsq Hpos Hi. unfold lower_sum.
  destruct (is_square_lookup L full i Hsq) as (row & Hrow & Hlen); [lia|].
  rewrite Hrow. simpl. rewrite Forall_lookup in Hpos. specialize (Hpos i row Hrow).
  apply qsum_pos.
  - by apply Forall_take.
  - intros Hnil. apply (f_equal length) in Hnil. rewrite length_take in Hnil.
    simpl in Hnil. lia.
Qed.

Lemma ltr_augment_row_run L (full : matrix) (tc0 tc : imatrix) i om w :
  is_square L full -> Forall (Forall (fun x => 0 < x)) full ->
  is_square L tc0 -> is_square L tc -> (i < L)%nat ->
  answers_all om ->
  exists p g x row,
    p == upper_sum full i /\
    om (length (drawn w)) (geometric p (row_sum tc0 i)) = Value g /\
    om (S (length (drawn w)))
       (multinomial (zsum (ints_of g (Z.to_nat (row_sum tc0 i)))) (lower_share full i))
      = Value x /\
    tc !! i = Some row /\
    ltr_augment_row full (isum_axis1 tc0) (sum_axis1 (triu 0 full)) tc i om w =
      Ok (<[i := (wrap32 <$> ints_of x i) ++ drop i row]> tc)
         (mkWorld
            (set_trans_counts (<[i := (wrap32 <$> ints_of x i) ++ drop i row]> tc) (self w))
            (drawn w ++
               [geometric p (row_sum tc0 i);
                multinomial (zsum (ints_of g (Z.to_nat (row_sum tc0 i))))
                            (lower_share full i)])).
Proof.
  intros Hsqf Hpos Hsq0 Hsq Hi Hom.
  destruct (sum_axis1_triu_lookup L full i Hsqf Hi) as (p & Hp & Hpeq).
  destruct (is_square_lookup L full i Hsqf Hi) as (frow & Hfrow & Hflen).
  destruct (is_square_lookup L tc i Hsq Hi) as (row & Hrow & Hlen).
  assert (Hf : isum_axis1 tc0 !! i = Some (row_sum tc0 i)).
  { rewrite isum_axis1_rows, list_lookup_fmap.
    rewrite (proj2 (lookup_seq 0 (length tc0) i i)); [done|].
    destruct Hsq0 as [-> _]. split; [lia|done]. }
  destruct (Hom (length (drawn w)) (geometric p (row_sum tc0 i))) as [g Hg].
  set (tot := zsum (ints_of g (Z.to_nat (row_sum tc0 i)))).
  assert (Hshare : (fun y => y / qsum (take i frow)) <$> take i frow = lower_share full i).
  { unfold lower_share, lower_sum. rewrite Hfrow. reflexivity. }
  destruct (Hom (S (length (drawn w))) (multinomial tot (lower_share full i))) as [x Hx].
  exists p, g, x, row. split; [done|]. split; [done|]. split; [done|]. split; [done|].
  unfold ltr_augment_row.
  rewrite (bind_subscript _ _ _ _ p Hp), (bind_subscript _ _ _ _ _ Hf).
  rewrite (bind_ok _ _ _ _ _ _ (sample_value _ _ _ _ Hg)). fold tot.
  rewrite (bind_subscript _ _ _ _ frow Hfrow).
  assert (Hdiv : take i frow = [] \/ ~ qsum (take i frow) == 0).
  { destruct i as [|i]; [left; reflexivity|right].
    pose proof (lower_sum_pos L full (S i) Hsqf Hpos) as H.
    unfold lower_sum in H. rewrite Hfrow in H. simpl default in H.
    intros Hz. assert (0 < qsum (take (S i) frow)) by (apply H; lia). lra. }
  rewrite (bind_ok _ _ _ _ _ _ (divide_ok _ _ _ _ Hdiv)).
  rewrite Hshare.
  rewrite (bind_ok _ _ _ _ x
             (mkWorld (self w) ((drawn w ++ [geometric p (row_sum tc0 i)]) ++
                                [multinomial tot (lower_share full i)]))).
  - unfold store_prefix. rewrite bind_assoc.
    rewrite (bind_subscript _ _ _ _ row Hrow).
    rewrite bind_assoc, bind_same_shape.
    + rewrite bind_ret, bind_assign, ret_run. simpl.
      rewrite <- app_assoc. simpl.
      replace (length (lower_share full i)) with i; [reflexivity|].
      unfold lower_share. rewrite Hfrow. simpl.
      rewrite length_fmap, length_take. lia.
    + apply Nat.eqb_eq. unfold ints_of. rewrite length_fmap, length_seq.
      unfold lower_share. rewrite Hfrow. simpl.
      rewrite length_fmap, !length_take. lia.
  - apply sample_value. simpl. rewrite length_app. simpl.
    rewrite Nat.add_1_r. exact Hx.
Qed.

Lemma ltr_loop_run L (full : matrix) (tc0 : imatrix) (o : object) om d0 :
  is_square L full -> Forall (Forall (fun x => 0 < x)) full ->
  is_square L tc0 -> answers_all om ->
  forall n, (n <= L)%nat ->
  exists tc dr,
    foldM (ltr_augment_row full (isum_axis1 tc0) (sum_axis1 (triu 0 full)))
          (seq 0 n) tc0 om (mkWorld (set_trans_counts tc0 o) d0) =
      Ok tc (mkWorld (set_trans_counts tc o) dr) /\
    is_square L tc /\
    length dr = (length d0 + 2 * n)%nat /\
    (forall i, (n <= i)%nat -> tc !! i = tc0 !! i) /\
    (forall i, (i < n)%nat -> ltr_row_augmented om full tc0 tc dr (length d0) i).
Proof.
  intros Hsqf Hpos Hsq0 Hom. induction n as [|n IH]; intros Hn.
  - exists tc0, d0. split; [reflexivity|]. split; [done|]. split; [lia|].
    split; [done|]. intros i Hi. lia.
  - destruct IH as (tc & dr & Hrun & Hsq & Hlen & Hrest & Hrows); [lia|].
    rewrite seq_S, foldM_app, (bind_ok _ _ _ _ _ _ Hrun). simpl foldM.
    destruct (ltr_augment_row_run L full tc0 tc n om
                (mkWorld (set_trans_counts tc o) dr) Hsqf Hpos Hsq0 Hsq)
      as (p & g & x & row & Hp & Hg & Hx & Hrow & Hstep); [lia|done|].
    simpl drawn in Hg, Hx, Hstep. simpl self in Hstep.
    rewrite (bind_ok _ _ _ _ _ _ Hstep), ret_run.
    eexists. eexists. split; [reflexivity|].
    assert (Hrow0 : tc0 !! n = Some row) by (by rewrite <- Hrest).
    assert (Hlenrow : length row = L).
    { destruct Hsq0 as [_ Hall]. rewrite Forall_lookup in Hall. by eapply Hall. }
    split; [|split; [|split]].
    + apply is_square_insert; [done|].
      rewrite length_app, length_fmap, length_drop. unfold ints_of.
      rewrite length_fmap, length_seq. lia.
    + rewrite length_app. simpl. lia.
    + intros i Hi. rewrite list_lookup_insert_ne by lia. apply Hrest. lia.
    + intros i Hi. destruct (decide (i = n)) as [->|Hne].
      * exists p, g, x, row. split; [done|]. split; [done|].
        replace (length d0 + 2 * n)%nat with (length dr) by lia.
        split; [|split; [done|split; [|split]]].
        -- rewrite lookup_app_r by lia. by rewrite Nat.sub_diag.
        -- rewrite lookup_app_r by lia.
           by replace (length dr + 1 - length dr)%nat with 1%nat by lia.
        -- by rewrite Nat.add_1_r.
        -- apply list_lookup_insert_eq. destruct Hsq as [-> _]. lia.
      * destruct (Hrows i) as (p' & g' & x' & row' & H1 & H2 & H3 & H4 & H5 & H6 & H7);
          [lia|].
        exists p', g', x', row'. split; [done|]. split; [done|].
        split; [|split; [done|split; [|split; [done|]]]].
        -- rewrite lookup_app_l; [done|]. apply lookup_lt_Some in H3. done.
        -- rewrite lookup_app_l; [done|]. apply lookup_lt_Some in H5. done.
        -- rewrite list_lookup_insert_ne by done. done.
Qed.

Lemma forward_counts_pass_assert L (tc : imatrix) states_list :
  is_square L tc ->
  (forall i j, (i < L)%nat -> (j < L)%nat ->
     icell tc i j = wrap32 (occurrences i j (all_pairs states_list))) ->
  Forall (fun p => ~ backward p) (all_pairs states_list) ->
  all_zero (tril_strict 0%Z tc) = true.
Proof.
  intros Hsq Hcell Hfwd. apply all_zero_icell. intros i j.
  rewrite icell_tril_strict. destruct (Nat.ltb_spec j i) as [Hji|]; [|reflexivity].
  destruct (decide ((i < L)%nat /\ (j < L)%nat)) as [[Hi Hj]|Hout];
    [|by eapply icell_outside].
  rewrite (Hcell i j Hi Hj), occurrences_zero; [reflexivity|].
  intros Hin. rewrite Forall_forall in Hfwd. apply (Hfwd _ Hin).
  unfold backward. simpl. lia.
Qed.

Lemma lower_share_lookup L (full : matrix) i j :
  is_square L full -> (i < L)%nat -> (j < i)%nat ->
  lower_share full i !! j = Some (qcell full i j / lower_sum full i).
Proof.
  intros Hsq Hi Hj. destruct (is_square_lookup L full i Hsq Hi) as (row & Hrow & Hlen).
  unfold lower_share, qcell. rewrite Hrow. simpl.
  destruct (lookup_lt_is_Some_2 row j) as [y Hy]; [lia|].
  rewrite list_lookup_fmap, lookup_take_lt by done. rewrite Hy. reflexivity.
Qed.

Lemma lower_share_length L (full : matrix) i :
  is_square L full -> (i < L)%nat -> length (lower_share full i) = i.
Proof.
  intros Hsq Hi. destruct (is_square_lookup L full i Hsq Hi) as (row & Hrow & Hlen).
  unfold lower_share. rewrite Hrow. simpl. rewrite length_fmap, length_take. lia.
Qed.

(** C3 (amended): in the counting step of the left-to-right classes, on
    sequences that pass its assertion, the total for every row i is the sum of
    f_i geometric variates drawn with success probability w_i, f_i being the
    row sum of the plain counts and w_i the sum of the upper-triangular part
    of row i of fullA; that total is split by a multinomial draw over the
    backward columns 0..i-1 of the row, with the probabilities
    fullA[i][j] / (fullA[i][0] + ... + fullA[i][i-1]), and the split is
    stored in those columns; the forward columns keep the plain counts. *)
Theorem C3_ltr_counting_splits_over_backward_columns
    (c : class) (states_list : list (list Z)) (full : matrix)
    (om : oracle) (w : world) :
  ltr_class c ->
  Forall (Forall (label (state_dim (self w)))) states_list ->
  Forall (fun p => ~ backward p) (all_pairs states_list) ->
  fullA (self w) = Some full -> is_square (state_dim (self w)) full ->
  Forall (Forall (fun x => 0 < x)) full -> answers_all om ->
  exists tc0 tc dr,
    _count_transitions [HDPHMMTransitions] states_list om w =
      Ok tc0 (mkWorld (set_trans_counts tc0 (self w)) (drawn w)) /\
    _count_transitions (mro c) states_list om w =
      Ok tc (mkWorld (set_trans_counts tc (self w)) dr) /\
    length dr = (length (drawn w) + 2 * state_dim (self w))%nat /\
    forall i, (i < state_dim (self w))%nat ->
      ltr_row_augmented om full tc0 tc dr (length (drawn w)) i /\
      length (lower_share full i) = i /\
      forall j, (j < i)%nat ->
        lower_share full i !! j = Some (qcell full i j / lower_sum full i).
Proof.
  intros Hc Hlab Hfwd Hfull Hsqf Hpos Hom. set (L := state_dim (self w)) in *.
  destruct (base_count_run [] states_list om w Hlab) as (tc0 & Hrun & Hsq0 & Hcell).
  fold L in Hsq0, Hcell.
  destruct (ltr_loop_run L full tc0 (self w) om (drawn w) Hsqf Hpos Hsq0 Hom L)
    as (tc & dr & Hloop & Hsq & Hlen & _ & Hrows); [lia|].
  exists tc0, tc, dr. split; [exact Hrun|]. split; [|split; [exact Hlen|]].
  - rewrite (ltr_count_unfold c _ _ _ Hc), Hrun.
    rewrite (forward_counts_pass_assert L tc0 states_list Hsq0 Hcell Hfwd).
    rewrite (bind_attr_opt _ _ _ _ full) by exact Hfull.
    destruct Hsq0 as [-> _]. exact Hloop.
  - intros i Hi. split; [by apply Hrows|].
    split; [by apply (lower_share_length L)|].
    intros j Hj. by apply (lower_share_lookup L).
Qed.

Lemma C3_counterexample :
  fullA ltr3 = Some [[1 # 3; 1 # 3; 1 # 3]; [1 # 4; 1 # 4; 1 # 2]; [1 # 3; 1 # 3; 1 # 3]] /\
  run (_count_transitions (mro LTRHDPHMMTransitions) [[1; 1; 2]%Z]) steady ltr3 =
    Ok [[0; 0; 0]; [2; 1; 1]; [0; 0; 0]]%Z
       (mkWorld (set_trans_counts [[0; 0; 0]; [2; 1; 1]; [0; 0; 0]]%Z ltr3)
          [geometric (27 # 27) 0; multinomial 0 [];
           geometric (6 # 8) 2; multinomial 2 [4 # 4];
           geometric (1 # 3) 0; multinomial 0 [9 # 18; 9 # 18]]).
Proof. split; reflexivity. Qed.

(** ** Computations without draws *)

Lemma quiet_ret {T} (x : T) : quiet (mret x).
Proof. intros om w. reflexivity. Qed.

Lemma quiet_raise {T} e : quiet (raise e : M T).
Proof. intros om w. reflexivity. Qed.

Lemma quiet_attr {T} (f : object -> T) : quiet (attr f).
Proof. intros om w. reflexivity. Qed.

Lemma quiet_attr_opt {T} (f : object -> option T) : quiet (attr_opt f).
Proof. intros om w. unfold attr_opt. by destruct (f (self w)). Qed.

Lemma quiet_assign upd : quiet (assign upd).
Proof. intros om w. reflexivity. Qed.

Lemma quiet_subscript {T} (o : option T) : quiet (subscript o).
Proof. intros om w. by destruct o. Qed.

Lemma quiet_same_shape b : quiet (same_shape b).
Proof. intros om w. by destruct b. Qed.

Lemma quiet_bind {T U} (c : M T) (f : T -> M U) :
  quiet c -> (forall x, quiet (f x)) -> quiet (c ≫= f).
Proof.
  intros Hc Hf om w. rewrite bind_run. specialize (Hc om w).
  destruct (c om w) as [x w1|e w1]; simpl in Hc; [|done].
  rewrite <- Hc. apply Hf.
Qed.

Lemma quiet_fp_check cells : quiet (fp_check cells).
Proof.
  intros om w. unfold fp_check.
  destruct (existsb invalid_cell cells); [reflexivity|].
  destruct (existsb infinite_cell cells); reflexivity.
Qed.

Lemma quiet_normalize_rows a : quiet (normalize_rows a).
Proof.
  unfold normalize_rows, divide_rows. apply quiet_bind; [apply quiet_fp_check|].
  intros _. apply quiet_ret.
Qed.

Create HintDb quiet.
#[global] Hint Resolve quiet_ret quiet_raise quiet_attr quiet_attr_opt quiet_assign
  quiet_subscript quiet_same_shape quiet_fp_check quiet_normalize_rows : quiet.

Ltac quiet := repeat (first [ apply quiet_bind; [|intros ?] | solve [auto with quiet] ]).

(** ** Gamma shapes of the A step *)

Lemma qcell_add_diag L (k : Q) (data : matrix) i j :
  is_square L data -> (i < L)%nat -> (j < L)%nat ->
  qcell (add_diag k data) i j = qcell data i j + (if (i =? j)%nat then k * 1 else 0).
Proof.
  intros Hsq Hi Hj. unfold qcell, add_diag.
  destruct (is_square_lookup L data i Hsq Hi) as (row & Hrow & Hlen).
  destruct (lookup_lt_is_Some_2 row j) as [x Hx]; [lia|].
  rewrite list_lookup_imap, Hrow. simpl. rewrite list_lookup_imap, Hx. reflexivity.
Qed.

Lemma add_diag_square L (k : Q) (data : matrix) :
  is_square L data -> is_square L (add_diag k data).
Proof.
  intros [Hlen Hall]. unfold add_diag. split; [by rewrite length_imap|].
  rewrite Forall_lookup. intros i row. rewrite list_lookup_imap.
  destruct (data !! i) as [row'|] eqn:Hrow; simpl; [|done]. intros [= <-].
  rewrite length_imap. rewrite Forall_lookup in Hall. by eapply Hall.
Qed.

(** The shape the base A step asks Gamma variates for. *)
Lemma base_shape_cell L (a : Q) (b : vec) (data : matrix) i j :
  is_square L data -> length b = L -> (i < L)%nat -> (j < L)%nat ->
  qcell ((fun row => zip_with (fun p x => p + x + (1 # 100))
                              ((fun x => a * x) <$> b) row) <$> data) i j =
  a * vcell b j + qcell data i j + (1 # 100).
Proof.
  intros Hsq Hb Hi Hj. unfold qcell, vcell.
  destruct (is_square_lookup L data i Hsq Hi) as (row & Hrow & Hlen).
  destruct (lookup_lt_is_Some_2 row j) as [x Hx]; [lia|].
  destruct (lookup_lt_is_Some_2 b j) as [y Hy]; [lia|].
  rewrite list_lookup_fmap, Hrow. simpl.
  rewrite lookup_zip_with, list_lookup_fmap, Hy, Hx. reflexivity.
Qed.

Lemma base_shape_square L (a : Q) (b : vec) (data : matrix) :
  is_square L data -> length b = L ->
  is_square L ((fun row => zip_with (fun p x => p + x + (1 # 100))
                                    ((fun x => a * x) <$> b) row) <$> data).
Proof.
  intros [Hlen Hall] Hb. split; [by rewrite length_fmap|].
  apply Forall_fmap. eapply Forall_impl; [exact Hall|]. intros row Hrow.
  simpl in *. rewrite length_zip_with, length_fmap. lia.
Qed.

Lemma forallb_lengths L (ab : vec) (data : matrix) :
  is_square L data -> length ab = L ->
  forallb (fun row : vec => (length row =? length ab)%nat) data = true.
Proof.
  intros [_ Hall] Hab. apply Is_true_true, forallb_True.
  eapply Forall_impl; [exact Hall|]. intros row Hrow.
  apply Is_true_true, Nat.eqb_eq. simpl in Hrow. lia.
Qed.

(** The base A step: one Gamma draw, then no other. *)
Lemma base_resample_A_drawn L rest (data : matrix) (b : vec) om w :
  beta (self w) = Some b -> length b = L -> is_square L data ->
  drawn (world_of (_resample_A (HDPHMMTransitions :: rest) data om w)) =
  drawn w ++
    [gamma_rvs ((fun row => zip_with (fun p x => p + x + (1 # 100))
                                     ((fun x => alpha (self w) * x) <$> b) row) <$> data)].
Proof.
  intros Hb Hlen Hsq. cbn [_resample_A].
  rewrite bind_attr, (bind_attr_opt _ _ _ _ b Hb).
  rewrite bind_same_shape
    by (apply (forallb_lengths L); [done|by rewrite length_fmap]).
  rewrite bind_run. unfold sample at 1.
  destruct (om (length (drawn w)) _) as [v|e]; [|reflexivity].
  match goal with
  | |- drawn (world_of (?c om ?w1)) = _ =>
      assert (Hq : quiet c) by quiet; rewrite (Hq om w1)
  end.
  reflexivity.
Qed.

Lemma square_length {T} n (a : list (list T)) :
  is_square n a -> square (length a) a = true.
Proof.
  intros [Hl Ha]. apply square_true. split; [reflexivity|]. by rewrite Hl.
Qed.

Lemma resample_A_sticky super data om w :
  _resample_A (StickyHDPHMMTransitions :: super) data om w =
  (attr kappa ≫= fun k =>
     same_shape (square (length data) data);;
     _resample_A super (add_diag k data)) om w.
Proof. reflexivity. Qed.

Lemma resample_A_sticky_ltr super data om w :
  _resample_A (StickyLTRHDPHMMTransitions :: super) data om w =
  (attr kappa ≫= fun k =>
     same_shape (square (length data) data);;
     _resample_A super (add_diag k data)) om w.
Proof. reflexivity. Qed.

Lemma resample_A_ltr super data om w :
  _resample_A (LTRHDPHMMTransitions :: super) data om w =
  (_resample_A super data;;
   a0 ← attr_opt A;
   assign (set_fullA a0);;
   a1 ← normalize_rows (triu 0 a0);
   assign (set_A a1)) om w.
Proof. reflexivity. Qed.

Lemma resample_A_hsmm super data om w :
  _resample_A (HDPHSMMTransitions :: super) data om w =
  (_resample_A super data;;
   a0 ← attr_opt A;
   assign (set_fullA a0);;
   assign (set_A (zero_flat_stride a0));;
   a1 ← attr_opt A;
   a2 ← normalize_rows a1;
   assign (set_A a2)) om w.
Proof. reflexivity. Qed.

Lemma drawn_bind_quiet {T U} (c : M T) (f : T -> M U) om w :
  (forall x, quiet (f x)) ->
  drawn (world_of ((c ≫= f) om w)) = drawn (world_of (c om w)).
Proof.
  intros Hf. rewrite bind_run. destruct (c om w) as [x w1|e w1]; [|reflexivity].
  apply Hf.
Qed.

(** The sticky class adds kappa to the diagonal once. *)
Lemma sticky_gamma_shape (data : matrix) (b : vec) om w L :
  beta (self w) = Some b -> length b = L -> is_square L data ->
  exists shape, is_square L shape /\
    drawn (world_of (_resample_A (mro StickyHDPHMMTransitions) data om w)) =
      drawn w ++ [gamma_rvs shape] /\
    forall i j, (i < L)%nat -> (j < L)%nat ->
      qcell shape i j ==
      alpha (self w) * vcell b j + qcell data i j +
      (if decide (i = j) then kappa (self w) else 0) + (1 # 100).
Proof.
  intros Hb Hlen Hsq.
  set (d1 := add_diag (kappa (self w)) data).
  assert (Hsq1 : is_square L d1) by (by apply add_diag_square).
  eexists. split; [|split].
  - apply (base_shape_square L (alpha (self w)) b d1); done.
  - cbn [mro]. rewrite resample_A_sticky, bind_attr.
    rewrite bind_same_shape by (by eapply square_length).
    apply (base_resample_A_drawn L); done.
  - intros i j Hi Hj. rewrite (base_shape_cell L) by done.
    unfold d1. rewrite (qcell_add_diag L) by done.
    destruct (Nat.eqb_spec i j); destruct (decide (i = j)); try done; ring.
Qed.

(** C4: in the sticky left-to-right class the A step asks for Gamma variates
    before the left-to-right step assigns fullA and triangularizes, and the
    shape it asks for has kappa on the diagonal twice: cell (i, j) is
    alpha*beta[j] + data[i][j] + 2*kappa*[i=j] + 1e-2, because the override of
    the class adds kappa and the sticky method that [super] reaches after the
    left-to-right one adds it again. *)
Theorem C4_sticky_ltr_gamma_shape
    (data : matrix) (b : vec) (om : oracle) (w : world) (L : nat) :
  beta (self w) = Some b -> length b = L -> is_square L data ->
  exists shape, is_square L shape /\
    drawn (world_of (_resample_A (mro StickyLTRHDPHMMTransitions) data om w)) =
      drawn w ++ [gamma_rvs shape] /\
    forall i j, (i < L)%nat -> (j < L)%nat ->
      qcell shape i j ==
      alpha (self w) * vcell b j + qcell data i j +
      (if decide (i = j) then 2 * kappa (self w) else 0) + (1 # 100).
Proof.
  intros Hb Hlen Hsq.
  set (d1 := add_diag (kappa (self w)) data).
  set (d2 := add_diag (kappa (self w)) d1).
  assert (Hsq1 : is_square L d1) by (by apply add_diag_square).
  assert (Hsq2 : is_square L d2) by (by apply add_diag_square).
  eexists. split; [|split].
  - apply (base_shape_square L (alpha (self w)) b d2); done.
  - cbn [mro]. rewrite resample_A_sticky_ltr, bind_attr.
    rewrite bind_same_shape by (by eapply square_length).
    fold d1. rewrite resample_A_ltr.
    rewrite drawn_bind_quiet by (intros; quiet).
    rewrite resample_A_sticky, bind_attr.
    rewrite bind_same_shape by (by eapply square_length).
    fold d2. apply (base_resample_A_drawn L); done.
  - intros i j Hi Hj. rewrite (base_shape_cell L) by done.
    unfold d2. rewrite (qcell_add_diag L) by done.
    unfold d1. rewrite (qcell_add_diag L) by done.
    destruct (Nat.eqb_spec i j); destruct (decide (i = j)); try done; ring.
Qed.

(** ** The sticky class with concentration resampling *)

Lemma bind_attr_opt_inv {T U} (g : object -> option T) (f : T -> M U) om w y w' :
  (attr_opt g ≫= f) om w = Ok y w' ->
  exists x, g (self w) = Some x /\ f x om w = Ok y w'.
Proof.
  rewrite bind_run. unfold attr_opt. destruct (g (self w)) as [x|]; [eauto|discriminate].
Qed.

Lemma bind_sample_inv {U} d (f : variate -> M U) om w y w' :
  (sample d ≫= f) om w = Ok y w' ->
  exists v, om (length (drawn w)) d = Value v /\
            f v om (mkWorld (self w) (drawn w ++ [d])) = Ok y w'.
Proof.
  rewrite bind_run. unfold sample.
  destruct (om (length (drawn w)) d) as [v|e]; [eauto|discriminate].
Qed.

Lemma bind_same_shape_inv {U} b (f : unit -> M U) om w y w' :
  (same_shape b ≫= f) om w = Ok y w' -> b = true /\ f tt om w = Ok y w'.
Proof. destruct b; [eauto|discriminate]. Qed.

(** After the concentration resampler, alpha and gamma are the two
    concentrations times the number of states. *)
Lemma ConcentrationResampling_resample_result om w w' :
  ConcentrationResampling_resample om w = Ok tt w' ->
  alpha (self w') = concentration (alpha_obj (self w')) * Q_of_nat (state_dim (self w')) /\
  gamma (self w') = concentration (gamma_obj (self w')) * Q_of_nat (state_dim (self w')) /\
  m (self w') = m (self w) /\ newm (self w') = newm (self w) /\
  rho_a_0 (self w') = rho_a_0 (self w) /\ rho_b_0 (self w') = rho_b_0 (self w) /\
  state_dim (self w') = state_dim (self w) /\ beta (self w') = beta (self w) /\
  A (self w') = A (self w) /\ fullA (self w') = fullA (self w).
Proof.
  unfold ConcentrationResampling_resample, DirGamma_resample_method. intros H.
  rewrite bind_attr in H.
  apply bind_attr_opt_inv in H as (tc & Htc & H).
  apply bind_attr_opt_inv in H as (b & Hb & H).
  rewrite bind_assoc in H. apply bind_sample_inv in H as (v1 & Hv1 & H).
  rewrite bind_ret, bind_assign, bind_attr, bind_attr, bind_assign, bind_attr in H.
  apply bind_attr_opt_inv in H as (mm & Hmm & H).
  rewrite bind_assoc in H. apply bind_sample_inv in H as (v2 & Hv2 & H).
  rewrite bind_ret, bind_assign, bind_attr, bind_attr, assign_run in H.
  injection H as <-. simpl. repeat split; reflexivity.
Qed.

(** C1: what a completed resample of the sticky class with concentration
    resampling leaves behind.  Its last draw is rho, from a Beta with
    parameters rho_a_0 + sum(m - newm) and rho_b_0 + sum(newm) over the m and
    newm of the object; kappa is then rho*concentration*L for that rho; but
    alpha stays what the concentration resampler assigned, concentration*L,
    and is not multiplied by 1 - rho. *)
Theorem C1_sticky_conc_resample_result
    (states_list : list (list Z)) (om : oracle) (w w' : world) :
  resample StickyHDPHMMTransitionsConcResampling
           (mro StickyHDPHMMTransitionsConcResampling) states_list om w = Ok tt w' ->
  exists mm nm v dr,
    m (self w') = Some mm /\ newm (self w') = Some nm /\
    drawn w' =
      dr ++ [beta_rv (rho_a_0 (self w') + inject_Z (isum_all (sub_int32 mm nm)))
                     (rho_b_0 (self w') + inject_Z (isum_all nm))] /\
    om (length dr)
       (beta_rv (rho_a_0 (self w') + inject_Z (isum_all (sub_int32 mm nm)))
                (rho_b_0 (self w') + inject_Z (isum_all nm))) = Value v /\
    rho (self w') = float_of v /\
    kappa (self w') =
      rho (self w') * concentration (alpha_obj (self w')) * Q_of_nat (state_dim (self w')) /\
    alpha (self w') =
      concentration (alpha_obj (self w')) * Q_of_nat (state_dim (self w')).
Proof.
  cbn [mro resample]. intros H.
  apply bind_inv in H as ([] & w1 & _ & H).
  apply bind_inv in H as ([] & w2 & Hconc & H).
  apply ConcentrationResampling_resample_result in Hconc
    as (Halpha & _ & _ & _ & _ & _ & _ & _ & _ & _).
  rewrite bind_attr in H.
  apply bind_attr_opt_inv in H as (mm & Hmm & H).
  apply bind_attr_opt_inv in H as (nm & Hnm & H).
  apply bind_same_shape_inv in H as [_ H].
  rewrite bind_attr in H.
  apply bind_attr_opt_inv in H as (nm' & Hnm' & H).
  assert (nm' = nm) by congruence. subst nm'.
  apply bind_sample_inv in H as (v & Hv & H).
  rewrite bind_assign, bind_attr, bind_attr, bind_attr, assign_run in H.
  injection H as <-. exists mm, nm, v, (drawn w2). simpl.
  repeat split; try done.
Qed.

(** ** Table counts *)

Lemma concat_lookup {T} n (l : list (list T)) i j :
  Forall (fun row => length row = n) l -> (j < n)%nat ->
  concat l !! (i * n + j)%nat = l !! i ≫= fun row => row !! j.
Proof.
  intros Hall Hj. revert i. induction Hall as [|row l Hrow Hall IH]; intros i.
  - simpl. by rewrite !lookup_nil.
  - destruct i as [|i]; simpl.
    + rewrite lookup_app_l by lia. reflexivity.
    + rewrite lookup_app_r by lia.
      replace (n + i * n + j - length row)%nat with (i * n + j)%nat by lia.
      apply IH.
Qed.

Lemma concat_length {T} n (l : list (list T)) :
  Forall (fun row => length row = n) l -> length (concat l) = (length l * n)%nat.
Proof. induction 1 as [|row l Hrow Hall IH]; simpl; [done|]. rewrite length_app. lia. Qed.

Lemma ndenumerate_rows L (tc : imatrix) :
  is_square L tc ->
  Forall (fun row => length row = L)
         (imap (fun i (row : ivec) => imap (fun j x => (i, j, x)) row) tc).
Proof.
  intros [Hlen Hall]. rewrite Forall_lookup. intros i cells.
  rewrite list_lookup_imap. destruct (tc !! i) as [row|] eqn:Hrow; simpl; [|done].
  intros [= <-]. rewrite length_imap. rewrite Forall_lookup in Hall. by eapply Hall.
Qed.

Lemma ndenumerate_length L (tc : imatrix) :
  is_square L tc -> length (ndenumerate tc) = (L * L)%nat.
Proof.
  intros Hsq. unfold ndenumerate.
  rewrite (concat_length L) by (by apply ndenumerate_rows).
  rewrite length_imap. by destruct Hsq as [-> _].
Qed.

Lemma ndenumerate_lookup L (tc : imatrix) i j :
  is_square L tc -> (i < L)%nat -> (j < L)%nat ->
  ndenumerate tc !! (i * L + j)%nat = Some (i, j, icell tc i j).
Proof.
  intros Hsq Hi Hj. unfold ndenumerate.
  rewrite (concat_lookup L) by (done || by apply ndenumerate_rows).
  destruct (is_square_lookup L tc i Hsq Hi) as (row & Hrow & Hlen).
  destruct (lookup_lt_is_Some_2 row j) as [x Hx]; [lia|].
  rewrite list_lookup_imap, Hrow. simpl. rewrite list_lookup_imap, Hx. simpl.
  unfold icell. rewrite Hrow. simpl. rewrite Hx. reflexivity.
Qed.

Lemma foldM_index {T U} (f : U -> T -> M U) om (l : list T) :
  forall (P : nat -> U -> world -> Prop),
  (forall k x acc w, l !! k = Some x -> P k acc w ->
     exists acc' w', f acc x om w = Ok acc' w' /\ P (S k) acc' w') ->
  forall acc w, P 0%nat acc w ->
  exists acc' w', foldM f l acc om w = Ok acc' w' /\ P (length l) acc' w'.
Proof.
  induction l as [|x l IH]; intros P Hstep acc w H0.
  - exists acc, w. split; [reflexivity|exact H0].
  - destruct (Hstep 0%nat x acc w eq_refl H0) as (acc1 & w1 & Hrun & H1).
    destruct (IH (fun k => P (S k))) with (acc := acc1) (w := w1)
      as (acc' & w' & Hrun' & H'); [|exact H1|].
    + intros k y a v Hk HP. apply (Hstep (S k) y a v Hk HP).
    + exists acc', w'. split; [|exact H'].
      simpl. rewrite (bind_ok _ _ _ _ _ _ Hrun). exact Hrun'.
Qed.

Lemma zip_with_replicate_l {X Y Z0} (f : X -> Y -> Z0) (c : X) (l : list Y) :
  zip_with f (replicate (length l) c) l = f c <$> l.
Proof. induction l as [|y l IH]; simpl; [done|]. by rewrite IH. Qed.

Lemma zsum_indicator {T} (t : T -> bool) (l : list T) :
  zsum ((fun k => if t k then 1%Z else 0%Z) <$> l) =
  Z.of_nat (length (filter (fun k => t k = true) l)).
Proof.
  induction l as [|k l IH]; [reflexivity|].
  rewrite fmap_cons, filter_cons. simpl zsum. rewrite IH.
  destruct (t k); simpl; lia.
Qed.

(** The count the loop body stores is the number of successes among the
    trials of its cell. *)
Lemma successes_bernoulli (u : variate) (ab : Q) (n : nat) :
  successes (floats_of u n)
            (zip_with Qdiv (replicate n ab) ((fun k => k + ab) <$> arange n)) =
  bernoulli_successes (floats u 0%nat) (fun k => ab / (Q_of_nat k + ab)) n.
Proof.
  unfold successes, bernoulli_successes, floats_of, arange.
  rewrite <- list_fmap_compose.
  replace n with (length ((fun k => Q_of_nat k + ab) <$> seq 0 n)) at 2
    by (by rewrite length_fmap, length_seq).
  rewrite zip_with_replicate_l, <- list_fmap_compose.
  rewrite zip_with_fmap_l, zip_with_fmap_r, zip_with_diag, <- list_fmap_compose.
  apply (zsum_indicator (fun k => Qltb (floats u 0%nat k) (ab / (Q_of_nat k + ab)))).
Qed.

Lemma bernoulli_successes_bounds u p n :
  (0 <= bernoulli_successes u p n <= Z.of_nat n)%Z.
Proof.
  unfold bernoulli_successes.
  pose proof (length_filter (fun k => Qltb (u k) (p k) = true) (seq 0 n)) as H.
  rewrite length_seq in H. lia.
Qed.

Lemma divide_cells_ok (x d : vec) om w :
  Forall (fun y => ~ y == 0) d -> divide_cells x d om w = Ok (zip_with Qdiv x d) w.
Proof.
  intros H. unfold divide_cells. rewrite (bind_ok _ _ _ _ tt w); [reflexivity|].
  apply fp_check_ok. rewrite Forall_forall. intros [y z] Hin. simpl.
  rewrite Forall_forall in H. apply H. by eapply elem_of_zip_r.
Qed.

Lemma Q_of_nat_nonneg k : 0 <= Q_of_nat k.
Proof. unfold Q_of_nat. change 0 with (inject_Z 0). rewrite <- Zle_Qle. lia. Qed.

Lemma get_m_cell_run L (mm : imatrix) i j val (b : vec) om w :
  is_square L mm -> (i < L)%nat -> (j < L)%nat -> (0 <= val < 2 ^ 31)%Z ->
  beta (self w) = Some b -> length b = L ->
  0 < alpha (self w) -> Forall (fun x => 0 < x) b -> answers_all om ->
  exists u row,
    om (length (drawn w)) (rand val) = Value u /\ mm !! i = Some row /\
    get_m_cell mm (i, j, val) om w =
      Ok (<[i := <[j := bernoulli_successes (floats u 0%nat)
                      (fun k => alpha (self w) * vcell b j /
                                (Q_of_nat k + alpha (self w) * vcell b j))
                      (Z.to_nat val)]> row]> mm)
         (mkWorld (self w) (drawn w ++ [rand val])).
Proof.
  intros Hsq Hi Hj Hval Hb Hlen Ha Hbpos Hom.
  destruct (Hom (length (drawn w)) (rand val)) as [u Hu].
  destruct (is_square_lookup L mm i Hsq Hi) as (row & Hrow & Hrlen).
  destruct (lookup_lt_is_Some_2 row j) as [x Hx]; [lia|].
  destruct (lookup_lt_is_Some_2 b j) as [b_j Hbj]; [lia|].
  assert (Hbj0 : 0 < b_j).
  { rewrite Forall_lookup in Hbpos. by eapply Hbpos. }
  exists u, row. split; [done|]. split; [done|].
  unfold get_m_cell.
  rewrite (bind_ok _ _ _ _ _ _ (sample_value _ _ _ _ Hu)).
  rewrite bind_attr. simpl self.
  rewrite (bind_attr_opt _ _ _ _ b) by exact Hb.
  rewrite (bind_subscript _ _ _ _ b_j Hbj).
  assert (Hden : Forall (fun y => ~ y == 0)
            ((fun k => k + alpha (self w) * b_j) <$> arange (Z.to_nat val))).
  { apply Forall_fmap, Forall_fmap, Forall_true. intros k. simpl.
    pose proof (Q_of_nat_nonneg k).
    assert (0 < alpha (self w) * b_j) by (apply Qmult_lt_0_compat; done).
    lra. }
  rewrite (bind_ok _ _ _ _ _ _ (divide_cells_ok _ _ _ _ Hden)).
  rewrite (bind_subscript _ _ _ _ row Hrow), (bind_subscript _ _ _ _ x Hx).
  rewrite ret_run. unfold vcell. rewrite Hbj. simpl default.
  rewrite successes_bernoulli, wrap32_small; [reflexivity|].
  pose proof (bernoulli_successes_bounds (floats u 0%nat)
    (fun k => alpha (self w) * b_j / (Q_of_nat k + alpha (self w) * b_j))
    (Z.to_nat val)).
  unfold int32. lia.
Qed.

Lemma linear_index_unique L i j i' j' :
  (j < L)%nat -> (j' < L)%nat -> (i * L + j = i' * L + j')%nat -> i = i' /\ j = j'.
Proof.
  intros Hj Hj' H.
  assert (Hi : i = i').
  { destruct (Nat.lt_trichotomy i i') as [Hlt|[Heq|Hgt]]; [exfalso|done|exfalso].
    - assert ((i + 1) * L <= i' * L)%nat by (apply Nat.mul_le_mono_r; lia). lia.
    - assert ((i' + 1) * L <= i * L)%nat by (apply Nat.mul_le_mono_r; lia). lia. }
  subst i'. split; [done|lia].
Qed.

(** C7: the table counts are computed cell by cell.  When every count is 0
    no draw is made and m is the zero matrix.  Otherwise every cell gets its
    own uniform variates, as many as its count n, and m[i][j] is the number
    of successes among the n trials they decide, trial k (k = 0..n-1) having
    success probability alpha*beta[j] / (k + alpha*beta[j]); a cell with
    n = 0 gets 0. *)
Theorem C7_table_counts_cell_by_cell
    (tc : imatrix) (om : oracle) (w : world) (L : nat) :
  state_dim (self w) = L ->
  (all_zero tc = true ->
     _get_m tc om w =
       Ok (zeros L L) (mkWorld (set_m (zeros L L) (self w)) (drawn w))) /\
  (all_zero tc = false ->
     forall b, beta (self w) = Some b -> length b = L -> counts_array L tc ->
     0 < alpha (self w) -> Forall (fun x => 0 < x) b -> answers_all om ->
     exists mm dr,
       _get_m tc om w = Ok mm (mkWorld (set_m mm (self w)) dr) /\
       is_square L mm /\
       length dr = (length (drawn w) + L * L)%nat /\
       forall i j, (i < L)%nat -> (j < L)%nat ->
         table_count_cell om (alpha (self w)) b tc mm dr (length (drawn w)) L i j /\
         (icell tc i j = 0%Z -> icell mm i j = 0%Z)).
Proof.
  intros HL. split.
  - intros Hz. unfold _get_m. rewrite bind_attr, HL, Hz. reflexivity.
  - intros Hnz b Hb Hlen Htc Ha Hbpos Hom. pose proof Htc as [Hsq _].
    set (start := length (drawn w)).
    set (P := fun (k : nat) (mm : imatrix) (w' : world) =>
      self w' = self w /\ is_square L mm /\
      length (drawn w') = (start + k)%nat /\
      forall i j, (i < L)%nat -> (j < L)%nat ->
        ((i * L + j < k)%nat ->
           table_count_cell om (alpha (self w)) b tc mm (drawn w') start L i j) /\
        ((k <= i * L + j)%nat -> icell mm i j = 0%Z)).
    destruct (foldM_index get_m_cell om (ndenumerate tc) P) with
      (acc := zeros L L) (w := w) as (mm & w' & Hrun & Hself & Hsqm & Hdr & Hcells).
    + intros k x mm w' Hk (Hself & Hsqm & Hdr & Hcells).
      assert (HkL : (k < L * L)%nat).
      { apply lookup_lt_Some in Hk. by rewrite (ndenumerate_length L) in Hk. }
      assert (HLpos : (0 < L)%nat) by nia.
      set (i0 := (k / L)%nat). set (j0 := (k mod L)%nat).
      assert (Hj0 : (j0 < L)%nat) by (apply Nat.mod_upper_bound; lia).
      assert (Hk0 : k = (i0 * L + j0)%nat).
      { unfold i0, j0. pose proof (Nat.div_mod_eq k L). lia. }
      assert (Hi0 : (i0 < L)%nat) by nia.
      rewrite Hk0, (ndenumerate_lookup L tc i0 j0 Hsq Hi0 Hj0) in Hk.
      injection Hk as <-.
      destruct (get_m_cell_run L mm i0 j0 (icell tc i0 j0) b om w')
        as (u & row & Hu & Hrow & Hstep); try done.
      { by apply (counts_array_icell L). }
      { by rewrite Hself. }
      { by rewrite Hself. }
      rewrite Hself in Hstep.
      eexists. eexists. split; [exact Hstep|].
      split; [reflexivity|]. split; [|split].
      * apply is_square_insert; [done|]. rewrite length_insert.
        destruct Hsqm as [_ Hall]. rewrite Forall_lookup in Hall. by eapply Hall.
      * simpl. rewrite length_app. simpl. lia.
      * intros i j Hi Hj. rewrite (icell_insert L) by done. split.
        -- intros Hlt. destruct (decide (i = i0 /\ j = j0)) as [[-> ->]|Hne].
           ++ exists u. simpl drawn. rewrite Hdr in Hu.
              replace (start + i0 * L + j0)%nat with (length (drawn w')) by lia.
              split; [|split].
              ** rewrite lookup_app_r by lia. by rewrite Nat.sub_diag.
              ** rewrite Hdr. exact Hu.
              ** rewrite (icell_insert L) by done. by rewrite decide_True.
           ++ assert (Hlt' : (i * L + j < k)%nat).
              { destruct (decide (i * L + j = k)%nat) as [Heq|]; [|lia].
                exfalso. apply Hne. apply (linear_index_unique L); [done|done|lia]. }
              destruct (proj1 (Hcells i j Hi Hj) Hlt') as (u' & H1 & H2 & H3).
              exists u'. simpl drawn. split; [|split; [done|]].
              ** rewrite lookup_app_l; [done|]. by apply lookup_lt_Some in H1.
              ** rewrite (icell_insert L) by done. by rewrite decide_False.
        -- intros Hge. rewrite decide_False by (intros [-> ->]; lia).
           apply (Hcells i j Hi Hj). lia.
    + split; [done|]. split; [apply zeros_square|]. split; [unfold start; lia|].
      intros i j Hi Hj. split; [lia|]. intros _. apply icell_zeros.
    + rewrite (ndenumerate_length L) in Hdr, Hcells by done.
      exists mm, (drawn w'). split; [|split; [done|split; [done|]]].
      * unfold _get_m. rewrite bind_attr, HL, Hnz. simpl negb. cbv iota.
        rewrite (bind_ok _ _ _ _ _ _ Hrun), bind_assign, ret_run, Hself.
        reflexivity.
      * intros i j Hi Hj.
        assert (Hcell : table_count_cell om (alpha (self w)) b tc mm (drawn w') start L i j).
        { apply (Hcells i j Hi Hj). nia. }
        split; [exact Hcell|]. intros Hzero.
        destruct Hcell as (u & _ & _ & ->). rewrite Hzero. reflexivity.
Qed.

(** ** Attributes a computation leaves alone *)

Section Preserves.
Context {T : Type} (g : object -> T).

Lemma preserves_ret {U} (x : U) : preserves g (mret x).
Proof. intros om w. reflexivity. Qed.

Lemma preserves_raise {U} e : preserves g (raise e : M U).
Proof. intros om w. reflexivity. Qed.

Lemma preserves_attr {U} (f : object -> U) : preserves g (attr f).
Proof. intros om w. reflexivity. Qed.

Lemma preserves_attr_opt {U} (f : object -> option U) : preserves g (attr_opt f).
Proof. intros om w. unfold attr_opt. by destruct (f (self w)). Qed.

Lemma preserves_subscript {U} (o : option U) : preserves g (subscript o).
Proof. intros om w. by destruct o. Qed.

Lemma preserves_same_shape b : preserves g (same_shape b).
Proof. intros om w. by destruct b. Qed.

Lemma preserves_sample d : preserves g (sample d).
Proof. intros om w. unfold sample. by destruct (om _ _). Qed.

Lemma preserves_assign upd :
  (forall o, g (upd o) = g o) -> preserves g (assign upd).
Proof. intros H om w. simpl. apply H. Qed.

Lemma preserves_bind {U V} (c : M U) (f : U -> M V) :
  preserves g c -> (forall x, preserves g (f x)) -> preserves g (c ≫= f).
Proof.
  intros Hc Hf om w. rewrite bind_run. specialize (Hc om w).
  destruct (c om w) as [x w1|e w1]; simpl in Hc; [|done].
  rewrite <- Hc. apply Hf.
Qed.

Lemma preserves_fp_check cells : preserves g (fp_check cells).
Proof.
  intros om w. unfold fp_check.
  destruct (existsb invalid_cell cells); [reflexivity|].
  destruct (existsb infinite_cell cells); reflexivity.
Qed.

Lemma preserves_foldM {U V} (f : V -> U -> M V) (l : list U) :
  (forall acc x, preserves g (f acc x)) -> forall acc, preserves g (foldM f l acc).
Proof.
  intros Hf. induction l as [|x l IH]; intros acc; simpl.
  - apply preserves_ret.
  - apply preserves_bind; [apply Hf|]. intros acc'. apply IH.
Qed.

Lemma preserves_comprehension {U V} (f : U -> M V) (l : list U) :
  (forall x, preserves g (f x)) -> preserves g (comprehension f l).
Proof.
  intros Hf. induction l as [|x l IH]; simpl.
  - apply preserves_ret.
  - apply preserves_bind; [apply Hf|]. intros y.
    apply preserves_bind; [apply IH|]. intros ys. apply preserves_ret.
Qed.
End Preserves.

Ltac preserves_step :=
  first
    [ apply preserves_ret | apply preserves_raise | apply preserves_attr
    | apply preserves_attr_opt | apply preserves_subscript
    | apply preserves_same_shape | apply preserves_sample
    | apply preserves_fp_check
    | apply preserves_assign; intros ?; reflexivity
    | apply preserves_bind; [|intros ?]
    | apply preserves_foldM; intros ? ?
    | apply preserves_comprehension; intros ?
    | match goal with
      | |- preserves _ (if ?b then _ else _) => destruct b
      | |- preserves _ (match ?x with _ => _ end) => destruct x
      | |- preserves _ (let '(_, _) := ?x in _) => destruct x
      end ].

Ltac preserves :=
  repeat first
    [ preserves_step
    | progress unfold count_states, count_pair, store_prefix, ltr_augment_row,
        self_transition, get_m_cell, divide, divide_cells, divide_rows,
        normalize_rows, DirGamma_resample_method ].

Lemma count_transitions_state_dim c states_list :
  preserves state_dim (_count_transitions (mro c) states_list).
Proof. destruct c; cbn [mro _count_transitions]; preserves. Qed.

Lemma augment_data_state_dim tc : preserves state_dim (_augment_data tc).
Proof. unfold _augment_data. preserves. Qed.

Lemma get_m_state_dim tc : preserves state_dim (_get_m tc).
Proof. unfold _get_m. preserves. Qed.

Lemma resample_beta_state_dim c mm : preserves state_dim (_resample_beta (mro c) mm).
Proof. destruct c; cbn [mro _resample_beta]; preserves. Qed.

Lemma resample_A_state_dim c data : preserves state_dim (_resample_A (mro c) data).
Proof. destruct c; cbn [mro _resample_A]; preserves. Qed.

Lemma resample_A_beta c data : preserves beta (_resample_A (mro c) data).
Proof. destruct c; cbn [mro _resample_A]; preserves. Qed.

(** ** Shapes of the arrays of a sweep *)

Lemma bind_subscript_inv {T U} (o : option T) (f : T -> M U) om w y w' :
  (subscript o ≫= f) om w = Ok y w' -> exists x, o = Some x /\ f x om w = Ok y w'.
Proof. destruct o as [x|]; [eauto|discriminate]. Qed.

Lemma ret_inv {T} (x y : T) om w w' : (mret x : M T) om w = Ok y w' -> y = x /\ w' = w.
Proof. intros [= -> ->]. done. Qed.

Lemma foldM_ok_invariant {T U} (f : U -> T -> M U) om (I : U -> Prop) :
  (forall acc x w acc' w', f acc x om w = Ok acc' w' -> I acc -> I acc') ->
  forall l acc w acc' w', foldM f l acc om w = Ok acc' w' -> I acc -> I acc'.
Proof.
  intros Hf. induction l as [|x l IH]; intros acc w acc' w' H HI.
  - inversion H; subst. exact HI.
  - simpl in H. apply bind_inv in H as (acc1 & w1 & H1 & H).
    eapply IH; [exact H|]. eapply Hf; [exact H1|exact HI].
Qed.

Lemma is_square_row {T} n (a : list (list T)) i row :
  is_square n a -> a !! i = Some row -> length row = n.
Proof. intros [_ Hall] Hrow. rewrite Forall_lookup in Hall. by eapply Hall. Qed.

Lemma count_pair_shape L (a a' : imatrix) p om w w' :
  count_pair a p om w = Ok a' w' -> is_square L a -> is_square L a'.
Proof.
  unfold count_pair. intros H Hsq.
  apply bind_subscript_inv in H as (r & _ & H).
  apply bind_subscript_inv in H as (row & Hrow & H).
  apply bind_subscript_inv in H as (c & _ & H).
  apply bind_subscript_inv in H as (x & _ & H).
  apply ret_inv in H as [-> _].
  apply is_square_insert; [done|]. rewrite length_insert. by eapply is_square_row.
Qed.

Lemma count_states_shape L (a a' : imatrix) states om w w' :
  count_states a states om w = Ok a' w' -> is_square L a -> is_square L a'.
Proof.
  rewrite count_states_run. apply foldM_ok_invariant.
  intros acc x w0 acc' w0'. apply count_pair_shape.
Qed.

Lemma base_count_shape rest states_list om w tc w' :
  _count_transitions (HDPHMMTransitions :: rest) states_list om w = Ok tc w' ->
  is_square (state_dim (self w)) tc.
Proof.
  cbn [_count_transitions]. rewrite bind_attr. intros H.
  apply bind_inv in H as (tc0 & w1 & H1 & H).
  rewrite bind_assign in H. apply ret_inv in H as [-> _].
  eapply (foldM_ok_invariant count_states om); [|exact H1|apply zeros_square].
  intros acc x w0 acc' w0'. apply count_states_shape.
Qed.

Lemma ltr_augment_row_shape L full totalfrom totalweight (tc tc' : imatrix) i om w w' :
  ltr_augment_row full totalfrom totalweight tc i om w = Ok tc' w' ->
  is_square L tc -> is_square L tc'.
Proof.
  unfold ltr_augment_row, store_prefix. intros H Hsq.
  apply bind_subscript_inv in H as (w_i & _ & H).
  apply bind_subscript_inv in H as (f_i & _ & H).
  apply bind_sample_inv in H as (g & _ & H).
  apply bind_subscript_inv in H as (frow & _ & H).
  apply bind_inv in H as (pvals & w1 & _ & H).
  apply bind_sample_inv in H as (x & _ & H).
  rewrite bind_assoc in H. apply bind_subscript_inv in H as (row & Hrow & H).
  rewrite bind_assoc in H. apply bind_same_shape_inv in H as [Hshape H].
  rewrite bind_ret, bind_assign in H. apply ret_inv in H as [-> _].
  apply is_square_insert; [done|].
  apply Nat.eqb_eq in Hshape.
  rewrite length_app, length_fmap, Hshape, length_take, length_drop.
  pose proof (is_square_row L tc i row Hsq Hrow). lia.
Qed.

Lemma count_transitions_shape c states_list om w tc w' :
  _count_transitions (mro c) states_list om w = Ok tc w' ->
  is_square (state_dim (self w)) tc.
Proof.
  assert (Hltr : ltr_class c ->
            _count_transitions (mro c) states_list om w = Ok tc w' ->
            is_square (state_dim (self w)) tc).
  { intros Hc. rewrite (ltr_count_unfold c _ _ _ Hc).
    destruct (_count_transitions [HDPHMMTransitions] states_list om w)
      as [tc0 w1|e w1] eqn:Hbase; [|discriminate].
    apply base_count_shape in Hbase.
    destruct (all_zero (tril_strict 0%Z tc0)); [|discriminate].
    intros H. apply bind_attr_opt_inv in H as (full & _ & H).
    eapply (foldM_ok_invariant _ om); [|exact H|exact Hbase].
    intros acc x w0 acc' w0'. apply ltr_augment_row_shape. }
  destruct c; try (apply Hltr; (by left) || (by right));
    try exact (base_count_shape [] states_list om w tc w').
  discriminate.
Qed.

Lemma augment_data_shape L (tc aug : imatrix) om w w' :
  _augment_data tc om w = Ok aug w' -> is_square L tc -> is_square L aug.
Proof.
  unfold _augment_data. intros H Hsq.
  apply bind_inv in H as (tc' & w1 & H1 & H).
  rewrite bind_assign in H. apply ret_inv in H as [-> _].
  destruct (0 <? isum_all tc)%Z.
  - apply bind_attr_opt_inv in H1 as (full & _ & H1).
    apply bind_inv in H1 as (ys & w2 & _ & H1).
    apply bind_same_shape_inv in H1 as [_ H1].
    apply ret_inv in H1 as [-> _]. by apply add_diag_int32_square.
  - apply ret_inv in H1 as [-> _]. done.
Qed.

Lemma get_m_cell_shape L (mm mm' : imatrix) cell om w w' :
  get_m_cell mm cell om w = Ok mm' w' -> is_square L mm -> is_square L mm'.
Proof.
  destruct cell as [[i j] val]. unfold get_m_cell. intros H Hsq.
  apply bind_sample_inv in H as (u & _ & H).
  rewrite bind_attr in H.
  apply bind_attr_opt_inv in H as (b & _ & H).
  apply bind_subscript_inv in H as (b_j & _ & H).
  apply bind_inv in H as (pr & w1 & _ & H).
  apply bind_subscript_inv in H as (row & Hrow & H).
  apply bind_subscript_inv in H as (x & _ & H).
  apply ret_inv in H as [-> _].
  apply is_square_insert; [done|]. rewrite length_insert. by eapply is_square_row.
Qed.

Lemma get_m_shape (tc mm : imatrix) om w w' :
  _get_m tc om w = Ok mm w' -> is_square (state_dim (self w)) mm.
Proof.
  unfold _get_m. rewrite bind_attr. intros H.
  apply bind_inv in H as (mm0 & w1 & H1 & H).
  rewrite bind_assign in H. apply ret_inv in H as [-> _].
  destruct (negb (all_zero tc)).
  - eapply (foldM_ok_invariant get_m_cell om); [|exact H1|apply zeros_square].
    intros acc x w0 acc' w0'. apply get_m_cell_shape.
  - apply ret_inv in H1 as [-> _]. apply zeros_square.
Qed.

(** ** The beta step *)

Lemma floats_of_length v n : length (floats_of v n) = n.
Proof. unfold floats_of. by rewrite length_fmap, length_seq. Qed.

Lemma base_resample_beta_result L rest (mm : imatrix) om w w' :
  fair om -> (0 < L)%nat -> state_dim (self w) = L -> is_square L mm ->
  _resample_beta (HDPHMMTransitions :: rest) mm om w = Ok tt w' ->
  exists b, beta (self w') = Some b /\ simplex L b.
Proof.
  intros [Hdir _] Hpos HL Hsq. cbn [_resample_beta].
  rewrite !bind_attr, HL. destruct (Nat.eqb_spec L 0) as [->|_]; [lia|].
  rewrite bind_ret. intros H.
  apply bind_sample_inv in H as (v & Hv & H). rewrite assign_run in H.
  injection H as <-. simpl.
  assert (Hlen : length (isum_axis0 mm) = L).
  { apply isum_axis0_length; [destruct Hsq as [-> _]; lia|by destruct Hsq]. }
  rewrite length_fmap, Hlen.
  apply Hdir in Hv as [Hnonneg Hsum]. rewrite length_fmap, Hlen in Hsum.
  eexists. split; [reflexivity|]. split; [apply floats_of_length|]. split.
  - unfold floats_of. apply Forall_fmap, Forall_true. intros j. apply Hnonneg.
  - apply Hsum. intros Hnil. apply (f_equal length) in Hnil.
    rewrite length_fmap, Hlen in Hnil. simpl in Hnil. lia.
Qed.

Lemma sticky_resample_beta_inv super (mm : imatrix) om w w' :
  _resample_beta (StickyHDPHMMTransitions :: super) mm om w = Ok tt w' ->
  exists w1, state_dim (self w1) = state_dim (self w) /\
             _resample_beta super mm om w1 = Ok tt w'.
Proof.
  cbn [_resample_beta]. intros H.
  match type of H with
  | (?pre ≫= _) om w = _ =>
      assert (Hpre : preserves state_dim pre) by preserves;
      specialize (Hpre om w)
  end.
  apply bind_inv in H as ([] & w1 & H1 & H). rewrite H1 in Hpre. simpl in Hpre.
  rewrite bind_assign in H. eexists. split; [|exact H]. exact Hpre.
Qed.

Lemma resample_beta_result c L (mm : imatrix) om w w' :
  fair om -> (0 < L)%nat -> state_dim (self w) = L -> is_square L mm ->
  _resample_beta (mro c) mm om w = Ok tt w' ->
  exists b, beta (self w') = Some b /\ simplex L b.
Proof.
  intros Hfair Hpos HL Hsq H.
  assert (Hbase : forall w0, state_dim (self w0) = L ->
            _resample_beta [HDPHMMTransitions] mm om w0 = Ok tt w' ->
            exists b, beta (self w') = Some b /\ simplex L b).
  { intros w0 H0. by apply base_resample_beta_result. }
  assert (Hsticky : forall rest,
            _resample_beta (StickyHDPHMMTransitions :: HDPHMMTransitions :: rest)
                           mm om w = Ok tt w' ->
            exists b, beta (self w') = Some b /\ simplex L b).
  { intros rest Hs. apply sticky_resample_beta_inv in Hs as (w1 & Hdim & Hs).
    eapply (base_resample_beta_result L rest); [done|done| |done|exact Hs]. lia. }
  destruct c; cbn [mro] in H.
  - discriminate.
  - by eapply Hbase.
  - by eapply (base_resample_beta_result L [ConcentrationResampling]).
  - by eapply Hbase.
  - by eapply Hbase.
  - by eapply (base_resample_beta_result L [ConcentrationResampling]).
  - exact (Hsticky [] H).
  - exact (Hsticky [ConcentrationResampling] H).
  - exact (Hsticky [] H).
Qed.

(** ** Row normalisation *)

Lemma fp_check_inv cells om w w' :
  fp_check cells om w = Ok tt w' ->
  w' = w /\ Forall (fun xd => ~ snd xd == 0) cells.
Proof.
  unfold fp_check.
  destruct (existsb invalid_cell cells) eqn:Hinv; [discriminate|].
  destruct (existsb infinite_cell cells) eqn:Hinf; [discriminate|].
  intros [= <-]. split; [done|]. rewrite Forall_forall. intros [x d] Hin Hd.
  simpl in Hd. apply list_elem_of_In in Hin.
  destruct (Qeq_bool x 0) eqn:Hx.
  - apply not_true_iff_false in Hinv. apply Hinv, existsb_exists.
    exists (x, d). split; [done|]. unfold invalid_cell. simpl.
    apply andb_true_intro. split; [by apply Qeq_bool_iff|done].
  - apply not_true_iff_false in Hinf. apply Hinf, existsb_exists.
    exists (x, d). split; [done|]. unfold infinite_cell. simpl.
    apply andb_true_intro. split; [by apply Qeq_bool_iff|by rewrite Hx].
Qed.

Lemma qsum_nonneg (v : vec) : Forall (fun x => 0 <= x) v -> 0 <= qsum v.
Proof. induction 1 as [|x v Hx Hv IH]; simpl; lra. Qed.

Lemma qsum_div (v : vec) s : ~ s == 0 -> qsum ((fun y => y / s) <$> v) == qsum v / s.
Proof.
  intros Hs. induction v as [|x v IH]; simpl.
  - field. exact Hs.
  - rewrite IH. field. exact Hs.
Qed.

Lemma normalized_row (row : vec) :
  Forall (fun x => 0 <= x) row -> ~ qsum row == 0 ->
  Forall (fun x => 0 <= x) ((fun y => y / qsum row) <$> row) /\
  qsum ((fun y => y / qsum row) <$> row) == 1.
Proof.
  intros Hnn Hs. pose proof (qsum_nonneg row Hnn) as Hge.
  assert (Hpos : 0 < qsum row) by lra. split.
  - apply Forall_fmap. eapply Forall_impl; [exact Hnn|]. intros y Hy. simpl.
    simpl in Hy. apply Qle_shift_div_l; [done|]. by rewrite Qmult_0_l.
  - rewrite qsum_div by done. field. exact Hs.
Qed.

Lemma normalize_rows_inv L (a a' : matrix) om w w' :
  normalize_rows a om w = Ok a' w' ->
  is_square L a -> (0 < L)%nat -> Forall (Forall (fun x => 0 <= x)) a ->
  w' = w /\ stochastic L a' /\
  a' = (fun row => (fun y => y / qsum row) <$> row) <$> a.
Proof.
  unfold normalize_rows, divide_rows, sum_axis1. intros H Hsq Hpos Hnn.
  apply bind_inv in H as ([] & w1 & Hcheck & H).
  apply fp_check_inv in Hcheck as [-> Hcells].
  injection H as <- <-.
  rewrite zip_with_fmap_r, zip_with_diag in Hcells.
  rewrite zip_with_fmap_r, zip_with_diag.
  split; [done|]. split; [|done].
  apply Forall_concat in Hcells. rewrite Forall_fmap in Hcells.
  destruct Hsq as [Hlen Hall]. split.
  - split; [by rewrite length_fmap|]. apply Forall_fmap.
    eapply Forall_impl; [exact Hall|]. intros row Hrow. simpl.
    by rewrite length_fmap.
  - apply Forall_fmap. rewrite Forall_lookup. intros i row Hrow. simpl.
    rewrite Forall_lookup in Hall, Hnn, Hcells.
    specialize (Hall i row Hrow). specialize (Hnn i row Hrow).
    specialize (Hcells i row Hrow). simpl in Hall, Hcells.
    apply normalized_row; [done|].
    destruct row as [|y row]; [simpl in Hall; lia|].
    rewrite fmap_cons in Hcells. by inversion Hcells.
Qed.

(** ** The A step *)

Lemma stride_diagonal L i j :
  (i < L)%nat -> (j < L)%nat ->
  ((i * L + j) mod S L =? 0)%nat = (i =? j)%nat.
Proof.
  intros Hi Hj. destruct (Nat.eqb_spec i j) as [->|Hne].
  - apply Nat.eqb_eq. symmetry. apply (Nat.mod_unique _ _ j); [lia|nia].
  - apply Nat.eqb_neq. destruct (Nat.lt_ge_cases i j) as [Hlt|Hge].
    + rewrite <- (Nat.mod_unique (i * L + j) (S L) i (j - i)); [lia|lia|nia].
    + rewrite <- (Nat.mod_unique (i * L + j) (S L) (i - 1) (S L - (i - j)));
        [lia|lia|nia].
Qed.

Lemma qcell_zero_flat_stride L (a : matrix) i j :
  is_square L a -> (i < L)%nat -> (j < L)%nat ->
  qcell (zero_flat_stride a) i j = if (i =? j)%nat then 0 else qcell a i j.
Proof.
  intros Hsq Hi Hj. unfold qcell, zero_flat_stride.
  destruct (is_square_lookup L a i Hsq Hi) as (row & Hrow & Hlen).
  destruct (lookup_lt_is_Some_2 row j) as [x Hx]; [lia|].
  rewrite list_lookup_imap, Hrow. cbn -[Nat.modulo Nat.mul Nat.add].
  rewrite list_lookup_imap, Hx. cbn -[Nat.modulo Nat.mul Nat.add].
  destruct Hsq as [Hlena _]. rewrite Hlen, Hlena, (stride_diagonal L) by done.
  reflexivity.
Qed.

Lemma zero_flat_stride_diagonal L (a : matrix) :
  is_square L a ->
  zero_flat_stride a =
  imap (fun i row => imap (fun j x => if (i =? j)%nat then 0 else x) row) a.
Proof.
  intros Hsq. unfold zero_flat_stride. apply imap_ext. intros i row Hrow.
  apply imap_ext. intros j x Hx.
  pose proof (is_square_row L a i row Hsq Hrow) as Hlen.
  assert (Hi : (i < L)%nat) by (destruct Hsq as [<- _]; by eapply lookup_lt_Some).
  assert (Hj : (j < L)%nat) by (rewrite <- Hlen; by eapply lookup_lt_Some).
  destruct Hsq as [Hlena _]. by rewrite Hlen, Hlena, (stride_diagonal L).
Qed.

Lemma imap2_square {X Y} L (f : nat -> nat -> X -> Y) (a : list (list X)) :
  is_square L a -> is_square L (imap (fun i row => imap (f i) row) a).
Proof.
  intros [Hlen Hall]. split; [by rewrite length_imap|].
  rewrite Forall_lookup. intros i row. rewrite list_lookup_imap.
  destruct (a !! i) as [row'|] eqn:Hrow; simpl; [|done]. intros [= <-].
  rewrite length_imap. rewrite Forall_lookup in Hall. by eapply Hall.
Qed.

Lemma imap2_Forall {X Y} (P : Y -> Prop) (f : nat -> nat -> X -> Y) (a : list (list X)) :
  (forall i j row x, a !! i = Some row -> row !! j = Some x -> P (f i j x)) ->
  Forall (Forall P) (imap (fun i row => imap (f i) row) a).
Proof.
  intros H. rewrite Forall_lookup. intros i row'. rewrite list_lookup_imap.
  destruct (a !! i) as [row|] eqn:Hrow; simpl; [|done]. intros [= <-].
  rewrite Forall_lookup. intros j y. rewrite list_lookup_imap.
  destruct (row !! j) as [x|] eqn:Hx; simpl; [|done]. intros [= <-].
  by eapply H.
Qed.

Lemma Forall2_cells {X} (P : X -> Prop) (a : list (list X)) i j row x :
  Forall (Forall P) a -> a !! i = Some row -> row !! j = Some x -> P x.
Proof.
  intros H Hrow Hx. rewrite Forall_lookup in H. specialize (H i row Hrow).
  rewrite Forall_lookup in H. by eapply H.
Qed.

Lemma stochastic_nonneg L (a : matrix) :
  stochastic L a -> Forall (Forall (fun x => 0 <= x)) a.
Proof. intros [_ H]. eapply Forall_impl; [exact H|]. by intros row [? _]. Qed.

Lemma base_resample_A_result L rest (data : matrix) (b : vec) om w w' :
  fair om -> (0 < L)%nat -> beta (self w) = Some b -> length b = L ->
  length data = L ->
  _resample_A (HDPHMMTransitions :: rest) data om w = Ok tt w' ->
  exists a, A (self w') = Some a /\ stochastic L a /\ fullA (self w') = fullA (self w).
Proof.
  intros [_ Hgam] Hpos Hb Hlen Hdata. cbn [_resample_A]. rewrite bind_attr. intros H.
  apply bind_attr_opt_inv in H as (b' & Hb' & H).
  assert (b' = b) by congruence. subst b'.
  apply bind_same_shape_inv in H as [Hshape H].
  apply bind_sample_inv in H as (v & Hv & H).
  rewrite bind_assign in H.
  apply bind_attr_opt_inv in H as (a0 & Ha0 & H). simpl in Ha0.
  injection Ha0 as <-.
  apply bind_inv in H as (a1 & w1 & Hnorm & H).
  apply (normalize_rows_inv L) in Hnorm as (-> & Hsto & _).
  - rewrite assign_run in H. injection H as <-. simpl. eauto.
  - unfold matrix_of. apply imap2_square. split; [by rewrite length_fmap|].
    apply Forall_fmap. apply Is_true_true, forallb_True in Hshape.
    eapply Forall_impl; [exact Hshape|]. intros row Hrow. simpl.
    apply Is_true_true, Nat.eqb_eq in Hrow.
    rewrite length_zip_with. rewrite length_fmap in *. lia.
  - done.
  - unfold matrix_of. apply imap2_Forall. intros i j row x _ _.
    apply Qlt_le_weak. by eapply Hgam.
Qed.

(** The sticky methods hand the class after them an array of the same
    number of rows, in the same world. *)
Lemma sticky_resample_A_inv super (data : matrix) om w w' :
  _resample_A (StickyHDPHMMTransitions :: super) data om w = Ok tt w' ->
  exists data', length data' = length data /\ _resample_A super data' om w = Ok tt w'.
Proof.
  rewrite resample_A_sticky, bind_attr. intros H.
  apply bind_same_shape_inv in H as [_ H].
  eexists. split; [|exact H]. unfold add_diag. by rewrite length_imap.
Qed.

Lemma sticky_ltr_resample_A_inv super (data : matrix) om w w' :
  _resample_A (StickyLTRHDPHMMTransitions :: super) data om w = Ok tt w' ->
  exists data', length data' = length data /\ _resample_A super data' om w = Ok tt w'.
Proof.
  rewrite resample_A_sticky_ltr, bind_attr. intros H.
  apply bind_same_shape_inv in H as [_ H].
  eexists. split; [|exact H]. unfold add_diag. by rewrite length_imap.
Qed.

Lemma ltr_resample_A_result L super (data : matrix) om w w' :
  (0 < L)%nat ->
  (forall w1, _resample_A super data om w = Ok tt w1 ->
     exists a, A (self w1) = Some a /\ stochastic L a) ->
  _resample_A (LTRHDPHMMTransitions :: super) data om w = Ok tt w' ->
  exists a f, A (self w') = Some a /\ stochastic L a /\
              fullA (self w') = Some f /\ stochastic L f /\
              forall i j, (j < i)%nat -> qcell a i j == 0.
Proof.
  intros Hpos Hsuper. rewrite resample_A_ltr. intros H.
  apply bind_inv in H as ([] & w1 & H1 & H).
  destruct (Hsuper w1 H1) as (a0 & Ha0 & Hsto0).
  rewrite (bind_attr_opt _ _ _ _ a0 Ha0), bind_assign in H.
  apply bind_inv in H as (a1 & w2 & Hnorm & H).
  apply (normalize_rows_inv L) in Hnorm as (-> & Hsto & Heq).
  - rewrite assign_run in H. injection H as <-. simpl.
    exists a1, a0. split; [done|]. split; [done|]. split; [done|]. split; [done|].
    intros i j Hji. subst a1. unfold qcell, triu.
    rewrite list_lookup_fmap, list_lookup_imap.
    destruct (a0 !! i) as [row|]; simpl; [|reflexivity].
    rewrite list_lookup_fmap, list_lookup_imap.
    destruct (row !! j) as [x|]; simpl; [|reflexivity].
    destruct (Nat.leb_spec i j); [lia|]. unfold Qdiv. apply Qmult_0_l.
  - apply imap2_square. apply Hsto0.
  - done.
  - apply imap2_Forall. intros i j row x Hrow Hx.
    destruct (i <=? j)%nat; [|lra].
    eapply (Forall2_cells (fun x => 0 <= x)); [by eapply stochastic_nonneg|done|done].
Qed.

Lemma hsmm_resample_A_result L super (data : matrix) om w w' :
  (0 < L)%nat ->
  (forall w1, _resample_A super data om w = Ok tt w1 ->
     exists a, A (self w1) = Some a /\ stochastic L a) ->
  _resample_A (HDPHSMMTransitions :: super) data om w = Ok tt w' ->
  exists a f, A (self w') = Some a /\ stochastic L a /\
              fullA (self w') = Some f /\ stochastic L f /\
              forall i, (i < L)%nat -> qcell a i i == 0.
Proof.
  intros Hpos Hsuper. rewrite resample_A_hsmm. intros H.
  apply bind_inv in H as ([] & w1 & H1 & H).
  destruct (Hsuper w1 H1) as (a0 & Ha0 & Hsto0).
  rewrite (bind_attr_opt _ _ _ _ a0 Ha0), !bind_assign in H.
  apply bind_attr_opt_inv in H as (az & Haz & H). simpl in Haz.
  injection Haz as <-.
  apply bind_inv in H as (a1 & w2 & Hnorm & H).
  assert (Hsq0 : is_square L a0) by apply Hsto0.
  apply (normalize_rows_inv L) in Hnorm as (-> & Hsto & Heq).
  - rewrite assign_run in H. injection H as <-. simpl.
    exists a1, a0. split; [done|]. split; [done|]. split; [done|]. split; [done|].
    intros i Hi. subst a1.
    pose proof (qcell_zero_flat_stride L a0 i i Hsq0 Hi Hi) as Hz.
    rewrite Nat.eqb_refl in Hz. unfold qcell in *.
    rewrite list_lookup_fmap.
    destruct (zero_flat_stride a0 !! i) as [row|]; simpl in *; [|reflexivity].
    rewrite list_lookup_fmap.
    destruct (row !! i) as [x|]; simpl in *; [|reflexivity].
    subst x. unfold Qdiv. apply Qmult_0_l.
  - rewrite (zero_flat_stride_diagonal L) by done. by apply imap2_square.
  - done.
  - rewrite (zero_flat_stride_diagonal L) by done.
    apply imap2_Forall. intros i j row x Hrow Hx.
    destruct (i =? j)%nat; [lra|].
    eapply (Forall2_cells (fun x => 0 <= x)); [by eapply stochastic_nonneg|done|done].
Qed.

Lemma to_float_length (a : imatrix) : length (to_float a) = length a.
Proof. unfold to_float. by rewrite length_fmap. Qed.

Ltac not_this_class :=
  let H := fresh in
  intros H; repeat (destruct H as [H|H]); discriminate.

Lemma resample_A_result c L (data : matrix) (b : vec) om w w' :
  fair om -> (0 < L)%nat -> model_class c ->
  beta (self w) = Some b -> length b = L -> length data = L ->
  _resample_A (mro c) data om w = Ok tt w' ->
  exists a, A (self w') = Some a /\ stochastic L a /\
    (hsmm_class c -> forall i, (i < L)%nat -> qcell a i i == 0) /\
    (ltr_class c -> forall i j, (j < i)%nat -> qcell a i j == 0) /\
    (keeps_fullA c -> exists f, fullA (self w') = Some f /\ stochastic L f).
Proof.
  intros Hfair Hpos Hc Hb Hlen Hdata H.
  assert (Hbase : forall rest data0 w1, length data0 = L ->
            _resample_A (HDPHMMTransitions :: rest) data0 om w = Ok tt w1 ->
            exists a, A (self w1) = Some a /\ stochastic L a).
  { intros rest data0 w1 Hd0 H0.
    destruct (base_resample_A_result L rest data0 b om w w1) as (a & ? & ? & _); eauto. }
  assert (Hsticky : forall rest data0 w1, length data0 = L ->
            _resample_A (StickyHDPHMMTransitions :: HDPHMMTransitions :: rest)
                        data0 om w = Ok tt w1 ->
            exists a, A (self w1) = Some a /\ stochastic L a).
  { intros rest data0 w1 Hd0 H0.
    apply sticky_resample_A_inv in H0 as (data1 & Hd1 & H0).
    eapply Hbase; [|exact H0]. lia. }
  destruct c; cbn [mro] in H.
  - by destruct Hc.
  - destruct (Hbase [] data w' Hdata H) as (a & Ha & Hsto).
    exists a. repeat (split; [done || not_this_class|]). not_this_class.
  - destruct (Hbase [ConcentrationResampling] data w' Hdata H) as (a & Ha & Hsto).
    exists a. repeat (split; [done || not_this_class|]). not_this_class.
  - destruct (ltr_resample_A_result L [HDPHMMTransitions] data om w w' Hpos)
      as (a & f & Ha & Hsto & Hf & Hfsto & Hlow);
      [intros w1; by apply Hbase|exact H|].
    exists a. split; [done|]. split; [done|]. split; [not_this_class|].
    split; [done|]. eauto.
  - destruct (hsmm_resample_A_result L [HDPHMMTransitions] data om w w' Hpos)
      as (a & f & Ha & Hsto & Hf & Hfsto & Hdiag);
      [intros w1; by apply Hbase|exact H|].
    exists a. split; [done|]. split; [done|]. split; [done|].
    split; [not_this_class|]. eauto.
  - destruct (hsmm_resample_A_result L [HDPHMMTransitions; ConcentrationResampling]
                data om w w' Hpos)
      as (a & f & Ha & Hsto & Hf & Hfsto & Hdiag);
      [intros w1; by apply Hbase|exact H|].
    exists a. split; [done|]. split; [done|]. split; [done|].
    split; [not_this_class|]. eauto.
  - destruct (Hsticky [] data w' Hdata H) as (a & Ha & Hsto).
    exists a. repeat (split; [done || not_this_class|]). not_this_class.
  - destruct (Hsticky [ConcentrationResampling] data w' Hdata H) as (a & Ha & Hsto).
    exists a. repeat (split; [done || not_this_class|]). not_this_class.
  - apply sticky_ltr_resample_A_inv in H as (data1 & Hd1 & H).
    destruct (ltr_resample_A_result L [StickyHDPHMMTransitions; HDPHMMTransitions]
                data1 om w w' Hpos)
      as (a & f & Ha & Hsto & Hf & Hfsto & Hlow);
      [intros w1; apply Hsticky; lia|exact H|].
    exists a. split; [done|]. split; [done|]. split; [not_this_class|].
    split; [done|]. eauto.
Qed.

Lemma sweep_tail c L (tc : imatrix) om w w' :
  fair om -> (0 < L)%nat -> model_class c ->
  state_dim (self w) = L -> is_square L tc ->
  (_get_m tc ≫= fun mm =>
     _resample_beta (mro c) mm ≫= fun _ => _resample_A (mro c) (to_float tc)) om w
    = Ok tt w' ->
  swept c L (self w').
Proof.
  intros Hfair Hpos Hc HL Hsq H.
  apply bind_inv in H as (mm & w1 & Hm & H).
  pose proof (get_m_shape _ _ _ _ _ Hm) as Hsqm. rewrite HL in Hsqm.
  pose proof (get_m_state_dim tc om w) as Hd1. rewrite Hm in Hd1. simpl in Hd1.
  apply bind_inv in H as ([] & w2 & Hbeta & H).
  pose proof (resample_beta_state_dim c mm om w1) as Hd2. rewrite Hbeta in Hd2.
  simpl in Hd2.
  destruct (resample_beta_result c L mm om w1 w2) as (b & Hb & Hsimplex);
    [done|done|lia|done|done|].
  pose proof (resample_A_state_dim c (to_float tc) om w2) as Hd3. rewrite H in Hd3.
  simpl in Hd3.
  pose proof (resample_A_beta c (to_float tc) om w2) as Hb3. rewrite H in Hb3.
  simpl in Hb3.
  destruct (resample_A_result c L (to_float tc) b om w2 w')
    as (a & Ha & Hsto & Hdiag & Hlow & Hfull); try done.
  { apply Hsimplex. }
  { rewrite to_float_length. apply Hsq. }
  split; [lia|]. split; [exists b; split; [congruence|done]|].
  split; [|done]. exists a. done.
Qed.

Lemma swept_transfer c L (o o' : object) :
  swept c L o -> state_dim o' = state_dim o -> beta o' = beta o ->
  A o' = A o -> fullA o' = fullA o -> swept c L o'.
Proof. unfold swept. intros H -> -> -> ->. exact H. Qed.

Lemma hmm_body_swept c states_list om w w' :
  fair om -> model_class c -> (0 < state_dim (self w))%nat ->
  HDPHMMTransitions_resample c states_list om w = Ok tt w' ->
  swept c (state_dim (self w)) (self w').
Proof.
  intros Hfair Hc Hpos H. unfold HDPHMMTransitions_resample in H.
  apply bind_inv in H as (tc & w1 & Hcount & H).
  pose proof (count_transitions_shape _ _ _ _ _ _ Hcount) as Hsq.
  pose proof (count_transitions_state_dim c states_list om w) as Hd.
  rewrite Hcount in Hd. simpl in Hd.
  eapply (sweep_tail c _ tc om w1); try done.
Qed.

Lemma hsmm_body_swept c stateseqs om w w' :
  fair om -> model_class c -> (0 < state_dim (self w))%nat ->
  HDPHSMMTransitions_resample c stateseqs om w = Ok tt w' ->
  swept c (state_dim (self w)) (self w').
Proof.
  intros Hfair Hc Hpos H. unfold HDPHSMMTransitions_resample in H.
  apply bind_inv in H as (tc & w1 & Hcount & H).
  pose proof (count_transitions_shape _ _ _ _ _ _ Hcount) as Hsq.
  pose proof (count_transitions_state_dim c (states_noreps stateseqs) om w) as Hd.
  rewrite Hcount in Hd. simpl in Hd.
  apply bind_inv in H as (aug & w2 & Haug & H).
  pose proof (augment_data_shape _ _ _ _ _ _ Haug Hsq) as Hsqa.
  pose proof (augment_data_state_dim tc om w1) as Hd2.
  rewrite Haug in Hd2. simpl in Hd2.
  eapply (sweep_tail c _ aug om w2); try done. lia.
Qed.

Lemma conc_swept c L om w w' :
  swept c L (self w) -> ConcentrationResampling_resample om w = Ok tt w' ->
  swept c L (self w').
Proof.
  intros Hs H. apply ConcentrationResampling_resample_result in H
    as (_ & _ & _ & _ & _ & _ & Hd & Hb & HA & Hf).
  by eapply swept_transfer.
Qed.

(** Every class of the module leaves, after a completed resample, a beta on
    the simplex and a row-stochastic A of the dimension it started with. *)
Lemma resample_swept c states_list om w w' :
  fair om -> model_class c -> (0 < state_dim (self w))%nat ->
  resample c (mro c) states_list om w = Ok tt w' ->
  swept c (state_dim (self w)) (self w').
Proof.
  intros Hfair Hc Hpos H. destruct c; cbn [mro resample] in H.
  - by destruct Hc.
  - by apply (hmm_body_swept _ states_list om).
  - apply bind_inv in H as ([] & w1 & H1 & H).
    eapply conc_swept; [|exact H]. by apply (hmm_body_swept _ states_list om).
  - by apply (hmm_body_swept _ states_list om).
  - by apply (hsmm_body_swept _ states_list om).
  - apply bind_inv in H as ([] & w1 & H1 & H).
    eapply conc_swept; [|exact H]. by apply (hsmm_body_swept _ states_list om).
  - by apply (hmm_body_swept _ states_list om).
  - apply bind_inv in H as ([] & w1 & H1 & H).
    apply bind_inv in H as ([] & w2 & H2 & H).
    assert (Hs : swept StickyHDPHMMTransitionsConcResampling
                   (state_dim (self w)) (self w2)).
    { eapply conc_swept; [|exact H2]. by apply (hmm_body_swept _ states_list om). }
    match type of H with
    | ?t om w2 = _ =>
        assert (Hd : preserves state_dim t) by preserves;
        assert (Hb : preserves beta t) by preserves;
        assert (HA : preserves A t) by preserves;
        assert (Hf : preserves fullA t) by preserves;
        specialize (Hd om w2); specialize (Hb om w2);
        specialize (HA om w2); specialize (Hf om w2)
    end.
    rewrite H in Hd, Hb, HA, Hf. simpl in Hd, Hb, HA, Hf.
    by eapply swept_transfer.
  - by apply (hmm_body_swept _ states_list om).
Qed.

(** C6 (amended): after every resample call that completes, for every class
    of the module and every number of states L >= 1, the draws being
    Dirichlet variates on the simplex and positive Gamma variates: the
    object still has L states; beta has length L, nonnegative entries and
    sum 1; A is L by L, with nonnegative entries and rows of sum 1; in the
    semi-Markov classes the diagonal of A is 0; in the classes that keep a
    fullA it is L by L.  A semi-Markov object of one state completes no
    resample: a completed one has at least two states. *)
Theorem C6_completed_resample_invariants
    (c : class) (states_list : list (list Z)) (om : oracle) (w w' : world) :
  fair om -> model_class c -> (0 < state_dim (self w))%nat ->
  resample c (mro c) states_list om w = Ok tt w' ->
  state_dim (self w') = state_dim (self w) /\
  (exists b, beta (self w') = Some b /\ length b = state_dim (self w) /\
     Forall (fun x => 0 <= x) b /\ qsum b == 1) /\
  (exists a, A (self w') = Some a /\ is_square (state_dim (self w)) a /\
     Forall (fun row => Forall (fun x => 0 <= x) row /\ qsum row == 1) a /\
     (hsmm_class c -> forall i, (i < state_dim (self w))%nat -> qcell a i i == 0)) /\
  (keeps_fullA c ->
     exists f, fullA (self w') = Some f /\ is_square (state_dim (self w)) f) /\
  (hsmm_class c -> (2 <= state_dim (self w))%nat).
Proof.
  intros Hfair Hc Hpos H.
  destruct (resample_swept c states_list om w w' Hfair Hc Hpos H)
    as (Hd & (b & Hb & Hsimplex) & (a & Ha & [Hsq Hrows] & Hdiag & _) & Hfull).
  split; [done|]. split; [by exists b|]. split; [by exists a|]. split.
  - intros Hk. destruct (Hfull Hk) as (f & Hf & [Hsqf _]). by exists f.
  - intros Hh. destruct (decide (state_dim (self w) = 1%nat)) as [H1|]; [|lia].
    exfalso. specialize (Hdiag Hh 0%nat). rewrite H1 in *.
    destruct (is_square_lookup 1 a 0 Hsq) as (row & Hrow & Hlen); [lia|].
    rewrite Forall_lookup in Hrows. destruct (Hrows 0%nat row Hrow) as [_ Hsum].
    destruct row as [|x [|y row]]; try discriminate.
    unfold qcell in Hdiag. rewrite Hrow in Hdiag. simpl in Hdiag, Hsum.
    assert (x == 0) by (apply Hdiag; lia). lra.
Qed.

Lemma C6_counterexample :
  exists w',
    run (resample HDPHSMMTransitions (mro HDPHSMMTransitions) []) steady (bare 1) =
      Raise FloatingPointError w' /\
    A (self w') = Some [[0]] /\ ~ qsum [0] == 1.
Proof.
  eexists. split; [vm_compute; reflexivity|]. split; [reflexivity|]. simpl. lra.
Qed.

(** ** The sample random source *)

Lemma steady_answers_all : answers_all steady.
Proof. intros k d. destruct d; eexists; reflexivity. Qed.


Lemma Q_of_nat_S n : Q_of_nat (S n) == Q_of_nat n + 1.
Proof.
  unfold Q_of_nat. rewrite Nat2Z.inj_succ, <- Z.add_1_r, inject_Z_plus. reflexivity.
Qed.

Lemma qsum_const {T} (c : Q) (l : list T) :
  qsum ((fun _ => c) <$> l) == Q_of_nat (length l) * c.
Proof.
  induction l as [|x l IH].
  - simpl. unfold Q_of_nat. simpl. ring.
  - rewrite fmap_cons. simpl qsum. simpl length. rewrite IH, Q_of_nat_S. ring.
Qed.

Lemma steady_fair : fair steady.
Proof.
  split.
  - intros k a v [= <-]. simpl. split.
    + intros _. destruct (length a) as [|n]; [by vm_compute|].
      apply Qle_shift_div_l; [|lra].
      pose proof (Q_of_nat_nonneg n). rewrite Q_of_nat_S. lra.
    + intros Hne. unfold floats_of. simpl. rewrite qsum_const, length_seq.
      assert (~ Q_of_nat (length a) == 0).
      { destruct a as [|x a]; [done|]. simpl length.
        pose proof (Q_of_nat_nonneg (length a)). rewrite Q_of_nat_S. lra. }
      field. done.
  - intros k sh v [= <-] i j. simpl. lra.
Qed.

(** ** The properties on sample objects *)

Lemma C1_witness :
  resample StickyHDPHMMTransitionsConcResampling
           (mro StickyHDPHMMTransitionsConcResampling) [[0; 1; 1; 0]%Z]
           steady (mkWorld sticky_conc2 []) = Ok tt sticky_conc2_resampled /\
  exists mm nm v dr,
    m (self sticky_conc2_resampled) = Some mm /\
    newm (self sticky_conc2_resampled) = Some nm /\
    drawn sticky_conc2_resampled =
      dr ++ [beta_rv (rho_a_0 (self sticky_conc2_resampled)
                      + inject_Z (isum_all (sub_int32 mm nm)))
                     (rho_b_0 (self sticky_conc2_resampled)
                      + inject_Z (isum_all nm))] /\
    steady (length dr)
       (beta_rv (rho_a_0 (self sticky_conc2_resampled)
                 + inject_Z (isum_all (sub_int32 mm nm)))
                (rho_b_0 (self sticky_conc2_resampled)
                 + inject_Z (isum_all nm))) = Value v /\
    rho (self sticky_conc2_resampled) = float_of v /\
    kappa (self sticky_conc2_resampled) =
      rho (self sticky_conc2_resampled)
      * concentration (alpha_obj (self sticky_conc2_resampled))
      * Q_of_nat (state_dim (self sticky_conc2_resampled)) /\
    alpha (self sticky_conc2_resampled) =
      concentration (alpha_obj (self sticky_conc2_resampled))
      * Q_of_nat (state_dim (self sticky_conc2_resampled)).
Proof.
  assert (H : resample StickyHDPHMMTransitionsConcResampling
                (mro StickyHDPHMMTransitionsConcResampling) [[0; 1; 1; 0]%Z]
                steady (mkWorld sticky_conc2 []) = Ok tt sticky_conc2_resampled)
    by (vm_compute; reflexivity).
  split; [exact H|].
  exact (C1_sticky_conc_resample_result _ _ _ _ H).
Defined.

(** On that object the resample ends with rho = 1/2, concentration 1 and two
    states: alpha is 2 and kappa is 1, so that alpha + kappa is 3 and not
    concentration*L = 2, and alpha/(alpha + kappa) is 2/3 and not 1 - rho. *)
Example sticky_conc2_alpha_plus_kappa :
  let o := self sticky_conc2_resampled in
  rho o == 1 # 2 /\ concentration (alpha_obj o) == 1 /\ state_dim o = 2%nat /\
  alpha o == 2 /\ kappa o == 1 /\
  ~ alpha o + kappa o == concentration (alpha_obj o) * Q_of_nat (state_dim o) /\
  ~ alpha o / (alpha o + kappa o) == 1 - rho o.
Proof.
  repeat split; try (vm_compute; reflexivity);
    intros H; vm_compute in H; discriminate.
Qed.

Lemma C2_witness :
  hsmm_class HDPHSMMTransitions /\
  Forall no_repeats (states_noreps [[0; 1; 0]%Z]) /\
  resample HDPHSMMTransitions (mro HDPHSMMTransitions) [[0; 1; 0]%Z]
           steady (mkWorld hsmm2 []) =
    resample HDPHSMMTransitions (mro HDPHSMMTransitions)
             (states_noreps [[0; 1; 0]%Z]) steady (mkWorld hsmm2 []) /\
  (Forall no_repeats [[0; 1; 0]%Z] ->
     states_noreps [[0; 1; 0]%Z] = [[0; 1; 0]%Z] /\
     resample HDPHSMMTransitions (mro HDPHSMMTransitions) [[0; 1; 0]%Z]
              steady (mkWorld hsmm2 []) =
       HSMM_resample_as_given HDPHSMMTransitions [[0; 1; 0]%Z]
              steady (mkWorld hsmm2 [])).
Proof.
  split; [left; reflexivity|].
  apply (C2_semi_markov_counts_collapsed_sequences HDPHSMMTransitions).
  left; reflexivity.
Defined.

Lemma C3_witness :
  ltr_class LTRHDPHMMTransitions /\
  Forall (Forall (label (state_dim ltr3))) [[1; 1; 2]%Z] /\
  Forall (fun p => ~ backward p) (all_pairs [[1; 1; 2]%Z]) /\
  exists tc0 tc dr,
    _count_transitions [HDPHMMTransitions] [[1; 1; 2]%Z] steady (mkWorld ltr3 []) =
      Ok tc0 (mkWorld (set_trans_counts tc0 ltr3) []) /\
    _count_transitions (mro LTRHDPHMMTransitions) [[1; 1; 2]%Z] steady
                       (mkWorld ltr3 []) =
      Ok tc (mkWorld (set_trans_counts tc ltr3) dr) /\
    length dr = (0 + 2 * 3)%nat /\
    forall i, (i < 3)%nat ->
      ltr_row_augmented steady
        [[1 # 3; 1 # 3; 1 # 3]; [1 # 4; 1 # 4; 1 # 2]; [1 # 3; 1 # 3; 1 # 3]]
        tc0 tc dr 0 i /\
      length (lower_share
        [[1 # 3; 1 # 3; 1 # 3]; [1 # 4; 1 # 4; 1 # 2]; [1 # 3; 1 # 3; 1 # 3]] i) = i /\
      forall j, (j < i)%nat ->
        lower_share
          [[1 # 3; 1 # 3; 1 # 3]; [1 # 4; 1 # 4; 1 # 2]; [1 # 3; 1 # 3; 1 # 3]] i !! j =
        Some (qcell
          [[1 # 3; 1 # 3; 1 # 3]; [1 # 4; 1 # 4; 1 # 2]; [1 # 3; 1 # 3; 1 # 3]] i j /
          lower_sum
          [[1 # 3; 1 # 3; 1 # 3]; [1 # 4; 1 # 4; 1 # 2]; [1 # 3; 1 # 3; 1 # 3]] i).
Proof.
  assert (Hlab : Forall (Forall (label (state_dim ltr3))) [[1; 1; 2]%Z])
    by (repeat constructor; simpl; lia).
  assert (Hfwd : Forall (fun p => ~ backward p) (all_pairs [[1; 1; 2]%Z]))
    by (repeat constructor; unfold backward; simpl; lia).
  split; [left; reflexivity|]. split; [exact Hlab|]. split; [exact Hfwd|].
  apply (C3_ltr_counting_splits_over_backward_columns LTRHDPHMMTransitions
           [[1; 1; 2]%Z] _ steady (mkWorld ltr3 [])).
  - left; reflexivity.
  - exact Hlab.
  - exact Hfwd.
  - reflexivity.
  - split; [reflexivity|]. repeat constructor.
  - repeat constructor.
  - exact steady_answers_all.
Defined.

Lemma C4_witness :
  beta sticky_ltr2 = Some [1 # 2; 1 # 2] /\
  is_square 2 [[0; 0]; [0; 0]] /\
  exists shape, is_square 2 shape /\
    drawn (world_of (_resample_A (mro StickyLTRHDPHMMTransitions) [[0; 0]; [0; 0]]
                                 steady (mkWorld sticky_ltr2 []))) =
      [] ++ [gamma_rvs shape] /\
    forall i j, (i < 2)%nat -> (j < 2)%nat ->
      qcell shape i j ==
      alpha sticky_ltr2 * vcell [1 # 2; 1 # 2] j + qcell [[0; 0]; [0; 0]] i j +
      (if decide (i = j) then 2 * kappa sticky_ltr2 else 0) + (1 # 100).
Proof.
  assert (Hsq : is_square 2 [[0; 0]; [0; 0]])
    by (split; [reflexivity|repeat constructor]).
  split; [reflexivity|]. split; [exact Hsq|].
  apply (C4_sticky_ltr_gamma_shape [[0; 0]; [0; 0]] [1 # 2; 1 # 2] steady
           (mkWorld sticky_ltr2 []) 2); [reflexivity|reflexivity|exact Hsq].
Defined.

(** On that object kappa is 1: the diagonal shapes are 1/2 + 2 + 1/100, where
    the sticky class alone asks for 1/2 + 1 + 1/100. *)
Example sticky_ltr2_gamma_shape :
  drawn (world_of (_resample_A (mro StickyLTRHDPHMMTransitions) [[0; 0]; [0; 0]]
                               steady (mkWorld sticky_ltr2 []))) =
    [gamma_rvs [[1 * (1 # 2) + (0 + 1 * 1 + 1 * 1) + (1 # 100);
                 1 * (1 # 2) + (0 + 0 + 0) + (1 # 100)];
                [1 * (1 # 2) + (0 + 0 + 0) + (1 # 100);
                 1 * (1 # 2) + (0 + 1 * 1 + 1 * 1) + (1 # 100)]]] /\
  drawn (world_of (_resample_A (mro StickyHDPHMMTransitions) [[0; 0]; [0; 0]]
                               steady (mkWorld sticky_ltr2 []))) =
    [gamma_rvs [[1 * (1 # 2) + (0 + 1 * 1) + (1 # 100);
                 1 * (1 # 2) + (0 + 0) + (1 # 100)];
                [1 * (1 # 2) + (0 + 0) + (1 # 100);
                 1 * (1 # 2) + (0 + 1 * 1) + (1 # 100)]]].
Proof. split; reflexivity. Qed.


Lemma C6_witness :
  fair steady /\ model_class HDPHSMMTransitions /\
  (0 < state_dim hsmm2)%nat /\
  resample HDPHSMMTransitions (mro HDPHSMMTransitions) [[0; 0; 1]%Z]
           steady (mkWorld hsmm2 []) = Ok tt hsmm2_resampled /\
  state_dim (self hsmm2_resampled) = state_dim hsmm2 /\
  (exists b, beta (self hsmm2_resampled) = Some b /\ length b = state_dim hsmm2 /\
     Forall (fun x => 0 <= x) b /\ qsum b == 1) /\
  (exists a, A (self hsmm2_resampled) = Some a /\ is_square (state_dim hsmm2) a /\
     Forall (fun row => Forall (fun x => 0 <= x) row /\ qsum row == 1) a /\
     (hsmm_class HDPHSMMTransitions ->
        forall i, (i < state_dim hsmm2)%nat -> qcell a i i == 0)) /\
  (keeps_fullA HDPHSMMTransitions ->
     exists f, fullA (self hsmm2_resampled) = Some f /\ is_square (state_dim hsmm2) f) /\
  (hsmm_class HDPHSMMTransitions -> (2 <= state_dim hsmm2)%nat).
Proof.
  assert (Hc : model_class HDPHSMMTransitions) by discriminate.
  assert (Hpos : (0 < state_dim hsmm2)%nat) by (vm_compute; lia).
  assert (H : resample HDPHSMMTransitions (mro HDPHSMMTransitions) [[0; 0; 1]%Z]
                steady (mkWorld hsmm2 []) = Ok tt hsmm2_resampled)
    by (vm_compute; reflexivity).
  split; [exact steady_fair|]. split; [exact Hc|]. split; [exact Hpos|].
  split; [exact H|].
  pose proof (C6_completed_resample_invariants HDPHSMMTransitions [[0; 0; 1]%Z]
                steady (mkWorld hsmm2 []) hsmm2_resampled steady_fair Hc) as T.
  cbn [self drawn] in T. exact (T Hpos H).
Defined.

Lemma C7_witness :
  state_dim sticky_ltr2 = 2%nat /\
  (all_zero [[0; 0]; [0; 0]]%Z = true ->
     _get_m [[0; 0]; [0; 0]]%Z steady (mkWorld sticky_ltr2 []) =
       Ok (zeros 2 2) (mkWorld (set_m (zeros 2 2) sticky_ltr2) [])) /\
  (all_zero [[0; 1]; [1; 1]]%Z = false ->
     forall b, beta sticky_ltr2 = Some b -> length b = 2%nat ->
     counts_array 2 [[0; 1]; [1; 1]]%Z ->
     0 < alpha sticky_ltr2 -> Forall (fun x => 0 < x) b -> answers_all steady ->
     exists mm dr,
       _get_m [[0; 1]; [1; 1]]%Z steady (mkWorld sticky_ltr2 []) =
         Ok mm (mkWorld (set_m mm sticky_ltr2) dr) /\
       is_square 2 mm /\
       length dr = (0 + 2 * 2)%nat /\
       forall i j, (i < 2)%nat -> (j < 2)%nat ->
         table_count_cell steady (alpha sticky_ltr2) b [[0; 1]; [1; 1]]%Z mm dr 0 2 i j /\
         (icell [[0; 1]; [1; 1]]%Z i j = 0%Z -> icell mm i j = 0%Z)).
Proof.
  split; [reflexivity|]. split.
  - apply (C7_table_counts_cell_by_cell [[0; 0]; [0; 0]]%Z steady
             (mkWorld sticky_ltr2 []) 2). reflexivity.
  - apply (C7_table_counts_cell_by_cell [[0; 1]; [1; 1]]%Z steady
             (mkWorld sticky_ltr2 []) 2). reflexivity.
Defined.

Lemma C8_witness :
  state_dim (bare 2) = 2%nat /\ (0 < 2)%nat /\
  length [[1; 0]; [2; 3]]%Z = 2%nat /\
  Forall (fun row : ivec => length row = 2%nat) [[1; 0]; [2; 3]]%Z /\
  exists param : vec,
    length param = 2%nat /\
    (forall j, (j < 2)%nat ->
       param !! j =
       Some (gamma (bare 2) / Q_of_nat 2
             + inject_Z (column_sum [[1; 0]; [2; 3]]%Z j) + (1 # 100))) /\
    _resample_beta [HDPHMMTransitions] [[1; 0]; [2; 3]]%Z steady (mkWorld (bare 2) []) =
      match steady 0%nat (dirichlet param) with
      | Value v =>
          Ok tt (mkWorld (set_beta (floats_of v 2) (bare 2)) ([] ++ [dirichlet param]))
      | Fault e => Raise e (mkWorld (bare 2) ([] ++ [dirichlet param]))
      end.
Proof.
  assert (Hrows : Forall (fun row : ivec => length row = 2%nat) [[1; 0]; [2; 3]]%Z)
    by (repeat constructor).
  split; [reflexivity|]. split; [lia|]. split; [reflexivity|]. split; [exact Hrows|].
  apply (C8_base_beta_dirichlet_parameter [] [[1; 0]; [2; 3]]%Z steady
           (mkWorld (bare 2) []) 2); [reflexivity|lia|reflexivity|exact Hrows].
Defined.

Lemma C9_witness :
  ltr_class LTRHDPHMMTransitions /\
  Forall (Forall (label 2)) [[0; 1; 0]%Z] /\
  (Z.of_nat (length (all_pairs [[0; 1; 0]%Z])) < 2 ^ 31)%Z /\
  Exists backward (all_pairs [[0; 1; 0]%Z]) /\
  exists tc,
    resample LTRHDPHMMTransitions (mro LTRHDPHMMTransitions) [[0; 1; 0]%Z]
             steady (mkWorld (bare 2) []) =
      Raise AssertionError (mkWorld (set_trans_counts tc (bare 2)) []) /\
    forall i j, (i < 2)%nat -> (j < 2)%nat ->
      icell tc i j = occurrences i j (all_pairs [[0; 1; 0]%Z]).
Proof.
  assert (Hlab : Forall (Forall (label 2)) [[0; 1; 0]%Z])
    by (repeat constructor; simpl; lia).
  assert (Hsmall : (Z.of_nat (length (all_pairs [[0; 1; 0]%Z])) < 2 ^ 31)%Z)
    by (simpl; lia).
  assert (Hback : Exists backward (all_pairs [[0; 1; 0]%Z]))
    by (right; left; unfold backward; simpl; lia).
  split; [left; reflexivity|]. split; [exact Hlab|]. split; [exact Hsmall|].
  split; [exact Hback|].
  apply (C9_backward_transition_fails_assertion LTRHDPHMMTransitions
           [[0; 1; 0]%Z] steady (mkWorld (bare 2) []));
    [left; reflexivity|exact Hlab|exact Hsmall|exact Hback].
Defined.


(** * Further properties of the module *)

(** ** Counting in the base class *)

(** The base counting step on fewer than 2^31 transitions: no cell wraps. *)
Lemma base_count_exact
    (rest : list class) (states_list : list (list Z)) (om : oracle) (w : world) :
  Forall (Forall (label (state_dim (self w)))) states_list ->
  (Z.of_nat (length (all_pairs states_list)) < 2 ^ 31)%Z ->
  exists tc,
    _count_transitions (HDPHMMTransitions :: rest) states_list om w =
      Ok tc (mkWorld (set_trans_counts tc (self w)) (drawn w)) /\
    counts_array (state_dim (self w)) tc /\
    forall i j, (i < state_dim (self w))%nat -> (j < state_dim (self w))%nat ->
      icell tc i j = occurrences i j (all_pairs states_list).
Proof.
  intros Hlab Hsmall.
  destruct (base_count_run rest states_list om w Hlab) as (tc & Hrun & Hsq & Hcell).
  assert (Hexact : forall i j, (i < state_dim (self w))%nat ->
            (j < state_dim (self w))%nat ->
            icell tc i j = occurrences i j (all_pairs states_list)).
  { intros i j Hi Hj. rewrite (Hcell i j Hi Hj). apply wrap32_small.
    pose proof (occurrences_nonneg i j (all_pairs states_list)).
    pose proof (occurrences_le i j (all_pairs states_list)).
    unfold int32. lia. }
  exists tc. split; [exact Hrun|]. split; [|exact Hexact].
  split; [exact Hsq|]. rewrite Forall_lookup. intros i row Hrow.
  rewrite Forall_lookup. intros j x Hx.
  assert (Hi : (i < state_dim (self w))%nat)
    by (destruct Hsq as [<- _]; by eapply lookup_lt_Some).
  assert (Hj : (j < state_dim (self w))%nat).
  { rewrite <- (is_square_row _ tc i row Hsq Hrow). by eapply lookup_lt_Some. }
  specialize (Hexact i j Hi Hj). unfold icell in Hexact.
  rewrite Hrow in Hexact. simpl in Hexact. rewrite Hx in Hexact. simpl in Hexact.
  subst x. pose proof (occurrences_nonneg i j (all_pairs states_list)).
  pose proof (occurrences_le i j (all_pairs states_list)). lia.
Qed.

(** X1: on labels of the model and fewer than 2^31 transitions in all, the
    base counting step completes without a draw, assigns its result to
    [trans_counts], and cell (i, j) of the result is the number of adjacent
    pairs i -> j over all the sequences; sequences shorter than 2 have no
    adjacent pair and add nothing. *)
Theorem X1_base_count_is_number_of_pairs
    (rest : list class) (states_list : list (list Z)) (om : oracle) (w : world) :
  Forall (Forall (label (state_dim (self w)))) states_list ->
  (Z.of_nat (length (all_pairs states_list)) < 2 ^ 31)%Z ->
  exists tc,
    _count_transitions (HDPHMMTransitions :: rest) states_list om w =
      Ok tc (mkWorld (set_trans_counts tc (self w)) (drawn w)) /\
    counts_array (state_dim (self w)) tc /\
    forall i j, (i < state_dim (self w))%nat -> (j < state_dim (self w))%nat ->
      icell tc i j = occurrences i j (all_pairs states_list).
Proof. apply base_count_exact. Qed.

Lemma X1_witness :
  Forall (Forall (label (state_dim (bare 3)))) [[0; 1; 2; 1; 0]; [2]; []]%Z /\
  (Z.of_nat (length (all_pairs [[0; 1; 2; 1; 0]; [2]; []]%Z)) < 2 ^ 31)%Z /\
  exists tc,
    _count_transitions [HDPHMMTransitions] [[0; 1; 2; 1; 0]; [2]; []]%Z steady
                       (mkWorld (bare 3) []) =
      Ok tc (mkWorld (set_trans_counts tc (bare 3)) []) /\
    counts_array (state_dim (bare 3)) tc /\
    forall i j, (i < state_dim (bare 3))%nat -> (j < state_dim (bare 3))%nat ->
      icell tc i j = occurrences i j (all_pairs [[0; 1; 2; 1; 0]; [2]; []]%Z).
Proof.
  assert (Hlab : Forall (Forall (label (state_dim (bare 3))))
                        [[0; 1; 2; 1; 0]; [2]; []]%Z)
    by (repeat constructor; simpl; lia).
  assert (Hsmall : (Z.of_nat (length (all_pairs [[0; 1; 2; 1; 0]; [2]; []]%Z))
                    < 2 ^ 31)%Z) by (simpl; lia).
  split; [exact Hlab|]. split; [exact Hsmall|].
  exact (X1_base_count_is_number_of_pairs [] _ steady (mkWorld (bare 3) [])
           Hlab Hsmall).
Defined.

Lemma norm_index_ok L s :
  index_ok L s ->
  norm_index L s = Some (Z.to_nat (wrap_label L s)) /\ label L (wrap_label L s).
Proof.
  unfold index_ok, norm_index, wrap_label, label. intros H.
  destruct (Z.leb_spec 0 s), (Z.ltb_spec s (Z.of_nat L)); simpl; try lia.
  - rewrite Z.mod_small by lia. split; [done|lia].
  - destruct (Z.leb_spec (- Z.of_nat L) s), (Z.ltb_spec s 0); simpl; try lia.
    assert (Hm : (s mod Z.of_nat L = s + Z.of_nat L)%Z).
    { symmetry. apply (Z.mod_unique _ _ (-1)); lia. }
    rewrite Hm. split; [done|lia].
Qed.

Lemma norm_index_out L s : ~ index_ok L s -> norm_index L s = None.
Proof.
  unfold index_ok, norm_index. intros H.
  destruct (Z.leb_spec 0 s), (Z.ltb_spec s (Z.of_nat L)); simpl; try lia;
    destruct (Z.leb_spec (- Z.of_nat L) s), (Z.ltb_spec s 0); simpl; try lia;
    reflexivity.
Qed.

Lemma count_pair_at L (a : imatrix) (row : ivec) p r c x om w :
  is_square L a -> norm_index L (fst p) = Some r -> a !! r = Some row ->
  norm_index L (snd p) = Some c -> row !! c = Some x ->
  count_pair a p om w = Ok (<[r := <[c := wrap32 (x + 1)]> row]> a) w.
Proof.
  intros Hsq Hr Hrow Hc Hx. unfold count_pair.
  pose proof (is_square_row L a r row Hsq Hrow) as Hlen.
  destruct Hsq as [Hlena _].
  rewrite (bind_subscript _ _ _ _ r) by (by rewrite Hlena).
  rewrite (bind_subscript _ _ _ _ row) by done.
  rewrite (bind_subscript _ _ _ _ c) by (by rewrite Hlen).
  rewrite (bind_subscript _ _ _ _ x) by done.
  reflexivity.
Qed.

(** An accepted pair of indices is counted at the positions the indices
    stand for. *)
Lemma count_pair_ok L (a : imatrix) p om w :
  is_square L a -> indices_ok L p ->
  exists a', count_pair a p om w = Ok a' w /\ is_square L a' /\
    count_pair a (wrap_label L (fst p), wrap_label L (snd p)) om w = Ok a' w.
Proof.
  intros Hsq [Hi Hj].
  destruct (norm_index_ok L _ Hi) as [Hni Hli].
  destruct (norm_index_ok L _ Hj) as [Hnj Hlj].
  assert (Hri : (Z.to_nat (wrap_label L (fst p)) < L)%nat)
    by (unfold label in Hli; lia).
  assert (Hrj : (Z.to_nat (wrap_label L (snd p)) < L)%nat)
    by (unfold label in Hlj; lia).
  destruct (is_square_lookup L a _ Hsq Hri) as (row & Hrow & Hlen).
  destruct (lookup_lt_is_Some_2 row (Z.to_nat (wrap_label L (snd p)))) as [x Hx];
    [lia|].
  eexists. split; [|split].
  - by eapply (count_pair_at L).
  - apply is_square_insert; [done|]. by rewrite length_insert.
  - eapply (count_pair_at L); try done; simpl; by apply norm_index_label.
Qed.

(** A pair with an index out of bounds raises [IndexError]. *)
Lemma count_pair_bad L (a : imatrix) p om w :
  is_square L a -> ~ indices_ok L p -> count_pair a p om w = Raise IndexError w.
Proof.
  intros Hsq Hbad. unfold count_pair.
  destruct (decide (index_ok L (fst p))) as [Hi|Hi].
  - destruct (norm_index_ok L _ Hi) as [Hni Hli].
    assert (Hri : (Z.to_nat (wrap_label L (fst p)) < L)%nat)
      by (unfold label in Hli; lia).
    destruct (is_square_lookup L a _ Hsq Hri) as (row & Hrow & Hlen).
    destruct Hsq as [Hlena _].
    rewrite Hlena, Hni. simpl. rewrite bind_ret.
    rewrite (bind_subscript _ _ _ _ row) by done.
    rewrite Hlen, norm_index_out; [reflexivity|].
    intros Hj. apply Hbad. by split.
  - destruct Hsq as [Hlena _]. rewrite Hlena, norm_index_out by done. reflexivity.
Qed.

Lemma count_pairs_ok L ps : forall (a : imatrix) om w,
  is_square L a -> Forall (indices_ok L) ps ->
  exists a', foldM count_pair ps a om w = Ok a' w /\ is_square L a' /\
    foldM count_pair (prod_map (wrap_label L) (wrap_label L) <$> ps) a om w = Ok a' w.
Proof.
  induction ps as [|p ps IH]; intros a om w Hsq Hall.
  - exists a. done.
  - inversion Hall as [|? ? Hp Hps]; subst.
    destruct (count_pair_ok L a p om w Hsq Hp) as (a1 & H1 & Hsq1 & H1').
    destruct (IH a1 om w Hsq1 Hps) as (a2 & H2 & Hsq2 & H2').
    exists a2. split; [|split; [done|]].
    + simpl. by rewrite (bind_ok _ _ _ _ a1 w H1).
    + rewrite fmap_cons. simpl. by rewrite (bind_ok _ _ _ _ a1 w H1').
Qed.

Lemma count_pairs_bad L ps : forall (a : imatrix) om w,
  is_square L a -> Exists (fun p => ~ indices_ok L p) ps ->
  foldM count_pair ps a om w = Raise IndexError w.
Proof.
  induction ps as [|p ps IH]; intros a om w Hsq Hex.
  - by apply Exists_nil in Hex.
  - simpl. destruct (decide (indices_ok L p)) as [Hp|Hp].
    + destruct (count_pair_ok L a p om w Hsq Hp) as (a1 & H1 & Hsq1 & _).
      rewrite (bind_ok _ _ _ _ a1 w H1). apply IH; [done|].
      apply Exists_cons in Hex as [Hex|Hex]; [contradiction|done].
    + by rewrite (bind_raise _ _ _ _ IndexError w (count_pair_bad L a p om w Hsq Hp)).
Qed.

Lemma adjacent_cons x y (s : list Z) :
  adjacent (x :: y :: s) = (x, y) :: adjacent (y :: s).
Proof. reflexivity. Qed.

Lemma adjacent_fmap (f : Z -> Z) (s : list Z) :
  adjacent (f <$> s) = prod_map f f <$> adjacent s.
Proof.
  induction s as [|x s IH]; [reflexivity|].
  destruct s as [|y s]; [reflexivity|].
  rewrite !fmap_cons, !adjacent_cons, fmap_cons. f_equal. exact IH.
Qed.

Lemma all_pairs_fmap (f : Z -> Z) (states_list : list (list Z)) :
  all_pairs ((fun s : list Z => f <$> s) <$> states_list) =
  prod_map f f <$> all_pairs states_list.
Proof.
  unfold all_pairs. induction states_list as [|s sl IH]; [reflexivity|].
  rewrite !fmap_cons. simpl. rewrite fmap_app, adjacent_fmap. f_equal. exact IH.
Qed.

(** ** Indices of the counting step *)

(** X2: when some adjacent pair of some sequence has a label that is not an
    index of the count array, that is a label outside [-L, L), the base
    counting step raises IndexError; no draw has been made and the object is
    as before the call: [trans_counts] is assigned only after the loop. *)
Theorem X2_label_out_of_bounds_raises_IndexError
    (rest : list class) (states_list : list (list Z)) (om : oracle) (w : world) :
  Exists (fun p => ~ indices_ok (state_dim (self w)) p) (all_pairs states_list) ->
  _count_transitions (HDPHMMTransitions :: rest) states_list om w =
    Raise IndexError w.
Proof.
  intros Hex. cbn [_count_transitions]. rewrite bind_attr.
  apply bind_raise. rewrite count_all_run.
  apply (count_pairs_bad (state_dim (self w))); [apply zeros_square|exact Hex].
Qed.

Lemma X2_witness :
  Exists (fun p => ~ indices_ok (state_dim (bare 2)) p) (all_pairs [[0; 1; 2]%Z]) /\
  _count_transitions [HDPHMMTransitions] [[0; 1; 2]%Z] steady (mkWorld (bare 2) []) =
    Raise IndexError (mkWorld (bare 2) []).
Proof.
  assert (Hex : Exists (fun p => ~ indices_ok (state_dim (bare 2)) p)
                       (all_pairs [[0; 1; 2]%Z])).
  { apply Exists_cons_tl, Exists_cons_hd. unfold indices_ok, index_ok. simpl. lia. }
  split; [exact Hex|].
  exact (X2_label_out_of_bounds_raises_IndexError [] _ steady
           (mkWorld (bare 2) []) Hex).
Defined.

(** X3: the base counting step accepts every label in [-L, L) and reads a
    negative label s as the state s + L, as numpy indexing does: on such
    sequences it completes, and it returns and assigns the same counts as on
    the sequences with every label s replaced by s mod L.  A label of a
    sequence shorter than 2 is never used as an index. *)
Theorem X3_negative_labels_count_from_the_end
    (rest : list class) (states_list : list (list Z)) (om : oracle) (w : world) :
  Forall (indices_ok (state_dim (self w))) (all_pairs states_list) ->
  exists tc,
    _count_transitions (HDPHMMTransitions :: rest) states_list om w =
      Ok tc (mkWorld (set_trans_counts tc (self w)) (drawn w)) /\
    _count_transitions (HDPHMMTransitions :: rest)
      ((fun s : list Z => wrap_label (state_dim (self w)) <$> s) <$> states_list)
      om w =
      Ok tc (mkWorld (set_trans_counts tc (self w)) (drawn w)).
Proof.
  intros Hall.
  destruct (count_pairs_ok (state_dim (self w)) (all_pairs states_list)
              (zeros (state_dim (self w)) (state_dim (self w))) om w
              (zeros_square _) Hall) as (tc & H1 & _ & H2).
  exists tc. split.
  - cbn [_count_transitions]. rewrite bind_attr.
    rewrite (bind_ok _ _ _ _ tc w) by (rewrite count_all_run; exact H1).
    reflexivity.
  - cbn [_count_transitions]. rewrite bind_attr.
    rewrite (bind_ok _ _ _ _ tc w)
      by (rewrite count_all_run, all_pairs_fmap; exact H2).
    reflexivity.
Qed.

Lemma X3_witness :
  Forall (indices_ok (state_dim (bare 3))) (all_pairs [[0; -1; -3; 2]; [7]]%Z) /\
  exists tc,
    _count_transitions [HDPHMMTransitions] [[0; -1; -3; 2]; [7]]%Z steady
                       (mkWorld (bare 3) []) =
      Ok tc (mkWorld (set_trans_counts tc (bare 3)) []) /\
    _count_transitions [HDPHMMTransitions]
      ((fun s : list Z => wrap_label (state_dim (bare 3)) <$> s) <$>
         [[0; -1; -3; 2]; [7]]%Z)
      steady (mkWorld (bare 3) []) =
      Ok tc (mkWorld (set_trans_counts tc (bare 3)) []).
Proof.
  assert (Hall : Forall (indices_ok (state_dim (bare 3)))
                        (all_pairs [[0; -1; -3; 2]; [7]]%Z))
    by (repeat constructor; simpl; lia).
  split; [exact Hall|].
  exact (X3_negative_labels_count_from_the_end [] _ steady (mkWorld (bare 3) []) Hall).
Defined.

(** ** Counting in the semi-Markov classes *)

(** The adjacent pairs of a collapsed sequence are the adjacent pairs of the
    sequence that change state, in the same order. *)
Lemma adjacent_rle (s : list Z) :
  adjacent (fst (rle s)) = filter change_of_state (adjacent s).
Proof.
  induction s as [|x s IH]; [reflexivity|].
  rewrite rle_cons. destruct (rle_head s) as [_ Hhead].
  destruct (fst (rle s)) as [|y ids] eqn:E.
  - destruct s; [reflexivity|discriminate].
  - destruct s as [|y' s']; simpl in Hhead; [discriminate|].
    injection Hhead as ->. rewrite adjacent_cons, filter_cons.
    unfold change_of_state at 1. simpl fst. simpl snd.
    destruct (Z.eqb_spec x y') as [->|Hne].
    + rewrite decide_False by (intros Hc; by apply Hc). exact IH.
    + rewrite decide_True by done. rewrite adjacent_cons.
      f_equal. rewrite <- IH. reflexivity.
Qed.

Lemma all_pairs_states_noreps (stateseqs : list (list Z)) :
  all_pairs (states_noreps stateseqs) = filter change_of_state (all_pairs stateseqs).
Proof.
  unfold all_pairs, states_noreps.
  induction stateseqs as [|s sl IH]; [reflexivity|].
  rewrite !fmap_cons. simpl. rewrite filter_app, adjacent_rle. f_equal. exact IH.
Qed.

Lemma occurrences_changes i j (ps : list (Z * Z)) :
  occurrences i j (filter change_of_state ps) =
  if decide (i = j) then 0%Z else occurrences i j ps.
Proof.
  unfold occurrences. induction ps as [|p ps IH].
  - by destruct (decide (i = j)).
  - rewrite (filter_cons (fun p => p = _) p ps).
    rewrite (filter_cons change_of_state).
    destruct (decide (change_of_state p)) as [Hc|Hc].
    + rewrite (filter_cons (fun p => p = _)).
      destruct (decide (p = (Z.of_nat i, Z.of_nat j))) as [->|Hp].
      * destruct (decide (i = j)) as [->|Hij]; [by destruct Hc|].
        rewrite !length_cons, !Nat2Z.inj_succ. by rewrite IH.
      * exact IH.
    + destruct (decide (p = (Z.of_nat i, Z.of_nat j))) as [->|Hp]; [|exact IH].
      destruct (decide (i = j)) as [->|Hij]; [exact IH|].
      exfalso. apply Hc. unfold change_of_state. simpl. lia.
Qed.

Lemma rle_labels L (s : list Z) : Forall (label L) s -> Forall (label L) (fst (rle s)).
Proof.
  induction 1 as [|x s Hx Hs IH]; [constructor|].
  rewrite rle_cons. destruct (fst (rle s)) as [|y ids]; [by constructor|].
  destruct (x =? y)%Z; [done|by constructor].
Qed.

(** X4: the counts the semi-Markov resample computes before augmenting them
    are the changes of state of the caller's sequences: on labels of the
    model and fewer than 2^31 transitions in all, counting the collapsed
    sequences completes without a draw, cell (i, j) with i <> j is the
    number of adjacent pairs i -> j of the sequences as given, and the
    diagonal is 0, however long the runs are. *)
Theorem X4_semi_markov_counts_are_changes_of_state
    (c : class) (stateseqs : list (list Z)) (om : oracle) (w : world) :
  hsmm_class c ->
  Forall (Forall (label (state_dim (self w)))) stateseqs ->
  (Z.of_nat (length (all_pairs stateseqs)) < 2 ^ 31)%Z ->
  exists tc,
    _count_transitions (mro c) (states_noreps stateseqs) om w =
      Ok tc (mkWorld (set_trans_counts tc (self w)) (drawn w)) /\
    forall i j, (i < state_dim (self w))%nat -> (j < state_dim (self w))%nat ->
      icell tc i j =
      if decide (i = j) then 0%Z else occurrences i j (all_pairs stateseqs).
Proof.
  intros Hc Hlab Hsmall.
  assert (Hlab' : Forall (Forall (label (state_dim (self w))))
                         (states_noreps stateseqs)).
  { unfold states_noreps. apply Forall_fmap.
    eapply Forall_impl; [exact Hlab|]. intros s Hs. by apply rle_labels. }
  destruct (base_count_run [] (states_noreps stateseqs) om w Hlab')
    as (tc & Hrun & _ & Hcell).
  exists tc. split.
  - destruct Hc as [-> | ->]; exact Hrun.
  - intros i j Hi Hj. rewrite (Hcell i j Hi Hj), all_pairs_states_noreps.
    rewrite wrap32_small; [apply occurrences_changes|].
    pose proof (occurrences_nonneg i j (filter change_of_state (all_pairs stateseqs))).
    pose proof (occurrences_le i j (filter change_of_state (all_pairs stateseqs))).
    pose proof (length_filter change_of_state (all_pairs stateseqs)).
    unfold int32. lia.
Qed.

Lemma X4_witness :
  hsmm_class HDPHSMMTransitions /\
  Forall (Forall (label (state_dim (bare 2)))) [[0; 0; 0; 1; 1; 0]%Z] /\
  (Z.of_nat (length (all_pairs [[0; 0; 0; 1; 1; 0]%Z])) < 2 ^ 31)%Z /\
  exists tc,
    _count_transitions (mro HDPHSMMTransitions)
                       (states_noreps [[0; 0; 0; 1; 1; 0]%Z]) steady
                       (mkWorld (bare 2) []) =
      Ok tc (mkWorld (set_trans_counts tc (bare 2)) []) /\
    forall i j, (i < state_dim (bare 2))%nat -> (j < state_dim (bare 2))%nat ->
      icell tc i j =
      if decide (i = j) then 0%Z
      else occurrences i j (all_pairs [[0; 0; 0; 1; 1; 0]%Z]).
Proof.
  assert (Hc : hsmm_class HDPHSMMTransitions) by (by left).
  assert (Hlab : Forall (Forall (label (state_dim (bare 2)))) [[0; 0; 0; 1; 1; 0]%Z])
    by (repeat constructor; simpl; lia).
  assert (Hsmall : (Z.of_nat (length (all_pairs [[0; 0; 0; 1; 1; 0]%Z])) < 2 ^ 31)%Z)
    by (simpl; lia).
  split; [exact Hc|]. split; [exact Hlab|]. split; [exact Hsmall|].
  exact (X4_semi_markov_counts_are_changes_of_state HDPHSMMTransitions _ steady
           (mkWorld (bare 2) []) Hc Hlab Hsmall).
Defined.

(** ** The beta step of the sticky classes *)

Lemma base_resample_beta_inv rest (mm : imatrix) om w w' :
  _resample_beta (HDPHMMTransitions :: rest) mm om w = Ok tt w' ->
  exists v,
    om (length (drawn w))
       (dirichlet (beta_parameter (gamma (self w)) (state_dim (self w)) mm)) = Value v /\
    w' = mkWorld (set_beta (floats_of v (length (isum_axis0 mm))) (self w))
           (drawn w ++
              [dirichlet (beta_parameter (gamma (self w)) (state_dim (self w)) mm)]).
Proof.
  cbn [_resample_beta]. rewrite !bind_attr.
  destruct (state_dim (self w) =? 0)%nat; [discriminate|].
  rewrite bind_ret. intros H.
  apply bind_sample_inv in H as (v & Hv & H). rewrite assign_run in H.
  injection H as <-. exists v. split; [exact Hv|].
  cbn [self drawn]. unfold beta_parameter. by rewrite length_fmap.
Qed.

Lemma divide_cells_inv (x d p : vec) om w w' :
  divide_cells x d om w = Ok p w' -> w' = w.
Proof.
  unfold divide_cells. intros H. apply bind_inv in H as ([] & w1 & Hc & H).
  apply fp_check_inv in Hc as [-> _]. by injection H.
Qed.

(** The sticky beta step asks for its binomial variates when [m] has a
    positive sum, and hands [m] itself to the class after it. *)
Lemma sticky_resample_beta_run super (mm : imatrix) om w w' :
  _resample_beta (StickyHDPHMMTransitions :: super) mm om w = Ok tt w' ->
  exists pre,
    ((isum_all mm <= 0)%Z -> pre = []) /\
    ((0 < isum_all mm)%Z -> exists n p, pre = [binomial n p]) /\
    _resample_beta super mm om (mkWorld (set_newm mm (self w)) (drawn w ++ pre)) =
      Ok tt w'.
Proof.
  cbn [_resample_beta]. intros H.
  apply bind_inv in H as ([] & w1 & Hpre & H). rewrite bind_assign in H.
  destruct (Z.ltb_spec 0 (isum_all mm)) as [Hpos|Hnonpos].
  - apply bind_subscript_inv in Hpre as (n & _ & Hpre).
    apply bind_attr_opt_inv in Hpre as (b & _ & Hpre).
    apply bind_subscript_inv in Hpre as (b_i & _ & Hpre).
    rewrite !bind_attr in Hpre.
    apply bind_inv in Hpre as (p & w2 & Hdiv & Hpre).
    apply divide_cells_inv in Hdiv as ->.
    apply bind_sample_inv in Hpre as (v & _ & Hpre).
    injection Hpre as <-. cbn [self drawn] in H.
    exists [binomial n p]. split; [lia|]. split; [eauto|exact H].
  - injection Hpre as <-. exists []. split; [done|]. split; [lia|].
    by rewrite app_nil_r.
Qed.

Lemma sticky_class_resample_beta c (mm : imatrix) :
  sticky_class c ->
  exists rest,
    _resample_beta (mro c) mm =
    _resample_beta (StickyHDPHMMTransitions :: HDPHMMTransitions :: rest) mm.
Proof.
  intros [-> | [-> | ->]];
    [exists [] | exists [ConcentrationResampling] | exists []]; reflexivity.
Qed.

(** X5: in the sticky classes the beta step leaves every table count in
    [newm]: after a completed step [newm] is the array [m] it was given,
    whatever the binomial variates were, because they are stored through
    [newm.flat[::L+1][indices]], a subscript of the flat iterator that numpy
    answers with a copy.  The Dirichlet parameter of beta is therefore
    gamma/L + m.sum(0) + 1e-2, computed from [m]; the binomial request is
    made exactly when [m] has a positive sum. *)
Theorem X5_sticky_beta_step_keeps_every_table_count
    (c : class) (mm : imatrix) (om : oracle) (w w' : world) :
  sticky_class c ->
  _resample_beta (mro c) mm om w = Ok tt w' ->
  newm (self w') = Some mm /\
  exists pre v,
    drawn w' =
      drawn w ++ pre ++
      [dirichlet (beta_parameter (gamma (self w)) (state_dim (self w)) mm)] /\
    ((isum_all mm <= 0)%Z -> pre = []) /\
    ((0 < isum_all mm)%Z -> exists n p, pre = [binomial n p]) /\
    om (length (drawn w ++ pre))
       (dirichlet (beta_parameter (gamma (self w)) (state_dim (self w)) mm)) = Value v /\
    beta (self w') = Some (floats_of v (length (isum_axis0 mm))).
Proof.
  intros Hc H. destruct (sticky_class_resample_beta c mm Hc) as [rest Heq].
  rewrite Heq in H.
  apply sticky_resample_beta_run in H as (pre & Hnil & Hbin & H).
  apply base_resample_beta_inv in H as (v & Hv & ->). cbn [self drawn] in *.
  split; [reflexivity|]. exists pre, v.
  split; [by rewrite <- app_assoc|]. done.
Qed.

Lemma X5_witness :
  sticky_class StickyHDPHMMTransitions /\
  newm (self (world_of (_resample_beta (mro StickyHDPHMMTransitions) [[2; 0]; [0; 3]]%Z
                          steady (mkWorld (set_beta [1 # 2; 1 # 2] (bare 2)) [])))) =
    Some [[2; 0]; [0; 3]]%Z.
Proof.
  assert (Hc : sticky_class StickyHDPHMMTransitions) by (by left).
  split; [exact Hc|].
  exact (proj1 (X5_sticky_beta_step_keeps_every_table_count StickyHDPHMMTransitions
                  [[2; 0]; [0; 3]]%Z steady
                  (mkWorld (set_beta [1 # 2; 1 # 2] (bare 2)) []) _ Hc eq_refl)).
Defined.

Lemma zsum_zeros {T} (l : list T) : zsum ((fun _ => 0%Z) <$> l) = 0%Z.
Proof. unfold zsum. induction l as [|x l IH]; simpl; [reflexivity|]. exact IH. Qed.

(** [(a - a).sum()] is 0. *)
Lemma isum_all_sub_int32_self (a : imatrix) : isum_all (sub_int32 a a) = 0%Z.
Proof.
  unfold isum_all, isum_axis1, sub_int32. rewrite zip_with_diag, <- list_fmap_compose.
  rewrite <- (zsum_zeros a). f_equal. apply list_fmap_ext. intros _ row _. simpl.
  rewrite zip_with_diag. rewrite <- (zsum_zeros row). f_equal.
  apply list_fmap_ext. intros _ x _. rewrite Z.sub_diag. reflexivity.
Qed.

Lemma get_m_assigns (tc mm : imatrix) om w w' :
  _get_m tc om w = Ok mm w' -> m (self w') = Some mm.
Proof.
  unfold _get_m. rewrite bind_attr. intros H.
  apply bind_inv in H as (mm1 & w1 & _ & H). rewrite bind_assign in H.
  by injection H as <- <-.
Qed.

Lemma resample_beta_m c mm : preserves m (_resample_beta (mro c) mm).
Proof. destruct c; cbn [mro _resample_beta]; preserves. Qed.

Lemma resample_A_m c data : preserves m (_resample_A (mro c) data).
Proof. destruct c; cbn [mro _resample_A]; preserves. Qed.

Lemma resample_A_newm c data : preserves newm (_resample_A (mro c) data).
Proof. destruct c; cbn [mro _resample_A]; preserves. Qed.

Lemma sticky_resample_beta_newm c (mm : imatrix) om w w' :
  sticky_class c -> _resample_beta (mro c) mm om w = Ok tt w' ->
  newm (self w') = Some mm.
Proof.
  intros Hc H. destruct (sticky_class_resample_beta c mm Hc) as [rest Heq].
  rewrite Heq in H.
  apply sticky_resample_beta_run in H as (pre & _ & _ & H).
  by apply base_resample_beta_inv in H as (v & _ & ->).
Qed.

(** After a completed sweep of a sticky class that counts as the base class
    does, [m] and [newm] are the same array. *)
Lemma sticky_sweep_newm c states_list om w w' :
  sticky_class c ->
  HDPHMMTransitions_resample c states_list om w = Ok tt w' ->
  exists mm, m (self w') = Some mm /\ newm (self w') = Some mm.
Proof.
  intros Hc H. unfold HDPHMMTransitions_resample in H.
  apply bind_inv in H as (tc & w1 & _ & H).
  apply bind_inv in H as (mm & w2 & Hm & H).
  apply bind_inv in H as ([] & w3 & Hbeta & H).
  apply get_m_assigns in Hm.
  pose proof (resample_beta_m c mm om w2) as Hm3. rewrite Hbeta in Hm3.
  simpl in Hm3.
  pose proof (sticky_resample_beta_newm c mm om w2 w3 Hc Hbeta) as Hn3.
  pose proof (resample_A_m c (to_float tc) om w3) as Hm4. rewrite H in Hm4.
  pose proof (resample_A_newm c (to_float tc) om w3) as Hn4. rewrite H in Hn4.
  simpl in Hm4, Hn4. exists mm. split; congruence.
Qed.

(** ** The sticky classes: what becomes of the override counts *)

(** X6: in a completed resample of the sticky class with concentration
    resampling, [m] and [newm] are the same array when rho is drawn, so the
    count of overrides (m - newm).sum() is 0: rho is drawn from
    Beta(rho_a_0 + 0, rho_b_0 + m.sum()), whatever the data and whatever the
    binomial variates of the beta step were. *)
Theorem X6_sticky_conc_rho_sees_no_override
    (states_list : list (list Z)) (om : oracle) (w w' : world) :
  resample StickyHDPHMMTransitionsConcResampling
           (mro StickyHDPHMMTransitionsConcResampling) states_list om w = Ok tt w' ->
  exists mm v dr,
    m (self w') = Some mm /\ newm (self w') = Some mm /\
    drawn w' =
      dr ++ [beta_rv (rho_a_0 (self w') + inject_Z 0)
                     (rho_b_0 (self w') + inject_Z (isum_all mm))] /\
    om (length dr)
       (beta_rv (rho_a_0 (self w') + inject_Z 0)
                (rho_b_0 (self w') + inject_Z (isum_all mm))) = Value v /\
    rho (self w') = float_of v.
Proof.
  cbn [mro resample]. intros H.
  apply bind_inv in H as ([] & w1 & Hcore & H).
  apply bind_inv in H as ([] & w2 & Hconc & H).
  apply sticky_sweep_newm in Hcore as (mm & Hm1 & Hn1); [|right; by left].
  apply ConcentrationResampling_resample_result in Hconc
    as (_ & _ & Hm2 & Hn2 & _).
  rewrite Hm1 in Hm2. rewrite Hn1 in Hn2.
  rewrite bind_attr in H.
  rewrite (bind_attr_opt _ _ _ _ mm Hm2) in H.
  rewrite (bind_attr_opt _ _ _ _ mm Hn2) in H.
  apply bind_same_shape_inv in H as [_ H].
  rewrite bind_attr in H.
  rewrite (bind_attr_opt _ _ _ _ mm Hn2) in H.
  rewrite isum_all_sub_int32_self in H.
  apply bind_sample_inv in H as (v & Hv & H).
  rewrite bind_assign, bind_attr, bind_attr, bind_attr, assign_run in H.
  injection H as <-. exists mm, v, (drawn w2). simpl.
  repeat split; done.
Qed.

Lemma X6_witness :
  resample StickyHDPHMMTransitionsConcResampling
           (mro StickyHDPHMMTransitionsConcResampling) [[0; 1; 1; 0]%Z]
           steady (mkWorld sticky_conc2 []) = Ok tt sticky_conc2_resampled /\
  exists mm v dr,
    m (self sticky_conc2_resampled) = Some mm /\
    newm (self sticky_conc2_resampled) = Some mm /\
    drawn sticky_conc2_resampled =
      dr ++ [beta_rv (rho_a_0 (self sticky_conc2_resampled) + inject_Z 0)
                     (rho_b_0 (self sticky_conc2_resampled) + inject_Z (isum_all mm))] /\
    steady (length dr)
       (beta_rv (rho_a_0 (self sticky_conc2_resampled) + inject_Z 0)
                (rho_b_0 (self sticky_conc2_resampled) + inject_Z (isum_all mm)))
      = Value v /\
    rho (self sticky_conc2_resampled) = float_of v.
Proof.
  assert (H : resample StickyHDPHMMTransitionsConcResampling
                (mro StickyHDPHMMTransitionsConcResampling) [[0; 1; 1; 0]%Z]
                steady (mkWorld sticky_conc2 []) = Ok tt sticky_conc2_resampled)
    by (vm_compute; reflexivity).
  split; [exact H|].
  exact (X6_sticky_conc_rho_sees_no_override _ _ _ _ H).
Defined.

(** ** Completion of the base sweep *)

Lemma foldM_total {T U} (f : U -> T -> M U) om (P : T -> Prop)
    (I : U -> world -> Prop) :
  (forall acc x w, P x -> I acc w ->
     exists acc' w', f acc x om w = Ok acc' w' /\ I acc' w') ->
  forall l acc w, Forall P l -> I acc w ->
  exists acc' w', foldM f l acc om w = Ok acc' w' /\ I acc' w'.
Proof.
  intros Hf. induction l as [|x l IH]; intros acc w Hall HI.
  - exists acc, w. done.
  - inversion Hall as [|? ? Hx Hl]; subst.
    destruct (Hf acc x w Hx HI) as (acc1 & w1 & H1 & HI1).
    destruct (IH acc1 w1 Hl HI1) as (acc2 & w2 & H2 & HI2).
    exists acc2, w2. split; [|done]. simpl. by rewrite (bind_ok _ _ _ _ _ _ H1).
Qed.

Lemma ndenumerate_Forall (P : nat * nat * Z -> Prop) (tc : imatrix) :
  (forall i j row x, tc !! i = Some row -> row !! j = Some x -> P (i, j, x)) ->
  Forall P (ndenumerate tc).
Proof.
  intros H. unfold ndenumerate. apply Forall_concat.
  rewrite Forall_lookup. intros i cells. rewrite list_lookup_imap.
  destruct (tc !! i) as [row|] eqn:Hrow; simpl; [|done]. intros [= <-].
  rewrite Forall_lookup. intros j c. rewrite list_lookup_imap.
  destruct (row !! j) as [x|] eqn:Hx; simpl; [|done]. intros [= <-].
  by eapply H.
Qed.

(** One turn of the loop of [_get_m] completes when the trial probabilities
    are defined; the count it stores is not negative. *)
Lemma get_m_cell_total L (mm : imatrix) i j val (b : vec) om w :
  is_square L mm -> Forall (Forall (fun x => 0 <= x)%Z) mm ->
  (i < L)%nat -> (j < L)%nat -> (0 <= val < 2 ^ 31)%Z ->
  beta (self w) = Some b -> length b = L ->
  (val = 0%Z \/ 0 < alpha (self w) * vcell b j) ->
  (exists u, om (length (drawn w)) (rand val) = Value u) ->
  exists mm',
    get_m_cell mm (i, j, val) om w =
      Ok mm' (mkWorld (self w) (drawn w ++ [rand val])) /\
    is_square L mm' /\ Forall (Forall (fun x => 0 <= x)%Z) mm'.
Proof.
  intros Hsq Hnn Hi Hj Hval Hb Hlen Hab [u Hu].
  destruct (is_square_lookup L mm i Hsq Hi) as (row & Hrow & Hrlen).
  destruct (lookup_lt_is_Some_2 row j) as [x Hx]; [lia|].
  destruct (lookup_lt_is_Some_2 b j) as [b_j Hbj]; [lia|].
  unfold vcell in Hab. rewrite Hbj in Hab. simpl in Hab.
  assert (Hden : Forall (fun y => ~ y == 0)
            ((fun k => k + alpha (self w) * b_j) <$> arange (Z.to_nat val))).
  { destruct Hab as [-> | Hab]; [constructor|].
    apply Forall_fmap, Forall_fmap, Forall_true. intros k. simpl.
    pose proof (Q_of_nat_nonneg k). lra. }
  eexists. split; [|split].
  - unfold get_m_cell.
    rewrite (bind_ok _ _ _ _ _ _ (sample_value _ _ _ _ Hu)).
    rewrite bind_attr. simpl self.
    rewrite (bind_attr_opt _ _ _ _ b) by exact Hb.
    rewrite (bind_subscript _ _ _ _ b_j Hbj).
    rewrite (bind_ok _ _ _ _ _ _ (divide_cells_ok _ _ _ _ Hden)).
    rewrite (bind_subscript _ _ _ _ row Hrow), (bind_subscript _ _ _ _ x Hx).
    rewrite ret_run. reflexivity.
  - apply is_square_insert; [done|]. by rewrite length_insert.
  - apply Forall_insert; [done|]. apply Forall_insert.
    + rewrite Forall_lookup in Hnn. by eapply Hnn.
    + rewrite successes_bernoulli.
      pose proof (bernoulli_successes_bounds (floats u 0%nat)
        (fun k => alpha (self w) * b_j / (Q_of_nat k + alpha (self w) * b_j))
        (Z.to_nat val)) as Hbound.
      rewrite wrap32_small; [lia|]. unfold int32. lia.
Qed.

Lemma zeros_nonneg r c : Forall (Forall (fun x => 0 <= x)%Z) (zeros r c).
Proof. unfold zeros. apply Forall_replicate, Forall_replicate. lia. Qed.

Lemma counts_array_cells L (tc : imatrix) i j row x :
  counts_array L tc -> tc !! i = Some row -> row !! j = Some x ->
  (i < L)%nat /\ (j < L)%nat /\ (0 <= x < 2 ^ 31)%Z.
Proof.
  intros [Hsq Hall] Hrow Hx.
  assert (Hi : (i < L)%nat) by (destruct Hsq as [<- _]; by eapply lookup_lt_Some).
  split; [done|]. split.
  - rewrite <- (is_square_row _ tc i row Hsq Hrow). by eapply lookup_lt_Some.
  - by eapply (Forall2_cells (fun x => 0 <= x < 2 ^ 31)%Z).
Qed.

(** [_get_m] completes on an array of counts: without a draw when the counts
    are all 0, and otherwise when alpha and the entries of beta are
    positive. *)
Lemma get_m_total L (tc : imatrix) om w :
  state_dim (self w) = L -> counts_array L tc ->
  (all_zero tc = true \/
   exists b, beta (self w) = Some b /\ length b = L /\ 0 < alpha (self w) /\
             Forall (fun x => 0 < x) b) ->
  (forall k n, (0 <= n)%Z -> exists v, om k (rand n) = Value v) ->
  exists mm w',
    _get_m tc om w = Ok mm w' /\ self w' = set_m mm (self w) /\
    is_square L mm /\ Forall (Forall (fun x => 0 <= x)%Z) mm /\
    (all_zero tc = true -> mm = zeros L L /\ drawn w' = drawn w).
Proof.
  intros HL Htc Hcase Hrand. unfold _get_m. rewrite bind_attr, HL.
  destruct (all_zero tc) eqn:Hz; simpl negb; cbv iota.
  - rewrite bind_ret, bind_assign, ret_run. eexists _, _. split; [reflexivity|].
    split; [reflexivity|]. split; [apply zeros_square|].
    split; [apply zeros_nonneg|]. done.
  - destruct Hcase as [?|(b & Hb & Hlen & Ha & Hbpos)]; [discriminate|].
    destruct (foldM_total get_m_cell om
                (fun cell => (fst (fst cell) < L)%nat /\ (snd (fst cell) < L)%nat /\
                             (0 <= snd cell < 2 ^ 31)%Z)
                (fun mm w1 => self w1 = self w /\ is_square L mm /\
                              Forall (Forall (fun x => 0 <= x)%Z) mm))
      with (l := ndenumerate tc) (acc := zeros L L) (w := w)
      as (mm & w1 & Hrun & Hself & Hsq & Hnn).
    + intros acc [[i j] val] w0 (Hi & Hj & Hval) (Hs & Hsq & Hnn). simpl in Hi, Hj, Hval.
      destruct (get_m_cell_total L acc i j val b om w0) as (mm' & Hrun & Hsq' & Hnn');
        try done.
      * by rewrite Hs.
      * right. rewrite Hs. apply Qmult_lt_0_compat; [done|].
        unfold vcell. destruct (lookup_lt_is_Some_2 b j) as [b_j Hbj]; [lia|].
        rewrite Hbj. simpl. rewrite Forall_lookup in Hbpos. by eapply Hbpos.
      * apply Hrand. lia.
      * eexists _, _. split; [exact Hrun|]. done.
    + apply ndenumerate_Forall. intros i j row x Hrow Hx. simpl.
      by eapply counts_array_cells.
    + split; [done|]. split; [apply zeros_square|apply zeros_nonneg].
    + rewrite (bind_ok _ _ _ _ _ _ Hrun), bind_assign, ret_run.
      eexists _, _. split; [reflexivity|]. simpl. rewrite Hself.
      split; [done|]. split; [done|]. split; [done|]. intros; discriminate.
Qed.

Lemma isum_axis0_nonneg L (mm : imatrix) :
  (0 < L)%nat -> is_square L mm -> Forall (Forall (fun x => 0 <= x)%Z) mm ->
  Forall (fun x => 0 <= x)%Z (isum_axis0 mm).
Proof.
  intros Hpos [Hlen Hall] Hnn. rewrite Forall_lookup. intros j s Hs.
  assert (Hj : (j < L)%nat).
  { rewrite <- (isum_axis0_length mm L); [by eapply lookup_lt_Some|lia|done]. }
  rewrite (isum_axis0_lookup mm L j) in Hs by (lia || done).
  injection Hs as <-. unfold column_sum. apply zsum_nonneg, Forall_fmap.
  eapply Forall_impl; [exact Hnn|]. intros row Hrow. simpl.
  destruct (row !! j) as [x|] eqn:Hx; simpl; [|lia].
  rewrite Forall_lookup in Hrow. by eapply Hrow.
Qed.

Lemma Q_of_nat_pos L : (0 < L)%nat -> 0 < Q_of_nat L.
Proof. intros H. unfold Q_of_nat. change 0 with (inject_Z 0). rewrite <- Zlt_Qlt. lia. Qed.

Lemma beta_parameter_pos L g (mm : imatrix) :
  (0 < L)%nat -> is_square L mm -> Forall (Forall (fun x => 0 <= x)%Z) mm -> 0 <= g ->
  Forall (fun x => 0 < x) (beta_parameter g L mm).
Proof.
  intros Hpos Hsq Hnn Hg. unfold beta_parameter. apply Forall_fmap.
  eapply Forall_impl; [by apply (isum_axis0_nonneg L)|]. intros s Hs. simpl.
  assert (0 <= g / Q_of_nat L).
  { apply Qle_shift_div_l; [by apply Q_of_nat_pos|]. by rewrite Qmult_0_l. }
  assert (0 <= inject_Z s) by (change 0 with (inject_Z 0); by rewrite <- Zle_Qle).
  lra.
Qed.

Lemma beta_parameter_length L g (mm : imatrix) :
  (0 < L)%nat -> is_square L mm -> length (beta_parameter g L mm) = L.
Proof.
  intros Hpos [Hlen Hall]. unfold beta_parameter. rewrite length_fmap.
  apply isum_axis0_length; [lia|done].
Qed.

(** The base beta step completes on table counts that are not negative. *)
Lemma base_resample_beta_total L rest (mm : imatrix) om w :
  (0 < L)%nat -> state_dim (self w) = L -> is_square L mm ->
  Forall (Forall (fun x => 0 <= x)%Z) mm -> 0 <= gamma (self w) ->
  (forall k a, Forall (fun x => 0 < x) a -> exists v, om k (dirichlet a) = Value v) ->
  exists v,
    om (length (drawn w)) (dirichlet (beta_parameter (gamma (self w)) L mm)) = Value v /\
    _resample_beta (HDPHMMTransitions :: rest) mm om w =
      Ok tt (mkWorld (set_beta (floats_of v L) (self w))
                     (drawn w ++ [dirichlet (beta_parameter (gamma (self w)) L mm)])).
Proof.
  intros Hpos HL Hsq Hnn Hg Hdir.
  destruct (Hdir (length (drawn w)) (beta_parameter (gamma (self w)) L mm))
    as [v Hv]; [by apply beta_parameter_pos|].
  exists v. split; [exact Hv|].
  cbn [_resample_beta]. rewrite !bind_attr, HL.
  destruct (Nat.eqb_spec L 0) as [->|_]; [lia|]. rewrite bind_ret.
  fold (beta_parameter (gamma (self w)) L mm).
  rewrite (bind_ok _ _ _ _ _ _ (sample_value _ _ _ _ Hv)), assign_run.
  cbn [self drawn]. by rewrite beta_parameter_length.
Qed.

Lemma normalize_rows_ok (a : matrix) om w :
  Forall (fun row => ~ qsum row == 0) a ->
  normalize_rows a om w = Ok (rows_normalized a) w.
Proof.
  intros H. unfold normalize_rows, divide_rows, sum_axis1, rows_normalized.
  rewrite !zip_with_fmap_r, !zip_with_diag.
  rewrite (bind_ok _ _ _ _ tt w); [reflexivity|].
  apply fp_check_ok, Forall_concat, Forall_fmap.
  eapply Forall_impl; [exact H|]. intros row Hrow. simpl.
  apply Forall_fmap, Forall_true. intros y. exact Hrow.
Qed.

Lemma gamma_shape_pos (a : Q) (b : vec) (data : matrix) :
  0 <= a -> Forall (fun x => 0 <= x) b ->
  Forall (Forall (fun x => 0 <= x)) data ->
  Forall (Forall (fun x => 0 < x)) (gamma_shape a b data).
Proof.
  intros Ha Hb Hdata. unfold gamma_shape. apply Forall_fmap.
  eapply Forall_impl; [exact Hdata|]. intros row Hrow. simpl.
  rewrite Forall_lookup. intros j s. rewrite lookup_zip_with, list_lookup_fmap.
  destruct (b !! j) as [y|] eqn:Hy; simpl; [|done].
  destruct (row !! j) as [x|] eqn:Hx; simpl; [|done]. intros [= <-].
  rewrite Forall_lookup in Hb, Hrow. specialize (Hb j y Hy). specialize (Hrow j x Hx).
  simpl in Hb, Hrow. assert (0 <= a * y) by (by apply Qmult_le_0_compat). lra.
Qed.

Lemma matrix_of_square L v (shape : matrix) :
  is_square L shape -> is_square L (matrix_of v shape).
Proof. apply imap2_square. Qed.

Lemma matrix_of_pos om k sh v :
  fair om -> om k (gamma_rvs sh) = Value v ->
  Forall (Forall (fun x => 0 < x)) (matrix_of v sh).
Proof.
  intros [_ Hgam] Hv. unfold matrix_of. apply imap2_Forall. intros i j row x _ _.
  by eapply Hgam.
Qed.

Lemma positive_rows_sum L (a : matrix) :
  (0 < L)%nat -> is_square L a -> Forall (Forall (fun x => 0 < x)) a ->
  Forall (fun row => ~ qsum row == 0) a.
Proof.
  intros Hpos [_ Hall] Ha. rewrite Forall_lookup. intros i row Hrow.
  rewrite Forall_lookup in Hall, Ha. specialize (Hall i row Hrow).
  specialize (Ha i row Hrow). simpl in Hall.
  assert (0 < qsum row); [|lra]. apply qsum_pos; [done|].
  intros ->. simpl in Hall. lia.
Qed.

(** The base A step completes when alpha, beta and the data are not
    negative: the Gamma shapes are positive, and so are the row sums of the
    variates. *)
Lemma base_resample_A_total L rest (data : matrix) (b : vec) om w :
  (0 < L)%nat -> beta (self w) = Some b -> length b = L ->
  Forall (fun x => 0 <= x) b -> 0 <= alpha (self w) ->
  is_square L data -> Forall (Forall (fun x => 0 <= x)) data ->
  fair om ->
  (forall k sh, Forall (Forall (fun x => 0 < x)) sh ->
     exists v, om k (gamma_rvs sh) = Value v) ->
  exists v,
    om (length (drawn w)) (gamma_rvs (gamma_shape (alpha (self w)) b data)) = Value v /\
    _resample_A (HDPHMMTransitions :: rest) data om w =
      Ok tt (mkWorld
               (set_A (rows_normalized
                         (matrix_of v (gamma_shape (alpha (self w)) b data)))
                      (self w))
               (drawn w ++ [gamma_rvs (gamma_shape (alpha (self w)) b data)])).
Proof.
  intros Hpos Hb Hlen Hbnn Ha Hsq Hdata Hfair Hgam.
  destruct (Hgam (length (drawn w)) (gamma_shape (alpha (self w)) b data))
    as [v Hv]; [by apply gamma_shape_pos|].
  exists v. split; [exact Hv|].
  cbn [_resample_A]. rewrite bind_attr, (bind_attr_opt _ _ _ _ b Hb).
  rewrite bind_same_shape
    by (apply (forallb_lengths L); [done|by rewrite length_fmap]).
  fold (gamma_shape (alpha (self w)) b data).
  rewrite (bind_ok _ _ _ _ _ _ (sample_value _ _ _ _ Hv)), bind_assign.
  rewrite (bind_attr_opt _ _ _ _ (matrix_of v (gamma_shape (alpha (self w)) b data)))
    by reflexivity.
  assert (Hsum : Forall (fun row => ~ qsum row == 0)
            (matrix_of v (gamma_shape (alpha (self w)) b data))).
  { apply (positive_rows_sum L); [done| |by eapply matrix_of_pos].
    apply matrix_of_square. unfold gamma_shape. by apply base_shape_square. }
  rewrite (bind_ok _ _ _ _ _ _ (normalize_rows_ok _ _ _ Hsum)). reflexivity.
Qed.

Lemma to_float_square L (a : imatrix) : is_square L a -> is_square L (to_float a).
Proof.
  intros [Hlen Hall]. unfold to_float. split; [by rewrite length_fmap|].
  apply Forall_fmap. eapply Forall_impl; [exact Hall|]. intros row Hrow. simpl.
  by rewrite length_fmap.
Qed.

Lemma to_float_nonneg L (a : imatrix) :
  counts_array L a -> Forall (Forall (fun x => 0 <= x)) (to_float a).
Proof.
  intros [_ Hall]. unfold to_float. apply Forall_fmap.
  eapply Forall_impl; [exact Hall|]. intros row Hrow. simpl. apply Forall_fmap.
  eapply Forall_impl; [exact Hrow|]. intros x Hx. simpl in *.
  change 0 with (inject_Z 0). rewrite <- Zle_Qle. lia.
Qed.

Lemma counts_array_all_zero L (tc : imatrix) :
  is_square L tc ->
  (forall i j, (i < L)%nat -> (j < L)%nat -> icell tc i j = 0%Z) ->
  all_zero tc = true.
Proof.
  intros Hsq H. apply all_zero_icell. intros i j.
  destruct (decide ((i < L)%nat /\ (j < L)%nat)) as [[Hi Hj]|Hout]; [by apply H|].
  by apply (icell_outside L).
Qed.

Lemma fair_floats_of om k a v L :
  fair om -> om k (dirichlet a) = Value v -> Forall (fun x => 0 <= x) (floats_of v L).
Proof.
  intros [Hdir _] Hv. unfold floats_of. apply Forall_fmap, Forall_true. intros j.
  by apply (Hdir k a v Hv).
Qed.

(** A sweep of the base class: counting, table counts, beta and A, each
    step on what the step before it left. *)
Lemma base_sweep_total L states_list om w :
  state_dim (self w) = L -> (0 < L)%nat ->
  Forall (Forall (label L)) states_list ->
  (Z.of_nat (length (all_pairs states_list)) < 2 ^ 31)%Z ->
  0 <= alpha (self w) -> 0 <= gamma (self w) ->
  (all_pairs states_list = [] \/
   exists b, beta (self w) = Some b /\ length b = L /\ 0 < alpha (self w) /\
             Forall (fun x => 0 < x) b) ->
  fair om -> answers_valid om ->
  exists tc mm v1 v2 dr,
    counts_array L tc /\
    (forall i j, (i < L)%nat -> (j < L)%nat ->
       icell tc i j = occurrences i j (all_pairs states_list)) /\
    is_square L mm /\
    (all_pairs states_list = [] ->
       tc = zeros L L /\ mm = zeros L L /\ dr = drawn w) /\
    om (length dr) (dirichlet (beta_parameter (gamma (self w)) L mm)) = Value v1 /\
    om (S (length dr))
       (gamma_rvs (gamma_shape (alpha (self w)) (floats_of v1 L) (to_float tc))) =
      Value v2 /\
    HDPHMMTransitions_resample HDPHMMTransitions states_list om w =
      Ok tt (mkWorld
               (set_A (rows_normalized
                         (matrix_of v2 (gamma_shape (alpha (self w)) (floats_of v1 L)
                                                    (to_float tc))))
                  (set_beta (floats_of v1 L)
                     (set_m mm (set_trans_counts tc (self w)))))
               (dr ++ [dirichlet (beta_parameter (gamma (self w)) L mm);
                       gamma_rvs (gamma_shape (alpha (self w)) (floats_of v1 L)
                                              (to_float tc))])).
Proof.
  intros HL Hpos Hlab Hsmall Ha Hg Hcase Hfair (Hrand & Hdir & Hgam).
  rewrite <- HL in Hlab.
  destruct (base_count_exact [] states_list om w Hlab Hsmall)
    as (tc & Hcount & Htc & Hcell).
  rewrite HL in Htc, Hcell.
  set (w1 := mkWorld (set_trans_counts tc (self w)) (drawn w)) in *.
  assert (Hzero : all_pairs states_list = [] -> all_zero tc = true).
  { intros Hnil. apply (counts_array_all_zero L); [apply Htc|].
    intros i j Hi Hj. rewrite (Hcell i j Hi Hj), Hnil. reflexivity. }
  destruct (get_m_total L tc om w1) as (mm & w2 & Hm & Hself2 & Hsqm & Hnnm & Hmz);
    [done|done| |done|].
  { destruct Hcase as [Hnil|Hb]; [left; by apply Hzero|right; exact Hb]. }
  destruct (base_resample_beta_total L [] mm om w2) as (v1 & Hv1 & Hbeta);
    try done.
  { by rewrite Hself2. }
  { by rewrite Hself2. }
  set (w3 := mkWorld (set_beta (floats_of v1 L) (self w2))
               (drawn w2 ++ [dirichlet (beta_parameter (gamma (self w2)) L mm)])) in *.
  destruct (base_resample_A_total L [] (to_float tc) (floats_of v1 L) om w3)
    as (v2 & Hv2 & HA); try done.
  { apply floats_of_length. }
  { by eapply fair_floats_of. }
  { unfold w3. simpl. by rewrite Hself2. }
  { apply to_float_square, Htc. }
  { by eapply to_float_nonneg. }
  exists tc, mm, v1, v2, (drawn w2).
  split; [done|]. split; [done|]. split; [done|]. split; [|split; [|split]].
  - intros Hnil. destruct (Hmz (Hzero Hnil)) as [-> Hdr]. split; [|done].
    assert (Hrun0 : _count_transitions [HDPHMMTransitions] states_list om w =
              Ok (zeros L L) (mkWorld (set_trans_counts (zeros L L) (self w)) (drawn w))).
    { cbn [_count_transitions]. rewrite bind_attr, HL.
      rewrite (bind_ok _ _ _ _ (zeros L L) w)
        by (rewrite count_all_run, Hnil; reflexivity).
      reflexivity. }
    rewrite Hcount in Hrun0. by injection Hrun0.
  - rewrite Hself2 in Hv1. exact Hv1.
  - unfold w3 in Hv2. simpl in Hv2. rewrite Hself2 in Hv2. simpl in Hv2.
    rewrite length_app in Hv2. simpl in Hv2.
    rewrite Nat.add_1_r in Hv2. exact Hv2.
  - unfold HDPHMMTransitions_resample. cbn [mro].
    rewrite (bind_ok _ _ _ _ _ _ Hcount), (bind_ok _ _ _ _ _ _ Hm).
    rewrite (bind_ok _ _ _ _ _ _ Hbeta). fold w3. rewrite HA.
    unfold w3. simpl. rewrite Hself2. simpl. by rewrite <- app_assoc.
Qed.

(** X7: a resample of the base class does not fail on well-formed input:
    with L >= 1 states, labels in [0, L), fewer than 2^31 transitions,
    alpha > 0, gamma >= 0 and a beta of L positive entries (none is needed
    when the sequences have no transition), and a random source that answers
    valid requests with Dirichlet variates on the simplex and positive Gamma
    variates, the call completes, assigns the transition counts to
    [trans_counts], and leaves a beta on the simplex and a row-stochastic
    A. *)
Theorem X7_base_resample_completes
    (states_list : list (list Z)) (om : oracle) (w : world) :
  (0 < state_dim (self w))%nat ->
  Forall (Forall (label (state_dim (self w)))) states_list ->
  (Z.of_nat (length (all_pairs states_list)) < 2 ^ 31)%Z ->
  0 < alpha (self w) -> 0 <= gamma (self w) ->
  (all_pairs states_list = [] \/
   exists b, beta (self w) = Some b /\ length b = state_dim (self w) /\
             Forall (fun x => 0 < x) b) ->
  fair om -> answers_valid om ->
  exists w' tc,
    resample HDPHMMTransitions (mro HDPHMMTransitions) states_list om w = Ok tt w' /\
    trans_counts (self w') = Some tc /\
    (forall i j, (i < state_dim (self w))%nat -> (j < state_dim (self w))%nat ->
       icell tc i j = occurrences i j (all_pairs states_list)) /\
    (exists b, beta (self w') = Some b /\ simplex (state_dim (self w)) b) /\
    (exists a, A (self w') = Some a /\ stochastic (state_dim (self w)) a).
Proof.
  intros Hpos Hlab Hsmall Ha Hg Hcase Hfair Hom.
  destruct (base_sweep_total (state_dim (self w)) states_list om w)
    as (tc & mm & v1 & v2 & dr & Htc & Hcell & _ & _ & _ & _ & Hrun); try done.
  { by apply Qlt_le_weak. }
  { destruct Hcase as [Hnil|(b & Hb & Hlen & Hbpos)]; [by left|right; by exists b]. }
  change (HDPHMMTransitions_resample HDPHMMTransitions states_list om w)
    with (resample HDPHMMTransitions (mro HDPHMMTransitions) states_list om w) in Hrun.
  eexists _, tc. split; [exact Hrun|]. split; [reflexivity|]. split; [exact Hcell|].
  destruct (resample_swept HDPHMMTransitions states_list om w _ Hfair
              ltac:(discriminate) Hpos Hrun) as (_ & Hb & (a & HA & Hsto & _) & _).
  split; [exact Hb|]. by exists a.
Qed.

Lemma steady_answers_valid : answers_valid steady.
Proof. repeat split; intros; eexists; reflexivity. Qed.

Lemma X7_witness :
  (0 < state_dim hmm2)%nat /\
  Forall (Forall (label (state_dim hmm2))) [[0; 1; 1; 0]%Z] /\
  (Z.of_nat (length (all_pairs [[0; 1; 1; 0]%Z])) < 2 ^ 31)%Z /\
  0 < alpha hmm2 /\ 0 <= gamma hmm2 /\
  (all_pairs [[0; 1; 1; 0]%Z] = [] \/
   exists b, beta hmm2 = Some b /\ length b = state_dim hmm2 /\
             Forall (fun x => 0 < x) b) /\
  fair steady /\ answers_valid steady /\
  exists w' tc,
    resample HDPHMMTransitions (mro HDPHMMTransitions) [[0; 1; 1; 0]%Z] steady
             (mkWorld hmm2 []) = Ok tt w' /\
    trans_counts (self w') = Some tc /\
    (forall i j, (i < state_dim hmm2)%nat -> (j < state_dim hmm2)%nat ->
       icell tc i j = occurrences i j (all_pairs [[0; 1; 1; 0]%Z])) /\
    (exists b, beta (self w') = Some b /\ simplex (state_dim hmm2) b) /\
    (exists a, A (self w') = Some a /\ stochastic (state_dim hmm2) a).
Proof.
  assert (Hpos : (0 < state_dim hmm2)%nat) by (simpl; lia).
  assert (Hlab : Forall (Forall (label (state_dim hmm2))) [[0; 1; 1; 0]%Z])
    by (repeat constructor; simpl; lia).
  assert (Hsmall : (Z.of_nat (length (all_pairs [[0; 1; 1; 0]%Z])) < 2 ^ 31)%Z)
    by (simpl; lia).
  assert (Ha : 0 < alpha hmm2) by reflexivity.
  assert (Hg : 0 <= gamma hmm2) by discriminate.
  assert (Hb : all_pairs [[0; 1; 1; 0]%Z] = [] \/
               exists b, beta hmm2 = Some b /\ length b = state_dim hmm2 /\
                         Forall (fun x => 0 < x) b).
  { right. exists [1 # 2; 1 # 2]. split; [reflexivity|]. split; [reflexivity|].
    repeat constructor. }
  split; [exact Hpos|]. split; [exact Hlab|]. split; [exact Hsmall|].
  split; [exact Ha|]. split; [exact Hg|]. split; [exact Hb|].
  split; [exact steady_fair|]. split; [exact steady_answers_valid|].
  exact (X7_base_resample_completes [[0; 1; 1; 0]%Z] steady (mkWorld hmm2 [])
           Hpos Hlab Hsmall Ha Hg Hb steady_fair steady_answers_valid).
Defined.

(** ** The constructor of the base class *)

Lemma foldr_zip_add_zeros r c :
  foldr (zip_with Z.add) (replicate c 0%Z) (replicate r (replicate c 0%Z)) =
  replicate c 0%Z.
Proof.
  induction r as [|r IH]; [reflexivity|].
  simpl. rewrite IH. by rewrite zip_with_replicate.
Qed.

Lemma isum_axis0_zeros L : (0 < L)%nat -> isum_axis0 (zeros L L) = replicate L 0%Z.
Proof.
  intros Hpos. unfold isum_axis0, zeros. destruct L as [|n]; [lia|].
  change (default [] (head (replicate (S n) (replicate (S n) 0%Z))))
    with (replicate (S n) 0%Z).
  rewrite length_replicate. apply foldr_zip_add_zeros.
Qed.

Lemma beta_parameter_zeros g L :
  (0 < L)%nat ->
  beta_parameter g L (zeros L L) =
  replicate L (g / Q_of_nat L + inject_Z 0 + (1 # 100)).
Proof.
  intros Hpos. unfold beta_parameter. rewrite isum_axis0_zeros by done.
  by rewrite fmap_replicate.
Qed.

Lemma gamma_shape_zeros a (b : vec) L :
  length b = L ->
  gamma_shape a b (to_float (zeros L L)) =
  replicate L ((fun x => a * x + inject_Z 0 + (1 # 100)) <$> b).
Proof.
  intros Hlen. unfold gamma_shape, to_float, zeros.
  rewrite !fmap_replicate. f_equal.
  rewrite zip_with_replicate_r by (rewrite length_fmap; lia).
  rewrite <- list_fmap_compose. reflexivity.
Qed.

(** X8: constructing a base-class object without both arrays runs one
    resample on the empty list, which draws from the prior with the 1e-2
    smoothing: with L >= 1, alpha >= 0 and gamma >= 0 the constructor
    completes after exactly two draws, a Dirichlet whose L parameters are all
    gamma/L + 0 + 1e-2 and Gamma variates of shape alpha*beta[j] + 0 + 1e-2
    in every row, A being these variates with each row divided by its sum.
    An array passed without the other one is not used. *)
Theorem X8_base_constructor_draws_from_the_prior
    (L : nat) (a g : Q) (beta0 : option vec) (A0 : option matrix) (om : oracle) :
  (0 < L)%nat -> 0 <= a -> 0 <= g ->
  A0 = None \/ beta0 = None ->
  fair om -> answers_valid om ->
  exists v1 v2 w',
    run (HDPHMMTransitions_init HDPHMMTransitions L a g beta0 A0) om blank = Ok tt w' /\
    drawn w' =
      [dirichlet (replicate L (g / Q_of_nat L + inject_Z 0 + (1 # 100)));
       gamma_rvs (replicate L ((fun x => a * x + inject_Z 0 + (1 # 100))
                                 <$> floats_of v1 L))] /\
    om 0%nat (dirichlet (replicate L (g / Q_of_nat L + inject_Z 0 + (1 # 100)))) =
      Value v1 /\
    om 1%nat (gamma_rvs (replicate L ((fun x => a * x + inject_Z 0 + (1 # 100))
                                        <$> floats_of v1 L))) = Value v2 /\
    state_dim (self w') = L /\ alpha (self w') = a /\ gamma (self w') = g /\
    beta (self w') = Some (floats_of v1 L) /\
    A (self w') =
      Some (rows_normalized
              (matrix_of v2 (replicate L ((fun x => a * x + inject_Z 0 + (1 # 100))
                                            <$> floats_of v1 L)))) /\
    simplex L (floats_of v1 L).
Proof.
  intros Hpos Ha Hg Hnone Hfair Hom.
  set (o := set_gamma g (set_alpha a (set_state_dim L blank))).
  assert (Hinit : run (HDPHMMTransitions_init HDPHMMTransitions L a g beta0 A0) om blank =
            HDPHMMTransitions_resample HDPHMMTransitions [] om (mkWorld o [])).
  { unfold run, HDPHMMTransitions_init. rewrite !bind_assign.
    destruct Hnone as [-> | ->]; [reflexivity|]. by destruct A0. }
  destruct (base_sweep_total L [] om (mkWorld o [])) as
    (tc & mm & v1 & v2 & dr & _ & _ & _ & Hz & Hv1 & Hv2 & Hrun); try done.
  { by left. }
  destruct (Hz eq_refl) as (-> & -> & ->). cbn [self drawn length] in *.
  change (alpha o) with a in *. change (gamma o) with g in *.
  rewrite beta_parameter_zeros in * by done.
  rewrite (gamma_shape_zeros a (floats_of v1 L) L) in *
    by apply floats_of_length.
  exists v1, v2. eexists. split; [rewrite Hinit; exact Hrun|].
  cbn [self drawn]. repeat (split; [done|]).
  destruct Hfair as [Hdir _]. destruct (Hdir _ _ _ Hv1) as [Hnn Hsum].
  split; [apply floats_of_length|]. split.
  - unfold floats_of. apply Forall_fmap, Forall_true. intros j. apply Hnn.
  - rewrite length_replicate in Hsum. apply Hsum. destruct L; [lia|discriminate].
Qed.

Lemma X8_witness :
  (0 < 3)%nat /\ 0 <= 2 /\ 0 <= 1 # 2 /\
  ((Some [[1]] : option matrix) = None \/ (None : option vec) = None) /\
  fair steady /\ answers_valid steady /\
  exists v1 v2 w',
    run (HDPHMMTransitions_init HDPHMMTransitions 3 2 (1 # 2) None (Some [[1]]))
        steady blank = Ok tt w' /\
    drawn w' =
      [dirichlet (replicate 3 ((1 # 2) / Q_of_nat 3 + inject_Z 0 + (1 # 100)));
       gamma_rvs (replicate 3 ((fun x => 2 * x + inject_Z 0 + (1 # 100))
                                 <$> floats_of v1 3))] /\
    steady 0%nat
      (dirichlet (replicate 3 ((1 # 2) / Q_of_nat 3 + inject_Z 0 + (1 # 100)))) =
      Value v1 /\
    steady 1%nat
      (gamma_rvs (replicate 3 ((fun x => 2 * x + inject_Z 0 + (1 # 100))
                                 <$> floats_of v1 3))) = Value v2 /\
    state_dim (self w') = 3%nat /\ alpha (self w') = 2 /\ gamma (self w') = 1 # 2 /\
    beta (self w') = Some (floats_of v1 3) /\
    A (self w') =
      Some (rows_normalized
              (matrix_of v2 (replicate 3 ((fun x => 2 * x + inject_Z 0 + (1 # 100))
                                            <$> floats_of v1 3)))) /\
    simplex 3 (floats_of v1 3).
Proof.
  assert (Hpos : (0 < 3)%nat) by lia.
  assert (Ha : 0 <= 2) by discriminate.
  assert (Hg : 0 <= 1 # 2) by discriminate.
  assert (Hnone : (Some [[1]] : option matrix) = None \/ (None : option vec) = None)
    by (by right).
  split; [exact Hpos|]. split; [exact Ha|]. split; [exact Hg|]. split; [exact Hnone|].
  split; [exact steady_fair|]. split; [exact steady_answers_valid|].
  exact (X8_base_constructor_draws_from_the_prior 3 2 (1 # 2) None (Some [[1]]) steady
           Hpos Ha Hg Hnone steady_fair steady_answers_valid).
Defined.

(** ** Table counts with a zero trial probability *)

(** One turn of the loop of [_get_m] on a positive count whose column has
    alpha*beta[j] = 0: trial 0 divides 0 by 0. *)
Lemma get_m_cell_raises L (mm : imatrix) i j val (b : vec) om w :
  (j < L)%nat -> (0 < val)%Z -> beta (self w) = Some b -> length b = L ->
  alpha (self w) * vcell b j == 0 ->
  (exists u, om (length (drawn w)) (rand val) = Value u) ->
  get_m_cell mm (i, j, val) om w =
    Raise FloatingPointError (mkWorld (self w) (drawn w ++ [rand val])).
Proof.
  intros Hj Hval Hb Hlen Hab [u Hu].
  destruct (lookup_lt_is_Some_2 b j) as [b_j Hbj]; [lia|].
  unfold vcell in Hab. rewrite Hbj in Hab. simpl in Hab.
  unfold get_m_cell.
  rewrite (bind_ok _ _ _ _ _ _ (sample_value _ _ _ _ Hu)).
  rewrite bind_attr. simpl self.
  rewrite (bind_attr_opt _ _ _ _ b) by exact Hb.
  rewrite (bind_subscript _ _ _ _ b_j Hbj).
  apply bind_raise. unfold divide_cells. apply bind_raise. unfold fp_check.
  destruct (Z.to_nat val) as [|n] eqn:Hn; [lia|].
  assert (Hinv : invalid_cell (alpha (self w) * b_j,
                               Q_of_nat 0 + alpha (self w) * b_j) = true).
  { unfold invalid_cell. simpl fst. simpl snd. apply andb_true_intro. split.
    - apply Qeq_bool_iff. rewrite Hab. reflexivity.
    - by apply Qeq_bool_iff. }
  cbn [replicate arange seq fmap list_fmap zip_with existsb].
  unfold arange. cbn [seq fmap list_fmap zip_with existsb].
  rewrite Hinv. reflexivity.
Qed.

Lemma get_m_fold_raises L (b : vec) om (o : object) (cells : list (nat * nat * Z)) :
  beta o = Some b -> length b = L ->
  (forall j, (j < L)%nat -> 0 <= alpha o * vcell b j) ->
  (forall k n, (0 <= n)%Z -> exists v, om k (rand n) = Value v) ->
  Forall (fun cell => (fst (fst cell) < L)%nat /\ (snd (fst cell) < L)%nat /\
                      (0 <= snd cell < 2 ^ 31)%Z) cells ->
  Exists (fun cell => (0 < snd cell)%Z /\ alpha o * vcell b (snd (fst cell)) == 0)
         cells ->
  forall (mm : imatrix) w,
    self w = o -> is_square L mm -> Forall (Forall (fun x => 0 <= x)%Z) mm ->
    exists w', foldM get_m_cell cells mm om w = Raise FloatingPointError w' /\
               self w' = o.
Proof.
  intros Hb Hlen Hnn Hrand Hall Hex.
  induction Hall as [|[[i j] val] cells (Hi & Hj & Hval) Hall IH];
    intros mm w Hw Hsq Hmm; [by apply Exists_nil in Hex|].
  simpl in Hi, Hj, Hval. simpl foldM.
  assert (Hu : exists u, om (length (drawn w)) (rand val) = Value u)
    by (apply Hrand; lia).
  destruct (Z_lt_dec 0 val) as [Hpos|Hzero];
    [destruct (Qeq_dec (alpha o * vcell b j) 0) as [Hab|Hab]|].
  - eexists. split.
    + apply bind_raise. apply (get_m_cell_raises L mm i j val b); try done; by rewrite Hw.
    + exact Hw.
  - destruct (get_m_cell_total L mm i j val b om w) as (mm' & Hrun & Hsq' & Hmm');
      try done; try (by rewrite Hw).
    { right. rewrite Hw. specialize (Hnn j Hj). lra. }
    rewrite (bind_ok _ _ _ _ _ _ Hrun). apply IH; try done.
    apply Exists_cons in Hex as [[_ Hbad]|Hex]; [|done]. by destruct Hab.
  - destruct (get_m_cell_total L mm i j val b om w) as (mm' & Hrun & Hsq' & Hmm');
      try done; try (by rewrite Hw).
    { left. lia. }
    rewrite (bind_ok _ _ _ _ _ _ Hrun). apply IH; try done.
    apply Exists_cons in Hex as [[Hbad _]|Hex]; [|done]. simpl in Hbad. lia.
Qed.

(** X9: [_get_m] fails with FloatingPointError, under the module's
    np.seterr(invalid='raise'), when some positive count stands in a column j
    with alpha*beta[j] = 0, for instance when alpha is 0 or beta has a zero
    entry there: the first Bernoulli probability of that cell is
    0/(0 + 0).  (The products alpha*beta[j] being nonnegative, the cells
    before it pass.)  The object is left as it was: [m] is not assigned. *)
Theorem X9_get_m_zero_probability_raises
    (L : nat) (tc : imatrix) (b : vec) (i j : nat) (om : oracle) (w : world) :
  state_dim (self w) = L -> counts_array L tc ->
  beta (self w) = Some b -> length b = L ->
  (forall j', (j' < L)%nat -> 0 <= alpha (self w) * vcell b j') ->
  (i < L)%nat -> (j < L)%nat -> (0 < icell tc i j)%Z ->
  alpha (self w) * vcell b j == 0 ->
  (forall k n, (0 <= n)%Z -> exists v, om k (rand n) = Value v) ->
  exists w', _get_m tc om w = Raise FloatingPointError w' /\ self w' = self w.
Proof.
  intros HL Htc Hb Hlen Hnn Hi Hj Hcell Hab Hrand.
  unfold _get_m. rewrite bind_attr, HL.
  assert (Hz : all_zero tc = false).
  { destruct (all_zero tc) eqn:Hz; [|done].
    rewrite all_zero_icell in Hz. specialize (Hz i j). lia. }
  rewrite Hz. simpl negb. cbv iota.
  destruct (get_m_fold_raises L b om (self w) (ndenumerate tc) Hb Hlen Hnn Hrand)
    with (mm := zeros L L) (w := w) as (w' & Hrun & Hself).
  - apply ndenumerate_Forall. intros i' j' row x Hrow Hx. simpl.
    by eapply counts_array_cells.
  - apply Exists_exists. exists (i, j, icell tc i j). split; [|done].
    eapply list_elem_of_lookup_2. apply (ndenumerate_lookup L); [apply Htc|done|done].
  - reflexivity.
  - apply zeros_square.
  - apply zeros_nonneg.
  - exists w'. split; [|done]. by apply bind_raise.
Qed.

Lemma X9_witness :
  exists w',
    _get_m [[0; 2]; [0; 0]]%Z steady (mkWorld (set_alpha 0 hmm2) []) =
      Raise FloatingPointError w' /\
    self w' = set_alpha 0 hmm2.
Proof.
  apply (X9_get_m_zero_probability_raises 2 [[0; 2]; [0; 0]]%Z [1 # 2; 1 # 2]
           0 1 steady (mkWorld (set_alpha 0 hmm2) [])).
  - reflexivity.
  - split; [split; [reflexivity|repeat constructor]|].
    repeat constructor; simpl; lia.
  - reflexivity.
  - reflexivity.
  - intros j' Hj'. simpl. rewrite Qmult_0_l. apply Qle_refl.
  - lia.
  - lia.
  - reflexivity.
  - reflexivity.
  - intros k n _. eexists. reflexivity.
Defined.

(** ** A and fullA in the classes that keep both *)

Lemma qcell_rows_normalized_imap L (g : nat -> nat -> Q -> Q) (f : matrix) i j :
  is_square L f -> (i < L)%nat -> (j < L)%nat ->
  qcell (rows_normalized (imap (fun i row => imap (g i) row) f)) i j =
  g i j (qcell f i j) / qsum (imap (g i) (default [] (f !! i))).
Proof.
  intros Hsq Hi Hj. unfold qcell, rows_normalized.
  destruct (is_square_lookup L f i Hsq Hi) as (row & Hrow & Hlen).
  destruct (lookup_lt_is_Some_2 row j) as [x Hx]; [lia|].
  rewrite list_lookup_fmap, list_lookup_imap, Hrow. simpl.
  rewrite list_lookup_fmap, list_lookup_imap, Hx. reflexivity.
Qed.



Lemma ltr_resample_A_form L super (data : matrix) om w w' :
  (0 < L)%nat ->
  (forall w1, _resample_A super data om w = Ok tt w1 ->
     exists a, A (self w1) = Some a /\ stochastic L a) ->
  _resample_A (LTRHDPHMMTransitions :: super) data om w = Ok tt w' ->
  exists f, fullA (self w') = Some f /\ stochastic L f /\
            A (self w') = Some (rows_normalized (triu 0 f)).
Proof.
  intros Hpos Hsuper. rewrite resample_A_ltr. intros H.
  apply bind_inv in H as ([] & w1 & H1 & H).
  destruct (Hsuper w1 H1) as (a0 & Ha0 & Hsto0).
  rewrite (bind_attr_opt _ _ _ _ a0 Ha0), bind_assign in H.
  apply bind_inv in H as (a1 & w2 & Hnorm & H).
  apply (normalize_rows_inv L) in Hnorm as (-> & Hsto & Heq).
  - rewrite assign_run in H. injection H as <-. simpl.
    exists a0. split; [done|]. split; [done|]. by rewrite Heq.
  - apply imap2_square. apply Hsto0.
  - done.
  - apply imap2_Forall. intros i j row x Hrow Hx.
    destruct (i <=? j)%nat; [|lra].
    eapply (Forall2_cells (fun x => 0 <= x)); [by eapply stochastic_nonneg|done|done].
Qed.


Lemma base_resample_A_stochastic L rest (data : matrix) (b : vec) om w w1 :
  fair om -> (0 < L)%nat -> beta (self w) = Some b -> length b = L ->
  length data = L ->
  _resample_A (HDPHMMTransitions :: rest) data om w = Ok tt w1 ->
  exists a, A (self w1) = Some a /\ stochastic L a.
Proof.
  intros Hfair Hpos Hb Hlen Hd H.
  destruct (base_resample_A_result L rest data b om w w1) as (a & ? & ? & _); eauto.
Qed.

Lemma sticky_resample_A_stochastic L rest (data : matrix) (b : vec) om w w1 :
  fair om -> (0 < L)%nat -> beta (self w) = Some b -> length b = L ->
  length data = L ->
  _resample_A (StickyHDPHMMTransitions :: HDPHMMTransitions :: rest) data om w =
    Ok tt w1 ->
  exists a, A (self w1) = Some a /\ stochastic L a.
Proof.
  intros Hfair Hpos Hb Hlen Hd H.
  apply sticky_resample_A_inv in H as (data1 & Hd1 & H).
  apply (base_resample_A_stochastic L rest data1 b om w w1); try done. lia.
Qed.

(** X10: after a completed A step of a left-to-right class, [fullA] holds
    the row-normalised Gamma variates and A is its upper triangle with every
    row divided by what is left of it: A[i][j] = fullA[i][j] / sum(fullA[i][i:])
    for j >= i, and A[i][j] = 0 for j < i. *)
Theorem X10_ltr_A_is_the_renormalized_upper_triangle
    (c : class) (L : nat) (data : matrix) (b : vec) (om : oracle) (w w' : world) :
  ltr_class c -> fair om -> (0 < L)%nat ->
  beta (self w) = Some b -> length b = L -> length data = L ->
  _resample_A (mro c) data om w = Ok tt w' ->
  exists f a,
    fullA (self w') = Some f /\ A (self w') = Some a /\ stochastic L f /\
    forall i j, (i < L)%nat -> (j < L)%nat ->
      qcell a i j ==
      if (i <=? j)%nat then qcell f i j / upper_sum f i else 0.
Proof.
  intros Hc Hfair Hpos Hb Hlen Hdata H.
  assert (Hform : exists f, fullA (self w') = Some f /\ stochastic L f /\
                            A (self w') = Some (rows_normalized (triu 0 f))).
  { destruct Hc as [-> | ->]; cbn [mro] in H.
    - apply (ltr_resample_A_form L [HDPHMMTransitions] data om w w' Hpos); [|done].
      intros w1. by apply (base_resample_A_stochastic L [] data b).
    - apply sticky_ltr_resample_A_inv in H as (data1 & Hd1 & H).
      apply (ltr_resample_A_form L [StickyHDPHMMTransitions; HDPHMMTransitions]
               data1 om w w' Hpos); [|done].
      intros w1. apply (sticky_resample_A_stochastic L [] data1 b); try done. lia. }
  destruct Hform as (f & Hf & Hsto & HA).
  exists f, (rows_normalized (triu 0 f)). split; [done|]. split; [done|].
  split; [done|]. intros i j Hi Hj. unfold triu.
  rewrite (qcell_rows_normalized_imap L) by (done || apply Hsto).
  destruct (i <=? j)%nat.
  - rewrite qsum_triu_row. reflexivity.
  - unfold Qdiv. apply Qmult_0_l.
Qed.


Lemma X10_witness :
  ltr_class LTRHDPHMMTransitions /\ fair steady /\ (0 < 3)%nat /\
  beta ltr3 = Some [1 # 3; 1 # 3; 1 # 3] /\
  _resample_A (mro LTRHDPHMMTransitions) [[1; 1; 1]; [1; 1; 1]; [1; 1; 1]] steady
              (mkWorld ltr3 []) = Ok tt ltr3_A_resampled /\
  exists f a,
    fullA (self ltr3_A_resampled) = Some f /\ A (self ltr3_A_resampled) = Some a /\
    stochastic 3 f /\
    forall i j, (i < 3)%nat -> (j < 3)%nat ->
      qcell a i j ==
      if (i <=? j)%nat then qcell f i j / upper_sum f i else 0.
Proof.
  assert (Hc : ltr_class LTRHDPHMMTransitions) by (by left).
  assert (Hpos : (0 < 3)%nat) by lia.
  assert (Hb : beta ltr3 = Some [1 # 3; 1 # 3; 1 # 3]) by reflexivity.
  assert (H : _resample_A (mro LTRHDPHMMTransitions)
                [[1; 1; 1]; [1; 1; 1]; [1; 1; 1]] steady (mkWorld ltr3 []) =
              Ok tt ltr3_A_resampled) by (vm_compute; reflexivity).
  split; [exact Hc|]. split; [exact steady_fair|]. split; [exact Hpos|].
  split; [exact Hb|]. split; [exact H|].
  exact (X10_ltr_A_is_the_renormalized_upper_triangle LTRHDPHMMTransitions 3
           [[1; 1; 1]; [1; 1; 1]; [1; 1; 1]] [1 # 3; 1 # 3; 1 # 3] steady
           (mkWorld ltr3 []) ltr3_A_resampled Hc steady_fair Hpos Hb eq_refl eq_refl H).
Defined.


(** ** The constructor of the semi-Markov class *)

Lemma zsum_replicate_0 n : zsum (replicate n 0%Z) = 0%Z.
Proof. unfold zsum. induction n as [|n IH]; simpl; [reflexivity|exact IH]. Qed.

Lemma isum_all_zeros r c : isum_all (zeros r c) = 0%Z.
Proof.
  unfold isum_all, isum_axis1, zeros.
  rewrite fmap_replicate, zsum_replicate_0. apply zsum_replicate_0.
Qed.

(** All-zero counts are returned as they are: no draw, no read of [fullA]. *)
Lemma augment_data_zeros r c om w :
  _augment_data (zeros r c) om w =
  Ok (zeros r c) (mkWorld (set_trans_counts (zeros r c) (self w)) (drawn w)).
Proof. unfold _augment_data. rewrite isum_all_zeros. reflexivity. Qed.

Lemma qsum_lookup_le (l : vec) i x :
  Forall (fun y => 0 <= y) l -> l !! i = Some x -> x <= qsum l.
Proof.
  intros H. revert i. induction H as [|y l Hy Hl IH]; intros i Hi; [done|].
  pose proof (qsum_nonneg l Hl). destruct i as [|i]; simpl in *.
  - injection Hi as ->. lra.
  - specialize (IH i Hi). lra.
Qed.

Lemma rows_normalized_pos L (a : matrix) :
  (0 < L)%nat -> is_square L a -> Forall (Forall (fun x => 0 < x)) a ->
  Forall (Forall (fun x => 0 < x)) (rows_normalized a).
Proof.
  intros Hpos Hsq Ha. unfold rows_normalized. apply Forall_fmap.
  rewrite Forall_lookup. intros i row Hrow. simpl. apply Forall_fmap.
  destruct Hsq as [_ Hall]. rewrite Forall_lookup in Hall, Ha.
  specialize (Hall i row Hrow). specialize (Ha i row Hrow). simpl in Hall.
  assert (Hs : 0 < qsum row).
  { apply qsum_pos; [done|]. intros ->. simpl in Hall. lia. }
  eapply Forall_impl; [exact Ha|]. intros y Hy. simpl in *.
  apply Qlt_shift_div_l; [done|]. by rewrite Qmult_0_l.
Qed.

Lemma rows_normalized_square L (a : matrix) :
  is_square L a -> is_square L (rows_normalized a).
Proof.
  intros [Hlen Hall]. unfold rows_normalized. split; [by rewrite length_fmap|].
  apply Forall_fmap. eapply Forall_impl; [exact Hall|]. intros row Hrow. simpl.
  by rewrite length_fmap.
Qed.

(** With two states or more, a row of positive entries keeps a positive sum
    when its diagonal entry is zeroed. *)
Lemma off_diagonal_sum_pos L (f : matrix) :
  (2 <= L)%nat -> is_square L f -> Forall (Forall (fun x => 0 < x)) f ->
  Forall (fun row => ~ qsum row == 0) (zero_flat_stride f).
Proof.
  intros HL Hsq Hf. rewrite (zero_flat_stride_diagonal L) by done.
  rewrite Forall_lookup. intros i row'. rewrite list_lookup_imap.
  destruct (f !! i) as [row|] eqn:Hrow; simpl; [|done]. intros [= <-].
  pose proof (is_square_row L f i row Hsq Hrow) as Hlen.
  rewrite Forall_lookup in Hf. specialize (Hf i row Hrow).
  set (j := if (i =? 0)%nat then 1%nat else 0%nat).
  assert (Hij : (i =? j)%nat = false).
  { unfold j. destruct (Nat.eqb_spec i 0) as [->|Hne]; [reflexivity|].
    by apply Nat.eqb_neq. }
  destruct (lookup_lt_is_Some_2 row j) as [x Hx].
  { unfold j. destruct (i =? 0)%nat; lia. }
  assert (Hxpos : 0 < x) by (rewrite Forall_lookup in Hf; by eapply Hf).
  assert (Hle : x <= qsum (imap (fun j x => if (i =? j)%nat then 0 else x) row)).
  { apply (qsum_lookup_le _ j).
    - rewrite Forall_lookup. intros k y. rewrite list_lookup_imap.
      destruct (row !! k) as [z|] eqn:Hz; simpl; [|done]. intros [= <-].
      destruct (i =? k)%nat; [lra|]. apply Qlt_le_weak.
      rewrite Forall_lookup in Hf. by eapply (Hf k).
    - rewrite list_lookup_imap, Hx. simpl. by rewrite Hij. }
  lra.
Qed.

(** The A step of the semi-Markov class completes with two states or more. *)
Lemma hsmm_resample_A_total L rest (data : matrix) (b : vec) om w :
  (2 <= L)%nat -> beta (self w) = Some b -> length b = L ->
  Forall (fun x => 0 <= x) b -> 0 <= alpha (self w) ->
  is_square L data -> Forall (Forall (fun x => 0 <= x)) data ->
  fair om ->
  (forall k sh, Forall (Forall (fun x => 0 < x)) sh ->
     exists v, om k (gamma_rvs sh) = Value v) ->
  exists v w',
    om (length (drawn w)) (gamma_rvs (gamma_shape (alpha (self w)) b data)) = Value v /\
    _resample_A (HDPHSMMTransitions :: HDPHMMTransitions :: rest) data om w =
      Ok tt w' /\
    drawn w' = drawn w ++ [gamma_rvs (gamma_shape (alpha (self w)) b data)] /\
    beta (self w') = Some b /\ state_dim (self w') = state_dim (self w) /\
    alpha (self w') = alpha (self w) /\ gamma (self w') = gamma (self w).
Proof.
  intros HL Hb Hlen Hbnn Ha Hsq Hdata Hfair Hgam.
  destruct (base_resample_A_total L rest data b om w) as (v & Hv & Hrun);
    try done; [lia|].
  set (f := rows_normalized (matrix_of v (gamma_shape (alpha (self w)) b data))) in *.
  assert (Hfsq : is_square L f).
  { apply rows_normalized_square, matrix_of_square.
    unfold gamma_shape. by apply base_shape_square. }
  assert (Hfpos : Forall (Forall (fun x => 0 < x)) f).
  { apply (rows_normalized_pos L); [lia| |by eapply matrix_of_pos].
    apply matrix_of_square. unfold gamma_shape. by apply base_shape_square. }
  exists v. eexists. split; [exact Hv|]. split.
  - rewrite resample_A_hsmm. rewrite (bind_ok _ _ _ _ _ _ Hrun).
    rewrite (bind_attr_opt _ _ _ _ f) by reflexivity.
    rewrite !bind_assign.
    rewrite (bind_attr_opt _ _ _ _ (zero_flat_stride f)) by reflexivity.
    rewrite (bind_ok _ _ _ _ _ _
               (normalize_rows_ok _ _ _ (off_diagonal_sum_pos L f HL Hfsq Hfpos))).
    rewrite assign_run. reflexivity.
  - simpl. done.
Qed.

(** X12: the semi-Markov constructor needs no [fullA]: called without all
    three arrays and with two states or more (alpha >= 0, gamma >= 0), it
    completes.  The counts of the empty list are all 0, so the augmentation
    makes no draw and does not read [fullA]; the two draws are the Dirichlet
    with all L parameters gamma/L + 0 + 1e-2 and the Gamma variates of shape
    alpha*beta[j] + 0 + 1e-2.  Afterwards beta is on the simplex, [fullA] and
    A are row-stochastic and the diagonal of A is 0. *)
Theorem X12_semi_markov_constructor_completes
    (L : nat) (a g : Q) (beta0 : option vec) (A0 fullA0 : option matrix)
    (om : oracle) :
  (2 <= L)%nat -> 0 <= a -> 0 <= g ->
  A0 = None \/ fullA0 = None \/ beta0 = None ->
  fair om -> answers_valid om ->
  exists v1 w',
    run (HDPHSMMTransitions_init HDPHSMMTransitions L a g beta0 A0 fullA0) om blank =
      Ok tt w' /\
    drawn w' =
      [dirichlet (replicate L (g / Q_of_nat L + inject_Z 0 + (1 # 100)));
       gamma_rvs (replicate L ((fun x => a * x + inject_Z 0 + (1 # 100))
                                 <$> floats_of v1 L))] /\
    om 0%nat (dirichlet (replicate L (g / Q_of_nat L + inject_Z 0 + (1 # 100)))) =
      Value v1 /\
    beta (self w') = Some (floats_of v1 L) /\ simplex L (floats_of v1 L) /\
    (exists f, fullA (self w') = Some f /\ stochastic L f) /\
    (exists aa, A (self w') = Some aa /\ stochastic L aa /\
       forall i, (i < L)%nat -> qcell aa i i == 0).
Proof.
  intros HL Ha Hg Hnone Hfair Hom.
  set (o := set_state_dim L (set_gamma g (set_alpha a blank))).
  assert (Hinit :
    run (HDPHSMMTransitions_init HDPHSMMTransitions L a g beta0 A0 fullA0) om blank =
    resample HDPHSMMTransitions (mro HDPHSMMTransitions) [] om (mkWorld o [])).
  { unfold run, HDPHSMMTransitions_init. rewrite !bind_assign.
    destruct A0, fullA0, beta0; try reflexivity.
    destruct Hnone as [?|[?|?]]; discriminate. }
  destruct Hom as (Hrand & Hdir & Hgam).
  set (w1 := mkWorld (set_m (zeros L L) (set_trans_counts (zeros L L) o)) []).
  destruct (base_resample_beta_total L [] (zeros L L) om w1) as (v1 & Hv1 & Hbeta);
    try done; [lia|apply zeros_square|apply zeros_nonneg|].
  change (gamma (self w1)) with g in *. change (drawn w1) with (@nil draw) in *.
  rewrite beta_parameter_zeros in * by lia.
  set (w2 := mkWorld (set_beta (floats_of v1 L) (self w1))
               ([] ++ [dirichlet (replicate L (g / Q_of_nat L + inject_Z 0 + (1 # 100)))]))
    in *.
  destruct (hsmm_resample_A_total L [] (to_float (zeros L L)) (floats_of v1 L) om w2)
    as (v2 & w3 & Hv2 & HA & Hdr & Hb3 & Hd3 & _); try done.
  { apply floats_of_length. }
  { by eapply fair_floats_of. }
  { apply to_float_square, zeros_square. }
  { apply (to_float_nonneg L). split; [apply zeros_square|].
    unfold zeros. apply Forall_replicate, Forall_replicate. lia. }
  change (alpha (self w2)) with a in *.
  rewrite (gamma_shape_zeros a (floats_of v1 L) L) in * by apply floats_of_length.
  assert (Hrun : resample HDPHSMMTransitions (mro HDPHSMMTransitions) [] om
                   (mkWorld o []) = Ok tt w3).
  { cbn [mro resample]. unfold HDPHSMMTransitions_resample. cbn [mro].
    change (states_noreps []) with (@nil (list Z)).
    change (_count_transitions [HDPHSMMTransitions; HDPHMMTransitions] [])
      with (_count_transitions [HDPHMMTransitions] []).
    rewrite (bind_ok _ _ _ _ _ _ (empty_list_counts [] om (mkWorld o []))).
    change (state_dim (self (mkWorld o []))) with L.
    rewrite (bind_ok _ _ _ _ _ _ (augment_data_zeros L L om _)).
    destruct (get_m_total L (zeros L L) om
                (mkWorld (set_trans_counts (zeros L L)
                            (self (mkWorld (set_trans_counts (zeros L L) o) []))) []))
      as (mm & wm & Hm & Hselfm & _ & _ & Hz); [done| | |done|].
    { split; [apply zeros_square|].
      unfold zeros. apply Forall_replicate, Forall_replicate. lia. }
    { left. apply all_zero_zeros. }
    destruct (Hz (all_zero_zeros L L)) as [-> Hdm].
    rewrite (bind_ok _ _ _ _ _ _ Hm).
    assert (wm = w1) as ->.
    { destruct wm as [om' dm]. simpl in Hselfm, Hdm. subst. reflexivity. }
    change (_resample_beta [HDPHSMMTransitions; HDPHMMTransitions] (zeros L L))
      with (_resample_beta [HDPHMMTransitions] (zeros L L)).
    rewrite (bind_ok _ _ _ _ _ _ Hbeta). exact HA. }
  exists v1, w3. split; [rewrite Hinit; exact Hrun|].
  split; [rewrite Hdr; reflexivity|]. split; [exact Hv1|]. split; [exact Hb3|].
  destruct (resample_swept HDPHSMMTransitions [] om (mkWorld o []) w3 Hfair
              ltac:(discriminate) ltac:(simpl; lia) Hrun)
    as (_ & (b' & Hb' & Hsimplex) & (aa & Haa & Hsto & Hdiag & _) & Hfull).
  change (state_dim (self (mkWorld o []))) with L in *.
  split; [by replace (floats_of v1 L) with b' by congruence|].
  split; [apply Hfull; left; by left|].
  exists aa. split; [done|]. split; [done|]. apply Hdiag. by left.
Qed.

Lemma X12_witness :
  (2 <= 2)%nat /\ 0 <= 1 /\ 0 <= 1 /\
  ((None : option matrix) = None \/ (None : option matrix) = None \/
   (None : option vec) = None) /\
  fair steady /\ answers_valid steady /\
  exists v1 w',
    run (HDPHSMMTransitions_init HDPHSMMTransitions 2 1 1 None None None) steady blank =
      Ok tt w' /\
    drawn w' =
      [dirichlet (replicate 2 (1 / Q_of_nat 2 + inject_Z 0 + (1 # 100)));
       gamma_rvs (replicate 2 ((fun x => 1 * x + inject_Z 0 + (1 # 100))
                                 <$> floats_of v1 2))] /\
    steady 0%nat (dirichlet (replicate 2 (1 / Q_of_nat 2 + inject_Z 0 + (1 # 100)))) =
      Value v1 /\
    beta (self w') = Some (floats_of v1 2) /\ simplex 2 (floats_of v1 2) /\
    (exists f, fullA (self w') = Some f /\ stochastic 2 f) /\
    (exists aa, A (self w') = Some aa /\ stochastic 2 aa /\
       forall i, (i < 2)%nat -> qcell aa i i == 0).
Proof.
  assert (HL : (2 <= 2)%nat) by lia.
  assert (Ha : 0 <= 1) by discriminate.
  assert (Hnone : (None : option matrix) = None \/ (None : option matrix) = None \/
                  (None : option vec) = None) by (by left).
  split; [exact HL|]. split; [exact Ha|]. split; [exact Ha|]. split; [exact Hnone|].
  split; [exact steady_fair|]. split; [exact steady_answers_valid|].
  exact (X12_semi_markov_constructor_completes 2 1 1 None None None steady
           HL Ha Ha Hnone steady_fair steady_answers_valid).
Defined.

(** ** The A step of the sticky classes *)

(** X13: the A step of the sticky class, with or without concentration
    resampling, adds kappa to the diagonal of the data once and hands the
    sum to the base step: whatever the outcome, its one draw asks for Gamma
    variates of shape alpha*beta[j] + data[i][j] + kappa*[i = j] + 1e-2. *)
Theorem X13_sticky_gamma_shape_adds_kappa_once
    (c : class) (data : matrix) (b : vec) (om : oracle) (w : world) (L : nat) :
  sticky_hmm_class c ->
  beta (self w) = Some b -> length b = L -> is_square L data ->
  exists shape, is_square L shape /\
    drawn (world_of (_resample_A (mro c) data om w)) = drawn w ++ [gamma_rvs shape] /\
    forall i j, (i < L)%nat -> (j < L)%nat ->
      qcell shape i j ==
      alpha (self w) * vcell b j + qcell data i j +
      (if decide (i = j) then kappa (self w) else 0) + (1 # 100).
Proof.
  intros Hc Hb Hlen Hsq.
  set (d1 := add_diag (kappa (self w)) data).
  assert (Hsq1 : is_square L d1) by (by apply add_diag_square).
  eexists. split; [|split].
  - apply (base_shape_square L (alpha (self w)) b d1); done.
  - assert (Heq : exists rest, _resample_A (mro c) data =
              _resample_A (StickyHDPHMMTransitions :: HDPHMMTransitions :: rest) data).
    { destruct Hc as [-> | ->]; [exists [] | exists [ConcentrationResampling]];
        reflexivity. }
    destruct Heq as [rest ->]. rewrite resample_A_sticky, bind_attr.
    rewrite bind_same_shape by (by eapply square_length).
    apply (base_resample_A_drawn L); done.
  - intros i j Hi Hj. rewrite (base_shape_cell L) by done.
    unfold d1. rewrite (qcell_add_diag L) by done.
    destruct (Nat.eqb_spec i j); destruct (decide (i = j)); try done; ring.
Qed.

Lemma X13_witness :
  sticky_hmm_class StickyHDPHMMTransitions /\
  beta hmm2 = Some [1 # 2; 1 # 2] /\ is_square 2 ([[0; 3]; [1; 0]] : matrix) /\
  exists shape, is_square 2 shape /\
    drawn (world_of (_resample_A (mro StickyHDPHMMTransitions) [[0; 3]; [1; 0]] steady
                                 (mkWorld hmm2 []))) = [] ++ [gamma_rvs shape] /\
    forall i j, (i < 2)%nat -> (j < 2)%nat ->
      qcell shape i j ==
      alpha hmm2 * vcell [1 # 2; 1 # 2] j + qcell [[0; 3]; [1; 0]] i j +
      (if decide (i = j) then kappa hmm2 else 0) + (1 # 100).
Proof.
  assert (Hc : sticky_hmm_class StickyHDPHMMTransitions) by (by left).
  assert (Hb : beta hmm2 = Some [1 # 2; 1 # 2]) by reflexivity.
  assert (Hsq : is_square 2 ([[0; 3]; [1; 0]] : matrix))
    by (split; [reflexivity|repeat constructor]).
  split; [exact Hc|]. split; [exact Hb|]. split; [exact Hsq|].
  exact (X13_sticky_gamma_shape_adds_kappa_once StickyHDPHMMTransitions
           [[0; 3]; [1; 0]] [1 # 2; 1 # 2] steady (mkWorld hmm2 []) 2
           Hc Hb eq_refl Hsq).
Defined.

(** ** What a resample leaves alone *)

Lemma plain_resample_preserves {T} (g : object -> T) c states_list :
  plain_class c ->
  (forall x o, g (set_trans_counts x o) = g o) ->
  (forall x o, g (set_m x o) = g o) ->
  (forall x o, g (set_newm x o) = g o) ->
  (forall x o, g (set_beta x o) = g o) ->
  (forall x o, g (set_A x o) = g o) ->
  (forall x o, g (set_fullA x o) = g o) ->
  preserves g (resample c (mro c) states_list).
Proof.
  intros Hc H1 H2 H3 H4 H5 H6.
  assert (Hassign : forall upd,
            (exists x, upd = set_trans_counts x) \/ (exists x, upd = set_m x) \/
            (exists x, upd = set_newm x) \/ (exists x, upd = set_beta x) \/
            (exists x, upd = set_A x) \/ (exists x, upd = set_fullA x) ->
            preserves g (assign upd)).
  { intros upd Hupd. apply preserves_assign. intros o.
    destruct Hupd as [[x ->]|[[x ->]|[[x ->]|[[x ->]|[[x ->]|[x ->]]]]]]; auto. }
  destruct Hc as [-> | [-> | [-> | [-> | ->]]]];
    cbn [mro resample];
    unfold HDPHMMTransitions_resample, HDPHSMMTransitions_resample,
      _augment_data, _get_m;
    cbn [mro _count_transitions _resample_beta _resample_A];
    repeat first
      [ apply Hassign; eauto 10
      | preserves_step
      | progress unfold count_states, count_pair, store_prefix, ltr_augment_row,
          self_transition, get_m_cell, divide, divide_cells, divide_rows,
          normalize_rows ].
Qed.

(** X14: a resample of a class without concentration resampling never
    touches the hyperparameters: whatever the sequences and the variates,
    and whether the call completes or raises, state_dim, alpha, gamma and
    kappa are afterwards what they were before. *)
Theorem X14_plain_resample_keeps_hyperparameters
    (c : class) (states_list : list (list Z)) (om : oracle) (w : world) :
  plain_class c ->
  state_dim (self (world_of (resample c (mro c) states_list om w))) =
    state_dim (self w) /\
  alpha (self (world_of (resample c (mro c) states_list om w))) = alpha (self w) /\
  gamma (self (world_of (resample c (mro c) states_list om w))) = gamma (self w) /\
  kappa (self (world_of (resample c (mro c) states_list om w))) = kappa (self w).
Proof.
  intros Hc.
  repeat split; apply (plain_resample_preserves _ c states_list Hc); reflexivity.
Qed.

Lemma X14_witness :
  plain_class StickyLTRHDPHMMTransitions /\
  state_dim (self (world_of (resample StickyLTRHDPHMMTransitions
                               (mro StickyLTRHDPHMMTransitions) [[0; 1; 0]%Z]
                               steady (mkWorld sticky_ltr2 [])))) =
    state_dim sticky_ltr2 /\
  alpha (self (world_of (resample StickyLTRHDPHMMTransitions
                           (mro StickyLTRHDPHMMTransitions) [[0; 1; 0]%Z]
                           steady (mkWorld sticky_ltr2 [])))) = alpha sticky_ltr2 /\
  gamma (self (world_of (resample StickyLTRHDPHMMTransitions
                           (mro StickyLTRHDPHMMTransitions) [[0; 1; 0]%Z]
                           steady (mkWorld sticky_ltr2 [])))) = gamma sticky_ltr2 /\
  kappa (self (world_of (resample StickyLTRHDPHMMTransitions
                           (mro StickyLTRHDPHMMTransitions) [[0; 1; 0]%Z]
                           steady (mkWorld sticky_ltr2 [])))) = kappa sticky_ltr2.
Proof.
  assert (Hc : plain_class StickyLTRHDPHMMTransitions) by (do 4 right; reflexivity).
  split; [exact Hc|].
  exact (X14_plain_resample_keeps_hyperparameters StickyLTRHDPHMMTransitions
           [[0; 1; 0]%Z] steady (mkWorld sticky_ltr2 []) Hc).
Defined.

(** ** The classes with concentration resampling *)

Lemma sweep_bodies_preserve {T} (g : object -> T) c states_list :
  (forall x o, g (set_trans_counts x o) = g o) ->
  (forall x o, g (set_m x o) = g o) ->
  (forall x o, g (set_newm x o) = g o) ->
  (forall x o, g (set_beta x o) = g o) ->
  (forall x o, g (set_A x o) = g o) ->
  (forall x o, g (set_fullA x o) = g o) ->
  preserves g (HDPHMMTransitions_resample c states_list) /\
  preserves g (HDPHSMMTransitions_resample c states_list).
Proof.
  intros H1 H2 H3 H4 H5 H6.
  assert (Hassign : forall upd,
            (exists x, upd = set_trans_counts x) \/ (exists x, upd = set_m x) \/
            (exists x, upd = set_newm x) \/ (exists x, upd = set_beta x) \/
            (exists x, upd = set_A x) \/ (exists x, upd = set_fullA x) ->
            preserves g (assign upd)).
  { intros upd Hupd. apply preserves_assign. intros o.
    destruct Hupd as [[x ->]|[[x ->]|[[x ->]|[[x ->]|[[x ->]|[x ->]]]]]]; auto. }
  split; destruct c;
    unfold HDPHMMTransitions_resample, HDPHSMMTransitions_resample,
      _augment_data, _get_m;
    cbn [mro _count_transitions _resample_beta _resample_A];
    repeat first
      [ apply Hassign; eauto 10
      | preserves_step
      | progress unfold count_states, count_pair, store_prefix, ltr_augment_row,
          self_transition, get_m_cell, divide, divide_cells, divide_rows,
          normalize_rows ].
Qed.

Lemma ConcentrationResampling_resample_inv om w w' :
  ConcentrationResampling_resample om w = Ok tt w' ->
  exists tc b mm v1 v2,
    trans_counts (self w') = Some tc /\ beta (self w') = Some b /\
    m (self w') = Some mm /\
    drawn w' =
      drawn w ++ [DirGamma_resample (alpha_obj (self w)) tc (Some b) 10;
                  DirGamma_resample (gamma_obj (self w)) mm None 10] /\
    om (length (drawn w))
       (DirGamma_resample (alpha_obj (self w)) tc (Some b) 10) = Value v1 /\
    om (S (length (drawn w)))
       (DirGamma_resample (gamma_obj (self w)) mm None 10) = Value v2 /\
    concentration (alpha_obj (self w')) = float_of v1 /\
    concentration (gamma_obj (self w')) = float_of v2 /\
    alpha (self w') = float_of v1 * Q_of_nat (state_dim (self w)) /\
    gamma (self w') = float_of v2 * Q_of_nat (state_dim (self w)).
Proof.
  unfold ConcentrationResampling_resample, DirGamma_resample_method. intros H.
  rewrite bind_attr in H.
  apply bind_attr_opt_inv in H as (tc & Htc & H).
  apply bind_attr_opt_inv in H as (b & Hb & H).
  rewrite bind_assoc in H. apply bind_sample_inv in H as (v1 & Hv1 & H).
  rewrite bind_ret, bind_assign, bind_attr, bind_attr, bind_assign, bind_attr in H.
  apply bind_attr_opt_inv in H as (mm & Hmm & H).
  rewrite bind_assoc in H. apply bind_sample_inv in H as (v2 & Hv2 & H).
  rewrite bind_ret, bind_assign, bind_attr, bind_attr, assign_run in H.
  injection H as <-. cbn [self drawn] in *.
  rewrite length_app, Nat.add_1_r in Hv2. cbn [gamma_obj set_alpha set_alpha_obj] in Hv2.
  exists tc, b, mm, v1, v2. cbn.
  rewrite <- app_assoc. repeat split; done.
Qed.

(** X15: a completed resample of the HMM or semi-Markov class with
    concentration resampling ends with two requests to the DirGamma
    objects, in this order: the alpha object is resampled on the
    [trans_counts] and the beta that the sweep has just assigned (beta as
    weighted columns), the gamma object on the table counts [m], both with
    niter = 10.  alpha and gamma are then the two new concentrations times
    state_dim. *)
Theorem X15_conc_resample_follows_the_sweep
    (c : class) (states_list : list (list Z)) (om : oracle) (w w' : world) :
  conc_class c ->
  resample c (mro c) states_list om w = Ok tt w' ->
  exists tc b mm v1 v2 dr,
    trans_counts (self w') = Some tc /\ beta (self w') = Some b /\
    m (self w') = Some mm /\
    drawn w' =
      dr ++ [DirGamma_resample (alpha_obj (self w)) tc (Some b) 10;
             DirGamma_resample (gamma_obj (self w)) mm None 10] /\
    om (length dr) (DirGamma_resample (alpha_obj (self w)) tc (Some b) 10) = Value v1 /\
    om (S (length dr)) (DirGamma_resample (gamma_obj (self w)) mm None 10) = Value v2 /\
    concentration (alpha_obj (self w')) = float_of v1 /\
    concentration (gamma_obj (self w')) = float_of v2 /\
    alpha (self w') = float_of v1 * Q_of_nat (state_dim (self w)) /\
    gamma (self w') = float_of v2 * Q_of_nat (state_dim (self w)).
Proof.
  intros Hc H.
  assert (Hcore : exists w1,
            ConcentrationResampling_resample om w1 = Ok tt w' /\
            alpha_obj (self w1) = alpha_obj (self w) /\
            gamma_obj (self w1) = gamma_obj (self w) /\
            state_dim (self w1) = state_dim (self w)).
  { destruct Hc as [-> | ->]; cbn [mro resample] in H;
      apply bind_inv in H as ([] & w1 & H1 & H); exists w1; (split; [exact H|]).
    - pose proof (proj1 (sweep_bodies_preserve alpha_obj
        HDPHMMTransitionsConcResampling states_list
        ltac:(done) ltac:(done) ltac:(done) ltac:(done) ltac:(done) ltac:(done))
        om w) as Ha.
      pose proof (proj1 (sweep_bodies_preserve gamma_obj
        HDPHMMTransitionsConcResampling states_list
        ltac:(done) ltac:(done) ltac:(done) ltac:(done) ltac:(done) ltac:(done))
        om w) as Hg.
      pose proof (proj1 (sweep_bodies_preserve state_dim
        HDPHMMTransitionsConcResampling states_list
        ltac:(done) ltac:(done) ltac:(done) ltac:(done) ltac:(done) ltac:(done))
        om w) as Hd.
      rewrite H1 in Ha, Hg, Hd. done.
    - pose proof (proj2 (sweep_bodies_preserve alpha_obj
        HDPHSMMTransitionsConcResampling states_list
        ltac:(done) ltac:(done) ltac:(done) ltac:(done) ltac:(done) ltac:(done))
        om w) as Ha.
      pose proof (proj2 (sweep_bodies_preserve gamma_obj
        HDPHSMMTransitionsConcResampling states_list
        ltac:(done) ltac:(done) ltac:(done) ltac:(done) ltac:(done) ltac:(done))
        om w) as Hg.
      pose proof (proj2 (sweep_bodies_preserve state_dim
        HDPHSMMTransitionsConcResampling states_list
        ltac:(done) ltac:(done) ltac:(done) ltac:(done) ltac:(done) ltac:(done))
        om w) as Hd.
      rewrite H1 in Ha, Hg, Hd. done. }
  destruct Hcore as (w1 & Hconc & Ha & Hg & Hd).
  apply ConcentrationResampling_resample_inv in Hconc
    as (tc & b & mm & v1 & v2 & H1 & H2 & H3 & H4 & H5 & H6 & H7 & H8 & H9 & H10).
  rewrite Ha, Hg in *. rewrite Hd in *.
  exists tc, b, mm, v1, v2, (drawn w1). done.
Qed.

Lemma X15_witness :
  conc_class HDPHMMTransitionsConcResampling /\
  resample HDPHMMTransitionsConcResampling (mro HDPHMMTransitionsConcResampling)
           [[0; 1; 1; 0]%Z] steady (mkWorld hmm2 []) = Ok tt hmm_conc2_resampled /\
  exists tc b mm v1 v2 dr,
    trans_counts (self hmm_conc2_resampled) = Some tc /\
    beta (self hmm_conc2_resampled) = Some b /\
    m (self hmm_conc2_resampled) = Some mm /\
    drawn hmm_conc2_resampled =
      dr ++ [DirGamma_resample (alpha_obj hmm2) tc (Some b) 10;
             DirGamma_resample (gamma_obj hmm2) mm None 10] /\
    steady (length dr) (DirGamma_resample (alpha_obj hmm2) tc (Some b) 10) = Value v1 /\
    steady (S (length dr)) (DirGamma_resample (gamma_obj hmm2) mm None 10) = Value v2 /\
    concentration (alpha_obj (self hmm_conc2_resampled)) = float_of v1 /\
    concentration (gamma_obj (self hmm_conc2_resampled)) = float_of v2 /\
    alpha (self hmm_conc2_resampled) = float_of v1 * Q_of_nat (state_dim hmm2) /\
    gamma (self hmm_conc2_resampled) = float_of v2 * Q_of_nat (state_dim hmm2).
Proof.
  assert (Hc : conc_class HDPHMMTransitionsConcResampling) by (by left).
  assert (H : resample HDPHMMTransitionsConcResampling
                (mro HDPHMMTransitionsConcResampling) [[0; 1; 1; 0]%Z] steady
                (mkWorld hmm2 []) = Ok tt hmm_conc2_resampled)
    by (vm_compute; reflexivity).
  split; [exact Hc|]. split; [exact H|].
  exact (X15_conc_resample_follows_the_sweep HDPHMMTransitionsConcResampling
           [[0; 1; 1; 0]%Z] steady (mkWorld hmm2 []) hmm_conc2_resampled Hc H).
Defined.

(** ** The constructor of the sticky class *)

(** Table counts that are all 0: the sticky beta step asks for no binomial
    variate and does not read beta. *)
Lemma sticky_resample_beta_zeros super r c om w :
  _resample_beta (StickyHDPHMMTransitions :: super) (zeros r c) om w =
  _resample_beta super (zeros r c) om
    (mkWorld (set_newm (zeros r c) (self w)) (drawn w)).
Proof. cbn [_resample_beta]. rewrite isum_all_zeros. reflexivity. Qed.

Lemma add_diag_nonneg (k : Q) (data : matrix) :
  0 <= k -> Forall (Forall (fun x => 0 <= x)) data ->
  Forall (Forall (fun x => 0 <= x)) (add_diag k data).
Proof.
  intros Hk Hdata. unfold add_diag. apply imap2_Forall. intros i j row x Hrow Hx.
  pose proof (Forall2_cells (fun x => 0 <= x) data i j row x Hdata Hrow Hx) as H.
  simpl in H. destruct (i =? j)%nat; lra.
Qed.

(** X16: constructing a sticky object without both arrays completes, for
    L >= 1 and alpha, gamma, kappa >= 0, after exactly two draws: the
    table counts of the empty list are all 0, so the beta step asks for no
    binomial variate; beta is drawn from the Dirichlet with all L parameters
    gamma/L + 0 + 1e-2 and the rows of A from Gamma variates of shape
    alpha*beta[j] + 0 + kappa*[i = j] + 1e-2.  kappa is the value passed,
    [m] and [newm] are all 0, beta is on the simplex and A is
    row-stochastic. *)
Theorem X16_sticky_constructor_draws_from_the_prior
    (L : nat) (k a g : Q) (beta0 : option vec) (A0 : option matrix) (om : oracle) :
  (0 < L)%nat -> 0 <= k -> 0 <= a -> 0 <= g ->
  A0 = None \/ beta0 = None ->
  fair om -> answers_valid om ->
  exists v1 shape w',
    run (StickyHDPHMMTransitions_init StickyHDPHMMTransitions k L a g beta0 A0)
        om blank = Ok tt w' /\
    drawn w' =
      [dirichlet (replicate L (g / Q_of_nat L + inject_Z 0 + (1 # 100)));
       gamma_rvs shape] /\
    om 0%nat (dirichlet (replicate L (g / Q_of_nat L + inject_Z 0 + (1 # 100)))) =
      Value v1 /\
    (forall i j, (i < L)%nat -> (j < L)%nat ->
       qcell shape i j ==
       a * floats v1 0%nat j + 0 + (if decide (i = j) then k else 0) + (1 # 100)) /\
    kappa (self w') = k /\
    m (self w') = Some (zeros L L) /\ newm (self w') = Some (zeros L L) /\
    beta (self w') = Some (floats_of v1 L) /\ simplex L (floats_of v1 L) /\
    (exists aa, A (self w') = Some aa /\ stochastic L aa).
Proof.
  intros Hpos Hk Ha Hg Hnone Hfair Hom.
  set (o := set_gamma g (set_alpha a (set_state_dim L (set_kappa k blank)))).
  assert (Hinit :
    run (StickyHDPHMMTransitions_init StickyHDPHMMTransitions k L a g beta0 A0)
        om blank =
    resample StickyHDPHMMTransitions (mro StickyHDPHMMTransitions) [] om
             (mkWorld o [])).
  { unfold run, StickyHDPHMMTransitions_init, HDPHMMTransitions_init.
    rewrite !bind_assign. destruct Hnone as [-> | ->]; [reflexivity|]. by destruct A0. }
  destruct Hom as (Hrand & Hdir & Hgam).
  set (w1 := mkWorld (set_newm (zeros L L)
                        (set_m (zeros L L) (set_trans_counts (zeros L L) o))) []).
  destruct (base_resample_beta_total L [] (zeros L L) om w1) as (v1 & Hv1 & Hbeta);
    try done; [apply zeros_square|apply zeros_nonneg|].
  change (gamma (self w1)) with g in *. change (drawn w1) with (@nil draw) in *.
  rewrite beta_parameter_zeros in * by lia.
  set (w2 := mkWorld (set_beta (floats_of v1 L) (self w1))
               ([] ++ [dirichlet (replicate L (g / Q_of_nat L + inject_Z 0 + (1 # 100)))]))
    in *.
  set (data := add_diag k (to_float (zeros L L))).
  assert (Hsqd : is_square L data).
  { apply add_diag_square, to_float_square, zeros_square. }
  destruct (base_resample_A_total L [] data (floats_of v1 L) om w2)
    as (v2 & Hv2 & HA); try done.
  { apply floats_of_length. }
  { by eapply fair_floats_of. }
  { apply add_diag_nonneg; [done|]. apply (to_float_nonneg L).
    split; [apply zeros_square|].
    unfold zeros. apply Forall_replicate, Forall_replicate. lia. }
  change (alpha (self w2)) with a in *.
  assert (Hrun : resample StickyHDPHMMTransitions (mro StickyHDPHMMTransitions) []
                   om (mkWorld o []) =
                 Ok tt (mkWorld
                          (set_A (rows_normalized
                                    (matrix_of v2 (gamma_shape a (floats_of v1 L) data)))
                                 (self w2))
                          (drawn w2 ++ [gamma_rvs (gamma_shape a (floats_of v1 L) data)]))).
  { cbn [mro resample]. unfold HDPHMMTransitions_resample. cbn [mro].
    change (_count_transitions [StickyHDPHMMTransitions; HDPHMMTransitions] [])
      with (_count_transitions [HDPHMMTransitions] []).
    rewrite (bind_ok _ _ _ _ _ _ (empty_list_counts [] om (mkWorld o []))).
    change (state_dim (self (mkWorld o []))) with L.
    destruct (get_m_total L (zeros L L) om
                (mkWorld (set_trans_counts (zeros L L) (self (mkWorld o []))) []))
      as (mm & wm & Hm & Hselfm & _ & _ & Hz); [done| | |done|].
    { split; [apply zeros_square|].
      unfold zeros. apply Forall_replicate, Forall_replicate. lia. }
    { left. apply all_zero_zeros. }
    destruct (Hz (all_zero_zeros L L)) as [-> Hdm].
    rewrite (bind_ok _ _ _ _ _ _ Hm).
    rewrite bind_run, sticky_resample_beta_zeros.
    assert (Hw1 : mkWorld (set_newm (zeros L L) (self wm)) (drawn wm) = w1).
    { destruct wm as [om' dm]. simpl in Hselfm, Hdm. subst. reflexivity. }
    rewrite Hw1, Hbeta.
    rewrite resample_A_sticky, bind_attr.
    rewrite bind_same_shape
      by (rewrite to_float_length; apply square_true, to_float_square;
          unfold zeros; rewrite length_replicate; apply zeros_square).
    exact HA. }
  exists v1, (gamma_shape a (floats_of v1 L) data). eexists.
  split; [rewrite Hinit; exact Hrun|].
  split; [reflexivity|]. split; [exact Hv1|]. split.
  { intros i j Hi Hj. unfold gamma_shape.
    rewrite (base_shape_cell L) by (done || apply floats_of_length).
    unfold data. rewrite (qcell_add_diag L)
      by (done || apply to_float_square, zeros_square).
    assert (Hcell : qcell (to_float (zeros L L)) i j == 0).
    { unfold qcell, to_float, zeros.
      rewrite list_lookup_fmap, lookup_replicate_2 by done. simpl.
      rewrite list_lookup_fmap, lookup_replicate_2 by done. reflexivity. }
    assert (Hb : vcell (floats_of v1 L) j = floats v1 0%nat j).
    { unfold vcell, floats_of. rewrite list_lookup_fmap, lookup_seq_lt by done.
      reflexivity. }
    rewrite Hcell, Hb.
    destruct (Nat.eqb_spec i j); destruct (decide (i = j)); try done; ring. }
  split; [reflexivity|]. split; [reflexivity|]. split; [reflexivity|].
  split; [reflexivity|].
  destruct (resample_swept StickyHDPHMMTransitions [] om (mkWorld o []) _ Hfair
              ltac:(discriminate) ltac:(simpl; lia) Hrun)
    as (_ & (b' & Hb' & Hsimplex) & (aa & Haa & Hsto & _) & _).
  change (state_dim (self (mkWorld o []))) with L in *.
  split; [by injection Hb' as <-|]. by exists aa.
Qed.

Lemma X16_witness :
  (0 < 2)%nat /\ 0 <= 3 /\ 0 <= 1 /\
  ((None : option matrix) = None \/ (None : option vec) = None) /\
  fair steady /\ answers_valid steady /\
  exists v1 shape w',
    run (StickyHDPHMMTransitions_init StickyHDPHMMTransitions 3 2 1 1 None None)
        steady blank = Ok tt w' /\
    drawn w' =
      [dirichlet (replicate 2 (1 / Q_of_nat 2 + inject_Z 0 + (1 # 100)));
       gamma_rvs shape] /\
    steady 0%nat (dirichlet (replicate 2 (1 / Q_of_nat 2 + inject_Z 0 + (1 # 100)))) =
      Value v1 /\
    (forall i j, (i < 2)%nat -> (j < 2)%nat ->
       qcell shape i j ==
       1 * floats v1 0%nat j + 0 + (if decide (i = j) then 3 else 0) + (1 # 100)) /\
    kappa (self w') = 3 /\
    m (self w') = Some (zeros 2 2) /\ newm (self w') = Some (zeros 2 2) /\
    beta (self w') = Some (floats_of v1 2) /\ simplex 2 (floats_of v1 2) /\
    (exists aa, A (self w') = Some aa /\ stochastic 2 aa).
Proof.
  assert (Hpos : (0 < 2)%nat) by lia.
  assert (Hk : 0 <= 3) by discriminate.
  assert (Ha : 0 <= 1) by discriminate.
  assert (Hnone : (None : option matrix) = None \/ (None : option vec) = None)
    by (by left).
  split; [exact Hpos|]. split; [exact Hk|]. split; [exact Ha|]. split; [exact Hnone|].
  split; [exact steady_fair|]. split; [exact steady_answers_valid|].
  exact (X16_sticky_constructor_draws_from_the_prior 2 3 1 1 None None steady
           Hpos Hk Ha Ha Hnone steady_fair steady_answers_valid).
Defined.

(** ** Bounds of the table counts *)

Lemma get_m_cell_stores L (mm : imatrix) i j val (b : vec) u om w :
  is_square L mm -> (i < L)%nat -> (j < L)%nat -> (0 <= val < 2 ^ 31)%Z ->
  beta (self w) = Some b -> length b = L ->
  0 < alpha (self w) -> Forall (fun x => 0 < x) b ->
  om (length (drawn w)) (rand val) = Value u ->
  exists row,
    mm !! i = Some row /\
    get_m_cell mm (i, j, val) om w =
      Ok (<[i := <[j := bernoulli_successes (floats u 0%nat)
                      (fun k => alpha (self w) * vcell b j /
                                (Q_of_nat k + alpha (self w) * vcell b j))
                      (Z.to_nat val)]> row]> mm)
         (mkWorld (self w) (drawn w ++ [rand val])).
Proof.
  intros Hsq Hi Hj Hval Hb Hlen Ha Hbpos Hu.
  destruct (is_square_lookup L mm i Hsq Hi) as (row & Hrow & Hrlen).
  destruct (lookup_lt_is_Some_2 row j) as [x Hx]; [lia|].
  destruct (lookup_lt_is_Some_2 b j) as [b_j Hbj]; [lia|].
  assert (Hbj0 : 0 < b_j).
  { rewrite Forall_lookup in Hbpos. by eapply Hbpos. }
  exists row. split; [done|].
  unfold get_m_cell.
  rewrite (bind_ok _ _ _ _ _ _ (sample_value _ _ _ _ Hu)).
  rewrite bind_attr. simpl self.
  rewrite (bind_attr_opt _ _ _ _ b) by exact Hb.
  rewrite (bind_subscript _ _ _ _ b_j Hbj).
  assert (Hden : Forall (fun y => ~ y == 0)
            ((fun k => k + alpha (self w) * b_j) <$> arange (Z.to_nat val))).
  { apply Forall_fmap, Forall_fmap, Forall_true. intros k. simpl.
    pose proof (Q_of_nat_nonneg k).
    assert (0 < alpha (self w) * b_j) by (apply Qmult_lt_0_compat; done).
    lra. }
  rewrite (bind_ok _ _ _ _ _ _ (divide_cells_ok _ _ _ _ Hden)).
  rewrite (bind_subscript _ _ _ _ row Hrow), (bind_subscript _ _ _ _ x Hx).
  rewrite ret_run. unfold vcell. rewrite Hbj. simpl default.
  rewrite successes_bernoulli, wrap32_small; [reflexivity|].
  pose proof (bernoulli_successes_bounds (floats u 0%nat)
    (fun k => alpha (self w) * b_j / (Q_of_nat k + alpha (self w) * b_j))
    (Z.to_nat val)).
  unfold int32. lia.
Qed.

(** The loop of [_get_m]: what holds of the count stored for a cell,
    whatever its uniform variates, holds of every cell of the result. *)
Lemma get_m_loop L (tc : imatrix) (b : vec) om w (R : nat -> Z -> Z -> Prop) :
  counts_array L tc -> beta (self w) = Some b -> length b = L ->
  0 < alpha (self w) -> Forall (fun x => 0 < x) b ->
  (forall k n, (0 <= n)%Z -> exists v, om k (rand n) = Value v) ->
  (forall j val k u, (j < L)%nat -> (0 <= val < 2 ^ 31)%Z ->
     om k (rand val) = Value u ->
     R j val (bernoulli_successes (floats u 0%nat)
                (fun t => alpha (self w) * vcell b j /
                          (Q_of_nat t + alpha (self w) * vcell b j))
                (Z.to_nat val))) ->
  exists mm w',
    foldM get_m_cell (ndenumerate tc) (zeros L L) om w = Ok mm w' /\
    self w' = self w /\ is_square L mm /\
    forall i j, (i < L)%nat -> (j < L)%nat -> R j (icell tc i j) (icell mm i j).
Proof.
  intros Htc Hb Hlen Ha Hbpos Hrand HR. pose proof Htc as [Hsq _].
  set (P := fun (k : nat) (mm : imatrix) (w' : world) =>
    self w' = self w /\ is_square L mm /\
    forall i j, (i < L)%nat -> (j < L)%nat -> (i * L + j < k)%nat ->
      R j (icell tc i j) (icell mm i j)).
  destruct (foldM_index get_m_cell om (ndenumerate tc) P) with
    (acc := zeros L L) (w := w) as (mm & w' & Hrun & Hself & Hsqm & Hcells).
  - intros k x mm w' Hk (Hself & Hsqm & Hcells).
    assert (HkL : (k < L * L)%nat).
    { apply lookup_lt_Some in Hk. by rewrite (ndenumerate_length L) in Hk. }
    assert (HLpos : (0 < L)%nat) by nia.
    set (i0 := (k / L)%nat). set (j0 := (k mod L)%nat).
    assert (Hj0 : (j0 < L)%nat) by (apply Nat.mod_upper_bound; lia).
    assert (Hk0 : k = (i0 * L + j0)%nat).
    { unfold i0, j0. pose proof (Nat.div_mod_eq k L). lia. }
    assert (Hi0 : (i0 < L)%nat) by nia.
    rewrite Hk0, (ndenumerate_lookup L tc i0 j0 Hsq Hi0 Hj0) in Hk.
    injection Hk as <-.
    pose proof (counts_array_icell L tc i0 j0 Htc) as Hval.
    destruct (Hrand (length (drawn w')) (icell tc i0 j0)) as [u Hu]; [lia|].
    destruct (get_m_cell_stores L mm i0 j0 (icell tc i0 j0) b u om w')
      as (row & Hrow & Hstep); try done; try (by rewrite Hself).
    rewrite Hself in Hstep.
    eexists. eexists. split; [exact Hstep|].
    split; [reflexivity|]. split.
    + apply is_square_insert; [done|]. rewrite length_insert.
      destruct Hsqm as [_ Hall]. rewrite Forall_lookup in Hall. by eapply Hall.
    + intros i j Hi Hj Hlt. rewrite (icell_insert L) by done.
      destruct (decide (i = i0 /\ j = j0)) as [[-> ->]|Hne].
      * by eapply HR.
      * apply Hcells; [done|done|].
        destruct (decide (i * L + j = k)%nat) as [Heq|]; [|lia].
        exfalso. apply Hne. apply (linear_index_unique L); [done|done|lia].
  - split; [done|]. split; [apply zeros_square|]. intros i j _ _ Hlt. lia.
  - rewrite (ndenumerate_length L) in Hcells by done.
    exists mm, w'. split; [done|]. split; [done|]. split; [done|].
    intros i j Hi Hj. apply Hcells; [done|done|nia].
Qed.

Lemma bernoulli_successes_zero u p : bernoulli_successes u p 0 = 0%Z.
Proof. reflexivity. Qed.

(** The first trial has success probability ab/(0 + ab) = 1: it succeeds
    when its uniform variate is below 1. *)
Lemma bernoulli_successes_first (u : nat -> Q) (ab : Q) n :
  0 < ab -> (0 < n)%nat -> u 0%nat < 1 ->
  (1 <= bernoulli_successes u (fun t => (ab / (Q_of_nat t + ab))%Q) n)%Z.
Proof.
  intros Hab Hn Hu. unfold bernoulli_successes.
  destruct n as [|n]; [lia|]. cbn [seq]. rewrite filter_cons.
  assert (Hfirst : Qltb (u 0%nat) (ab / (Q_of_nat 0 + ab)) = true).
  { unfold Qltb. apply negb_true_iff, not_true_iff_false. intros Hle.
    apply Qle_bool_iff in Hle.
    assert (Hone : ab / (Q_of_nat 0 + ab) == 1).
    { unfold Q_of_nat. simpl inject_Z. field. lra. }
    rewrite Hone in Hle. lra. }
  rewrite decide_True by exact Hfirst. rewrite length_cons. lia.
Qed.

(** X17: the table counts lie between 1 and the transition count wherever
    transitions were counted, and are 0 elsewhere.  For an array of counts,
    alpha > 0, a beta of L positive entries and uniform variates below 1,
    [_get_m] completes and assigns an [m] with m[i][j] = 0 when
    counts[i][j] = 0 and 1 <= m[i][j] <= counts[i][j] otherwise: trial 0 of a
    cell has success probability alpha*beta[j] / (0 + alpha*beta[j]) = 1. *)
Theorem X17_table_counts_between_one_and_the_count
    (L : nat) (tc : imatrix) (b : vec) (om : oracle) (w : world) :
  state_dim (self w) = L -> counts_array L tc ->
  beta (self w) = Some b -> length b = L ->
  0 < alpha (self w) -> Forall (fun x => 0 < x) b ->
  (forall k n, (0 <= n)%Z -> exists v, om k (rand n) = Value v) ->
  uniform_below_one om ->
  exists mm w',
    _get_m tc om w = Ok mm w' /\ m (self w') = Some mm /\
    forall i j, (i < L)%nat -> (j < L)%nat ->
      (icell tc i j = 0%Z -> icell mm i j = 0%Z) /\
      ((0 < icell tc i j)%Z -> (1 <= icell mm i j <= icell tc i j)%Z).
Proof.
  intros HL Htc Hb Hlen Ha Hbpos Hrand Hunif.
  unfold _get_m. rewrite bind_attr, HL.
  destruct (all_zero tc) eqn:Hz; simpl negb; cbv iota.
  - rewrite bind_ret, bind_assign, ret_run. eexists _, _.
    split; [reflexivity|]. split; [reflexivity|]. intros i j Hi Hj.
    rewrite all_zero_icell in Hz. rewrite (Hz i j), icell_zeros. split; [done|lia].
  - destruct (get_m_loop L tc b om w
                (fun j val x => (val = 0%Z -> x = 0%Z) /\
                                ((0 < val)%Z -> (1 <= x <= val)%Z)))
      as (mm & w' & Hrun & Hself & Hsq & Hcells); try done.
    + intros j val k u Hj Hval Hu. split.
      * intros ->. reflexivity.
      * intros Hpos.
        pose proof (bernoulli_successes_bounds (floats u 0%nat)
          (fun t => alpha (self w) * vcell b j /
                    (Q_of_nat t + alpha (self w) * vcell b j)) (Z.to_nat val)).
        split; [|lia]. apply bernoulli_successes_first; [|lia|by eapply Hunif].
        apply Qmult_lt_0_compat; [done|]. unfold vcell.
        destruct (lookup_lt_is_Some_2 b j) as [b_j Hbj]; [lia|].
        rewrite Hbj. simpl. rewrite Forall_lookup in Hbpos. by eapply Hbpos.
    + rewrite (bind_ok _ _ _ _ _ _ Hrun), bind_assign, ret_run.
      eexists _, _. split; [reflexivity|]. split; [reflexivity|]. exact Hcells.
Qed.

Lemma steady_uniform_below_one : uniform_below_one steady.
Proof. intros k n v t [= <-]. reflexivity. Qed.

Lemma X17_witness :
  counts_array 2 [[0; 2]; [1; 0]]%Z /\
  beta hmm2 = Some [1 # 2; 1 # 2] /\ 0 < alpha hmm2 /\
  Forall (fun x => 0 < x) [1 # 2; 1 # 2] /\ uniform_below_one steady /\
  exists mm w',
    _get_m [[0; 2]; [1; 0]]%Z steady (mkWorld hmm2 []) = Ok mm w' /\
    m (self w') = Some mm /\
    forall i j, (i < 2)%nat -> (j < 2)%nat ->
      (icell [[0; 2]; [1; 0]]%Z i j = 0%Z -> icell mm i j = 0%Z) /\
      ((0 < icell [[0; 2]; [1; 0]]%Z i j)%Z ->
       (1 <= icell mm i j <= icell [[0; 2]; [1; 0]]%Z i j)%Z).
Proof.
  assert (Htc : counts_array 2 [[0; 2]; [1; 0]]%Z).
  { split; [split; [reflexivity|repeat constructor]|].
    repeat constructor; simpl; lia. }
  assert (Hb : beta hmm2 = Some [1 # 2; 1 # 2]) by reflexivity.
  assert (Ha : 0 < alpha hmm2) by reflexivity.
  assert (Hbpos : Forall (fun x => 0 < x) [1 # 2; 1 # 2]) by (repeat constructor).
  split; [exact Htc|]. split; [exact Hb|]. split; [exact Ha|]. split; [exact Hbpos|].
  split; [exact steady_uniform_below_one|].
  exact (X17_table_counts_between_one_and_the_count 2 [[0; 2]; [1; 0]]%Z
           [1 # 2; 1 # 2] steady (mkWorld hmm2 []) eq_refl Htc Hb eq_refl Ha Hbpos
           (fun k n _ => ex_intro _ _ eq_refl) steady_uniform_below_one).
Defined.

(** ** The left-to-right classes before [fullA] is assigned *)

Lemma wrapped_pairs_labels L states_list :
  Forall (indices_ok L) (all_pairs states_list) ->
  Forall (labels2 L) (wrapped_pairs L states_list).
Proof.
  intros H. unfold wrapped_pairs. apply Forall_fmap.
  eapply Forall_impl; [exact H|]. intros p [Hi Hj]. split; simpl.
  - apply (norm_index_ok L _ Hi).
  - apply (norm_index_ok L _ Hj).
Qed.

(** The base counting step on indices that numpy accepts: the counts are
    those of the positions the labels stand for. *)
Lemma base_count_wrapped rest states_list om w :
  Forall (indices_ok (state_dim (self w))) (all_pairs states_list) ->
  exists tc,
    _count_transitions (HDPHMMTransitions :: rest) states_list om w =
      Ok tc (mkWorld (set_trans_counts tc (self w)) (drawn w)) /\
    is_square (state_dim (self w)) tc /\
    forall i j, (i < state_dim (self w))%nat -> (j < state_dim (self w))%nat ->
      icell tc i j =
      wrap32 (occurrences i j (wrapped_pairs (state_dim (self w)) states_list)).
Proof.
  intros Hok. set (L := state_dim (self w)) in *.
  destruct (count_pairs_ok L (all_pairs states_list) (zeros L L) om w
              (zeros_square L) Hok) as (tc & H1 & Hsq & H2).
  destruct (count_pairs_run L (wrapped_pairs L states_list) (zeros L L)
              (fun _ _ => 0%Z) om w) as (tc' & H3 & _ & Hcell).
  - apply zeros_square.
  - by apply wrapped_pairs_labels.
  - intros i j _ _. rewrite icell_zeros. reflexivity.
  - unfold wrapped_pairs in H3. rewrite H2 in H3. injection H3 as <-.
    exists tc. split; [|split; [done|]].
    + cbn [_count_transitions]. rewrite bind_attr. fold L.
      rewrite (bind_ok _ _ _ _ tc w) by (rewrite count_all_run; exact H1).
      reflexivity.
    + intros i j Hi Hj. rewrite (Hcell i j Hi Hj). reflexivity.
Qed.

Lemma base_count_index_error rest states_list om w :
  Exists (fun p => ~ indices_ok (state_dim (self w)) p) (all_pairs states_list) ->
  _count_transitions (HDPHMMTransitions :: rest) states_list om w =
    Raise IndexError w.
Proof.
  intros Hex. cbn [_count_transitions]. rewrite bind_attr.
  apply bind_raise. rewrite count_all_run.
  apply (count_pairs_bad (state_dim (self w))); [apply zeros_square|exact Hex].
Qed.

(** Without [fullA], a resample of a left-to-right class whose counting
    passes its bounds checks ends at the assertion or at the read of
    [fullA]. *)
Lemma ltr_resample_without_fullA c states_list om w :
  ltr_class c -> fullA (self w) = None ->
  Forall (indices_ok (state_dim (self w))) (all_pairs states_list) ->
  exists tc,
    (forall i j, (i < state_dim (self w))%nat -> (j < state_dim (self w))%nat ->
       icell tc i j =
       wrap32 (occurrences i j (wrapped_pairs (state_dim (self w)) states_list))) /\
    is_square (state_dim (self w)) tc /\
    resample c (mro c) states_list om w =
      Raise (if all_zero (tril_strict 0%Z tc) then AttributeError else AssertionError)
            (mkWorld (set_trans_counts tc (self w)) (drawn w)).
Proof.
  intros Hc Hnone Hok.
  destruct (base_count_wrapped [] states_list om w Hok) as (tc & Hrun & Hsq & Hcell).
  exists tc. split; [exact Hcell|]. split; [exact Hsq|].
  rewrite (ltr_resample_unfold c _ _ _ Hc).
  apply bind_raise. rewrite (ltr_count_unfold c _ _ _ Hc), Hrun.
  destruct (all_zero (tril_strict 0%Z tc)); [|reflexivity].
  apply bind_raise. apply attr_opt_none. exact Hnone.
Qed.

(** C10 (amended): no code path of the left-to-right classes assigns
    [fullA] before it is first read: it is assigned only in the A step,
    which every resample runs after counting, and the counting step reads
    it once its plain counting and its assertion have passed.  So, as long
    as [fullA] is unassigned, every resample of either class fails, with one
    of three errors, and leaves it unassigned.  The labels being read as
    numpy indices (a label s in [-L, 0) stands for state s + L): the error
    is the index error when some adjacent pair has a label outside [-L, L);
    otherwise, on fewer than 2^31 transitions, it is the assertion error
    when some adjacent pair goes to a lower state; otherwise it is the
    attribute error, raised before any draw.  The last case is the one of
    the resample on the empty list that the inherited constructors run when
    beta or A is omitted. *)
Theorem C10_resample_without_fullA_fails (c : class) (om : oracle) (w : world) :
  ltr_class c -> fullA (self w) = None ->
  (forall states_list, exists e w',
     resample c (mro c) states_list om w = Raise e w' /\ fullA (self w') = None /\
     (e = IndexError \/ e = AssertionError \/ e = AttributeError)) /\
  (forall states_list,
     Exists (fun p => ~ indices_ok (state_dim (self w)) p) (all_pairs states_list) ->
     resample c (mro c) states_list om w = Raise IndexError w) /\
  (forall states_list,
     Forall (indices_ok (state_dim (self w))) (all_pairs states_list) ->
     (Z.of_nat (length (all_pairs states_list)) < 2 ^ 31)%Z ->
     Exists backward (wrapped_pairs (state_dim (self w)) states_list) ->
     exists tc,
       resample c (mro c) states_list om w =
       Raise AssertionError (mkWorld (set_trans_counts tc (self w)) (drawn w))) /\
  (forall states_list,
     Forall (indices_ok (state_dim (self w))) (all_pairs states_list) ->
     Forall (fun p => ~ backward p) (wrapped_pairs (state_dim (self w)) states_list) ->
     exists tc,
       resample c (mro c) states_list om w =
       Raise AttributeError (mkWorld (set_trans_counts tc (self w)) (drawn w))) /\
  (forall L a g k beta0 A0, beta0 = None \/ A0 = None ->
     (exists w',
        HDPHMMTransitions_init c L a g beta0 A0 om (mkWorld blank []) =
        Raise AttributeError w' /\ drawn w' = []) /\
     (exists w',
        StickyHDPHMMTransitions_init c k L a g beta0 A0 om (mkWorld blank []) =
        Raise AttributeError w' /\ drawn w' = [])).
Proof.
  intros Hc Hnone.
  assert (Hidx : forall states_list,
     Exists (fun p => ~ indices_ok (state_dim (self w)) p) (all_pairs states_list) ->
     resample c (mro c) states_list om w = Raise IndexError w).
  { intros states_list Hex. rewrite (ltr_resample_unfold c _ _ _ Hc).
    apply bind_raise.
    rewrite (ltr_count_unfold c _ _ _ Hc), base_count_index_error by exact Hex.
    reflexivity. }
  assert (Hattr : forall w0 states_list, fullA (self w0) = None ->
     Forall (indices_ok (state_dim (self w0))) (all_pairs states_list) ->
     Forall (fun p => ~ backward p) (wrapped_pairs (state_dim (self w0)) states_list) ->
     exists tc,
       resample c (mro c) states_list om w0 =
       Raise AttributeError (mkWorld (set_trans_counts tc (self w0)) (drawn w0))).
  { intros w0 states_list Hnone0 Hok Hfwd.
    destruct (ltr_resample_without_fullA c states_list om w0 Hc Hnone0 Hok)
      as (tc & Hcell & Hsq & Hrun).
    exists tc. rewrite Hrun.
    assert (Hz : all_zero (tril_strict 0%Z tc) = true).
    { apply all_zero_icell. intros i j. rewrite icell_tril_strict.
      destruct (Nat.ltb_spec j i) as [Hji|]; [|reflexivity].
      destruct (decide ((i < state_dim (self w0))%nat /\ (j < state_dim (self w0))%nat))
        as [[Hi Hj]|Hout]; [|by eapply icell_outside].
      rewrite (Hcell i j Hi Hj), occurrences_zero; [reflexivity|].
      intros Hin. rewrite Forall_forall in Hfwd. apply (Hfwd _ Hin).
      unfold backward. simpl. lia. }
    by rewrite Hz. }
  split; [|split; [exact Hidx|split; [|split]]].
  - intros states_list.
    destruct (Forall_Exists_dec (indices_ok (state_dim (self w)))
                (fun p => ~ indices_ok (state_dim (self w)) p)
                (fun p => decide (indices_ok (state_dim (self w)) p))
                (all_pairs states_list)) as [Hok|Hbad].
    + destruct (ltr_resample_without_fullA c states_list om w Hc Hnone Hok)
        as (tc & _ & _ & Hrun).
      eexists _, _. split; [exact Hrun|]. split; [exact Hnone|].
      destruct (all_zero (tril_strict 0%Z tc)); auto.
    + eexists _, _. split; [exact (Hidx _ Hbad)|]. split; [exact Hnone|]. auto.
  - intros states_list Hok Hsmall Hback.
    destruct (ltr_resample_without_fullA c states_list om w Hc Hnone Hok)
      as (tc & Hcell & Hsq & Hrun).
    exists tc. rewrite Hrun.
    destruct (all_zero (tril_strict 0%Z tc)) eqn:Hz; [exfalso|reflexivity].
    apply Exists_exists in Hback as ([s t] & Hin & Hlt). unfold backward in Hlt.
    simpl in Hlt.
    pose proof (wrapped_pairs_labels _ _ Hok) as Hlab.
    rewrite Forall_forall in Hlab. destruct (Hlab _ Hin) as [Hs Ht].
    unfold label in Hs, Ht. simpl in Hs, Ht.
    rewrite all_zero_icell in Hz. specialize (Hz (Z.to_nat s) (Z.to_nat t)).
    rewrite icell_tril_strict in Hz.
    destruct (Nat.ltb_spec (Z.to_nat t) (Z.to_nat s)); [|lia].
    rewrite Hcell in Hz by lia.
    pose proof (occurrences_pos (Z.to_nat s) (Z.to_nat t)
                  (wrapped_pairs (state_dim (self w)) states_list)) as Hpos.
    rewrite !Z2Nat.id in Hpos by lia. specialize (Hpos Hin).
    pose proof (occurrences_le (Z.to_nat s) (Z.to_nat t)
                  (wrapped_pairs (state_dim (self w)) states_list)) as Hle.
    unfold wrapped_pairs in Hle at 2. rewrite length_fmap in Hle.
    rewrite wrap32_small in Hz by (unfold int32; lia). lia.
  - intros states_list. apply Hattr. exact Hnone.
  - intros L a g k beta0 A0 Hmissing.
    assert (Hres : forall w0, fullA (self w0) = None -> drawn w0 = [] ->
              exists w', resample c (mro c) [] om w0 = Raise AttributeError w' /\
                         drawn w' = []).
    { intros w0 H0 Hd. destruct (Hattr w0 [] H0) as (tc & ->); [constructor|constructor|].
      eexists. split; [reflexivity|exact Hd]. }
    split; unfold StickyHDPHMMTransitions_init, HDPHMMTransitions_init;
      rewrite !bind_assign;
      destruct Hmissing as [-> | ->]; try destruct A0; try destruct beta0;
      apply Hres; reflexivity.
Qed.

Lemma C10_counterexample :
  fullA (bare 2) = None /\
  run (resample LTRHDPHMMTransitions (mro LTRHDPHMMTransitions) [[1; 0]%Z])
      steady (bare 2) =
  Raise AssertionError
        (mkWorld (set_trans_counts [[0; 0]; [1; 0]]%Z (bare 2)) []).
Proof. split; reflexivity. Qed.

Lemma C10_witness :
  ltr_class StickyLTRHDPHMMTransitions /\ fullA (bare 2) = None /\
  (forall states_list, exists e w',
     resample StickyLTRHDPHMMTransitions (mro StickyLTRHDPHMMTransitions)
              states_list steady (mkWorld (bare 2) []) = Raise e w' /\
     fullA (self w') = None /\
     (e = IndexError \/ e = AssertionError \/ e = AttributeError)) /\
  (forall states_list,
     Exists (fun p => ~ indices_ok 2 p) (all_pairs states_list) ->
     resample StickyLTRHDPHMMTransitions (mro StickyLTRHDPHMMTransitions)
              states_list steady (mkWorld (bare 2) []) =
     Raise IndexError (mkWorld (bare 2) [])) /\
  (forall states_list,
     Forall (indices_ok 2) (all_pairs states_list) ->
     (Z.of_nat (length (all_pairs states_list)) < 2 ^ 31)%Z ->
     Exists backward (wrapped_pairs 2 states_list) ->
     exists tc,
       resample StickyLTRHDPHMMTransitions (mro StickyLTRHDPHMMTransitions)
                states_list steady (mkWorld (bare 2) []) =
       Raise AssertionError (mkWorld (set_trans_counts tc (bare 2)) [])) /\
  (forall states_list,
     Forall (indices_ok 2) (all_pairs states_list) ->
     Forall (fun p => ~ backward p) (wrapped_pairs 2 states_list) ->
     exists tc,
       resample StickyLTRHDPHMMTransitions (mro StickyLTRHDPHMMTransitions)
                states_list steady (mkWorld (bare 2) []) =
       Raise AttributeError (mkWorld (set_trans_counts tc (bare 2)) [])) /\
  (forall L a g k beta0 A0, beta0 = None \/ A0 = None ->
     (exists w',
        HDPHMMTransitions_init StickyLTRHDPHMMTransitions L a g beta0 A0 steady
                               (mkWorld blank []) =
        Raise AttributeError w' /\ drawn w' = []) /\
     (exists w',
        StickyHDPHMMTransitions_init StickyLTRHDPHMMTransitions k L a g beta0 A0
                                     steady (mkWorld blank []) =
        Raise AttributeError w' /\ drawn w' = [])).
Proof.
  split; [right; reflexivity|]. split; [reflexivity|].
  apply (C10_resample_without_fullA_fails StickyLTRHDPHMMTransitions steady
           (mkWorld (bare 2) [])); [right; reflexivity|reflexivity].
Defined.

(** The three errors on small inputs: an out-of-range label in a pair, a
    backward transition, and labels that pass both checks, among them
    negative labels and a lone label out of range. *)
Example ltr_first_resample_errors :
  run (resample LTRHDPHMMTransitions (mro LTRHDPHMMTransitions) [[0; 1; 7]%Z])
      steady (bare 2) = Raise IndexError (mkWorld (bare 2) []) /\
  run (resample LTRHDPHMMTransitions (mro LTRHDPHMMTransitions) [[0; 1; 0]%Z])
      steady (bare 2) =
    Raise AssertionError (mkWorld (set_trans_counts [[0; 1]; [1; 0]]%Z (bare 2)) []) /\
  run (resample LTRHDPHMMTransitions (mro LTRHDPHMMTransitions) [[-2; -1]%Z])
      steady (bare 2) =
    Raise AttributeError (mkWorld (set_trans_counts [[0; 1]; [0; 0]]%Z (bare 2)) []) /\
  run (resample LTRHDPHMMTransitions (mro LTRHDPHMMTransitions) [[7]%Z])
      steady (bare 2) =
    Raise AttributeError (mkWorld (set_trans_counts [[0; 0]; [0; 0]]%Z (bare 2)) []).
Proof. repeat split; reflexivity. Qed.
